(** * gh-watch.py: the fetch / cache / rate-limit / snooze subsystem

    A shallow embedding of [gh-watch.py] and the properties its
    specification states about it.

    The program is sequential Python that mutates three persisted stores
    ([Config], [Repos], [Cache]), reads the wall clock, talks to the network
    and to the keyboard.  It is embedded as functions in a state-and-exception
    monad over one record [St] holding the three store objects (so the
    references [cache.repos] and [cache.config] alias the objects [main]
    created), the clock, the files, the scripted replies of the outside
    world and the trace of observable effects.  A nested dictionary or list
    of a store is an object the program mutates in place; the embedding
    writes the mutated object back under its key ([mutate]) and sets the
    dirty flag only where the program does.

    Conventions fixed once:
    - wall-clock readings ([time()]) are integers ([Z], epoch seconds); the
      clock moves only when the program sleeps;
    - the JSON values of the stores, of the configuration and of the HTTP
      bodies have the shapes the program writes and expects; reading a
      stored value of another shape raises [TypeError];
    - Python strings are [string]s; [lower] and [title] are the ASCII
      fragments of the Python methods;
    - a compiled regular expression is its [search] function; compiling the
      filters ([Config.__init__]) is outside the embedding, a state holds
      the compiled filters;
    - the network, the feed parser and the keyboard answer from scripts held
      in the state; a call on an exhausted script never returns ([Blocked]);
    - log lines, the base64 decoding of a README and the [save] that
      [__del__] runs at teardown are not part of the embedding. *)

From Stdlib Require Import ZArith Ascii String.
From stdpp Require Import base option list gmap strings.

Local Open Scope string_scope.
Local Open Scope list_scope.
Local Open Scope Z_scope.

(* ===================================================================== *)
(** ** Python string methods used by the program *)
(* ===================================================================== *)

Module Str.

Definition is_upper (c : ascii) : bool :=
  let n := N_of_ascii c in ((65 <=? n) && (n <=? 90))%N.

Definition is_lower (c : ascii) : bool :=
  let n := N_of_ascii c in ((97 <=? n) && (n <=? 122))%N.

Definition is_digit (c : ascii) : bool :=
  let n := N_of_ascii c in ((48 <=? n) && (n <=? 57))%N.

Definition to_lower (c : ascii) : ascii :=
  if is_upper c then ascii_of_N (N_of_ascii c + 32) else c.

Definition to_upper (c : ascii) : ascii :=
  if is_lower c then ascii_of_N (N_of_ascii c - 32) else c.

(** [s.lower()] *)
Fixpoint lower (s : string) : string :=
  match s with
  | EmptyString => EmptyString
  | String c s' => String (to_lower c) (lower s')
  end.

(** [s.title()]: a cased character is upper-cased when the previous
    character is not cased, and lower-cased otherwise. *)
Fixpoint title_from (prev_cased : bool) (s : string) : string :=
  match s with
  | EmptyString => EmptyString
  | String c s' =>
      if is_upper c || is_lower c
      then String (if prev_cased then to_lower c else to_upper c)
                  (title_from true s')
      else String c (title_from false s')
  end.

Definition title (s : string) : string := title_from false s.

(** [sub in s] *)
Fixpoint contains (sub s : string) : bool :=
  String.prefix sub s ||
  match s with
  | EmptyString => false
  | String _ s' => contains sub s'
  end.

(** [s.replace(old, new)] for a non-empty [old]: occurrences are replaced
    from the left and do not overlap.  [skip] counts the characters of a
    matched occurrence still to be dropped. *)
Fixpoint replace_from (old new : string) (skip : nat) (s : string) : string :=
  match s with
  | EmptyString => EmptyString
  | String c s' =>
      match skip with
      | S k => replace_from old new k s'
      | O =>
          if String.prefix old s
          then new +:+ replace_from old new (String.length old - 1) s'
          else String c (replace_from old new 0 s')
      end
  end.

Definition replace (old new s : string) : string := replace_from old new 0 s.

(** [s.split(sep)] for a non-empty [sep]: the current piece and the pieces
    after it. *)
Fixpoint split_from (sep : string) (skip : nat) (s : string)
  : string * list string :=
  match s with
  | EmptyString => (EmptyString, [])
  | String c s' =>
      match skip with
      | S k => split_from sep k s'
      | O =>
          if String.prefix sep s
          then let '(p, ps) := split_from sep (String.length sep - 1) s' in
               (EmptyString, p :: ps)
          else let '(p, ps) := split_from sep 0 s' in (String c p, ps)
      end
  end.

Definition split (sep s : string) : list string :=
  let '(p, ps) := split_from sep 0 s in p :: ps.

(** [s.split(c, 1)] for a one-character separator: at most one cut, at
    the first occurrence. *)
Fixpoint split1 (sep : ascii) (s : string) : list string :=
  match s with
  | EmptyString => [EmptyString]
  | String c s' =>
      if Ascii.eqb c sep then [EmptyString; s']
      else match split1 sep s' with
           | p :: ps => String c p :: ps
           | [] => []
           end
  end.

(** [s.rstrip(c)] for a one-character set. *)
Fixpoint rstrip (c : ascii) (s : string) : string :=
  match s with
  | EmptyString => EmptyString
  | String a s' =>
      let r := rstrip c s' in
      match r with
      | EmptyString => if Ascii.eqb a c then EmptyString else String a r
      | _ => String a r
      end
  end.

(** The characters of [s] as one-character strings ([for c in s]). *)
Fixpoint chars (s : string) : list string :=
  match s with
  | EmptyString => []
  | String c s' => String c EmptyString :: chars s'
  end.

(** [s] without the prefix [p], when it starts with it. *)
Fixpoint strip_prefix (p s : string) : option string :=
  match p, s with
  | EmptyString, _ => Some s
  | String a p', String b s' =>
      if Ascii.eqb a b then strip_prefix p' s' else None
  | String _ _, EmptyString => None
  end.

(** The longest prefix of [s] whose characters satisfy [P], and the rest. *)
Fixpoint span (P : ascii → bool) (s : string) : string * string :=
  match s with
  | EmptyString => (EmptyString, EmptyString)
  | String c s' =>
      if P c then let '(a, b) := span P s' in (String c a, b)
      else (EmptyString, s)
  end.

End Str.

(* ===================================================================== *)
(** ** Data model *)
(* ===================================================================== *)

(** A repository record, the dictionary built by the three fetch routines.
    [license] is absent ([None]) until [main] evaluates it; it is then
    present and holds [None] (being checked) or a boolean. *)
Record Repo := mkRepo {
  full_name : string;
  user : string;
  repo : string;
  language : option string;
  stargazers_count : Z;
  forks_count : Z;
  html_url : string;
  homepage : option string;
  description : option string;
  license : option (option bool);
}.

(** The rate-limit state of one API class: [{'remain': _, 'reset': _}]. *)
Record RateLimit := mkRateLimit { remain : Z; reset : Z }.

(** The [languages] entry of a trend source: the string
    ['accept_languages'] (or any other string) or a list of names. *)
Inductive Languages :=
  | LangString (s : string)
  | LangList (l : list string).

(** One entry of [config['fetches']].  [key], [interval] and [type] are
    read for every source; the others only by the routine of their type and
    are absent ([None]) from the dictionary otherwise. *)
Record Fetch := mkFetch {
  key : string;
  interval : Z;
  type : string;
  q : option string;
  sort : option string;
  per_page : option Z;
  languages : option Languages;
  period : option string;
}.

(** The values the three stores hold under their top-level keys. *)
Inductive value :=
  | VInt (n : Z)
  | VStr (s : string)
  | VStrs (l : list string)
  | VTimes (m : gmap string Z)
  | VRepos (m : gmap string Repo)
  | VRateLimit (rl : RateLimit)
  | VFetches (l : list Fetch).

(** An instance of class [Data]: the path of its file, the in-memory
    mapping and the dirty flag. *)
Record Data := mkData {
  JSON : string;
  data : gmap string value;
  updated : bool;
}.

(** A compiled regular expression, as far as the program uses it. *)
Record Pattern := mkPattern {
  pattern : string;
  search : string → bool;
}.

(** *** The outside world *)

Inductive exn :=
  | KeyError
  | TypeError
  | ValueError
  | IndexError
  | AttributeError
  | NameError
  | HTTPError (status : Z)
  | RequestTimeout
  | ConnectionError.

(** An item of the repository search result. *)
Record SearchItem := mkSearchItem {
  i_full_name : string;
  i_owner_login : string;
  i_name : string;
  i_language : option string;
  i_stargazers_count : Z;
  i_forks_count : Z;
  i_html_url : string;
  i_homepage : option string;
  i_description : option string;
}.

(** The [data] of a child of the social-feed listing. *)
Record Child := mkChild {
  link_flair_text : option string;
  url : string;
  c_title : string;
}.

(** The decoded body of an HTTP response. *)
Inductive Body :=
  | NotJSON
  | SearchResult (total_count : Z) (items : list SearchItem)
  | Listing (children : list Child)
  | ApiError (error message : string)
  | Readme (encoding content name : string).

(** An HTTP response: status, the two rate-limit headers (absent when the
    server did not send them) and the body. *)
Record Response := mkResponse {
  status_code : Z;
  x_ratelimit_remaining : option Z;
  x_ratelimit_reset : option Z;
  body : Body;
}.

(** What a call of [requests.get] does: it returns a response or raises. *)
Inductive Reply :=
  | Answer (r : Response)
  | Fails (e : exn).

(** An entry of a parsed syndication feed. *)
Record Entry := mkEntry {
  e_title : string;
  e_description : option string;
  e_link : string;
}.

(** Observable effects, in the order they happen. *)
Inductive Event :=
  | ESleep (seconds : Z)
  | EGet (URL : string) (query : option string) (at_clock : Z)
  | EParse (URL : string)
  | ESave (path : string)
  | EPrintRepo (fn : string)
  | EPrompt (fn : string)
  | EPopen (cmd : string) (input : string).

(** The program state: the three objects [main] creates, the compiled
    filters of the [Config] object, the clock, the files, what the network,
    the feed server and the keyboard will answer, and the trace. *)
Record St := mkSt {
  clock : Z;
  net : list Reply;
  feeds : list (list Entry);
  keys : list string;
  trace : list Event;
  files : gmap string (gmap string value);
  config : Data;
  filters_repo : list Pattern;
  filters_description : list Pattern;
  repos : Data;
  cache : Data;
}.

Definition set_clock (t : Z) (st : St) : St :=
  mkSt t (net st) (feeds st) (keys st) (trace st) (files st) (config st)
       (filters_repo st) (filters_description st) (repos st) (cache st).

Definition set_net (n : list Reply) (st : St) : St :=
  mkSt (clock st) n (feeds st) (keys st) (trace st) (files st) (config st)
       (filters_repo st) (filters_description st) (repos st) (cache st).

Definition set_feeds (f : list (list Entry)) (st : St) : St :=
  mkSt (clock st) (net st) f (keys st) (trace st) (files st) (config st)
       (filters_repo st) (filters_description st) (repos st) (cache st).

Definition set_keys (k : list string) (st : St) : St :=
  mkSt (clock st) (net st) (feeds st) k (trace st) (files st) (config st)
       (filters_repo st) (filters_description st) (repos st) (cache st).

Definition log_event (e : Event) (st : St) : St :=
  mkSt (clock st) (net st) (feeds st) (keys st) (trace st ++ [e]) (files st)
       (config st) (filters_repo st) (filters_description st) (repos st)
       (cache st).

Definition set_files (f : gmap string (gmap string value)) (st : St) : St :=
  mkSt (clock st) (net st) (feeds st) (keys st) (trace st) f (config st)
       (filters_repo st) (filters_description st) (repos st) (cache st).

Definition set_config (d : Data) (st : St) : St :=
  mkSt (clock st) (net st) (feeds st) (keys st) (trace st) (files st) d
       (filters_repo st) (filters_description st) (repos st) (cache st).

Definition set_repos (d : Data) (st : St) : St :=
  mkSt (clock st) (net st) (feeds st) (keys st) (trace st) (files st)
       (config st) (filters_repo st) (filters_description st) d (cache st).

Definition set_cache (d : Data) (st : St) : St :=
  mkSt (clock st) (net st) (feeds st) (keys st) (trace st) (files st)
       (config st) (filters_repo st) (filters_description st) (repos st) d.

(** The three subclasses of [Data]; each has one instance. *)
Inductive store := Config | Repos | Cache.

Definition obj (o : store) (st : St) : Data :=
  match o with
  | Config => config st
  | Repos => repos st
  | Cache => cache st
  end.

Definition set_obj (o : store) (d : Data) (st : St) : St :=
  match o with
  | Config => set_config d st
  | Repos => set_repos d st
  | Cache => set_cache d st
  end.

(* ===================================================================== *)
(** ** The monad of the program: state, exceptions, blocking *)
(* ===================================================================== *)

(** A call returns, raises, or never returns because the outside world
    stopped answering ([Blocked]).  The state reached is kept in every
    case: what was mutated before an exception stays mutated. *)
Inductive outcome (A : Type) :=
  | Ok (a : A)
  | Raise (e : exn)
  | Blocked.

Arguments Ok {A} a.
Arguments Raise {A} e.
Arguments Blocked {A}.

Definition M (A : Type) : Type := St → outcome A * St.

Definition ret {A} (a : A) : M A := λ st, (Ok a, st).

Definition bind {A B} (c : M A) (k : A → M B) : M B :=
  λ st,
    match c st with
    | (Ok a, st') => k a st'
    | (Raise e, st') => (Raise e, st')
    | (Blocked, st') => (Blocked, st')
    end.

Definition raise {A} (e : exn) : M A := λ st, (Raise e, st).

(** A computation that does not touch the state. *)
Definition lift {A} (o : outcome A) : M A := λ st, (o, st).

Definition gets {A} (f : St → A) : M A := λ st, (Ok (f st), st).

Definition modify (f : St → St) : M unit := λ st, (Ok tt, f st).

(** The program is written with stdpp's monad notations [x ← c; k] and
    [c;; k]. *)
#[global] Instance M_ret : MRet M := @ret.
#[global] Instance M_bind : MBind M := λ A B k c, bind c k.

(** [for x in l: body] *)
Fixpoint for_ {A} (l : list A) (body : A → M unit) : M unit :=
  match l with
  | [] => ret tt
  | x :: l' => body x;; for_ l' body
  end.

(** [if b: c] *)
Definition when_ (b : bool) (c : M unit) : M unit :=
  if b then c else ret tt.

(** [d[k]] on a dictionary whose key may be absent. *)
Definition require {A} (o : option A) : M A :=
  match o with
  | Some a => ret a
  | None => raise KeyError
  end.

(** The state a call ends in and what it returns. *)
Definition run {A} (c : M A) (st : St) : St := (c st).2.
Definition result {A} (c : M A) (st : St) : outcome A := (c st).1.

(* ===================================================================== *)
(** ** Constants *)
(* ===================================================================== *)

Definition NAME : string := "gh-watch.py".
Definition TIMEOUT : Z := 10.
Definition RETRY : Z := 30.

Definition SEARCH_API_BASE : string := "https://api.github.com/search/".
Definition SEARCH_REPO_URL : string := SEARCH_API_BASE +:+ "repositories".
Definition SEARCH_CODE_URL : string := SEARCH_API_BASE +:+ "code".

Definition dquote : string := String (ascii_of_nat 34) EmptyString.
Definition newline : ascii := ascii_of_nat 10.

(** [SEARCH_CODE_QS_DICT['q']] *)
Definition SEARCH_CODE_Q : string :=
  "license OR copying OR copyright OR " +:+ dquote +:+ "public domain"
  +:+ dquote.

(** [README_URL], formatted with the record's [full_name] *)
Definition README_URL (r : Repo) : string :=
  "https://api.github.com/repos/" +:+ full_name r +:+ "/readme".

(** [RSS_URL_BASE.format(lang, period)] *)
Definition RSS_URL_BASE (lang period : string) : string :=
  "http://github-trends.ryotarai.info/rss/github_trends_" +:+ lang +:+ "_"
  +:+ period +:+ ".rss".

Definition CGHP_URL : string :=
  "https://www.reddit.com/r/coolgithubprojects/new/.json".

(** [CGHP_RE.match(s)], for
    [https://github\.com/([0-9a-zA-Z-]+)/([0-9a-zA-Z-]+).*]: the two groups.
    A slash is not in the character class, so the greedy first group is the
    longest run of class characters and must be followed by the slash; the
    trailing [.*] may match nothing, so the second group is the longest
    non-empty run after the slash. *)
Definition cghp_class (c : ascii) : bool :=
  Str.is_digit c || Str.is_lower c || Str.is_upper c || Ascii.eqb c "-".

Definition CGHP_RE_match (s : string) : option (string * string) :=
  match Str.strip_prefix "https://github.com/" s with
  | None => None
  | Some rest =>
      match Str.span cghp_class rest with
      | (String a g1, String slash rest') =>
          if Ascii.eqb slash "/" then
            match Str.span cghp_class rest' with
            | (String b g2, _) => Some (String a g1, String b g2)
            | (EmptyString, _) => None
            end
          else None
      | _ => None
      end
  end.

(* ===================================================================== *)
(** ** The outside world: clock, network, feed parser, keyboard *)
(* ===================================================================== *)

(** [time()] *)
Definition time : M Z := gets clock.

(** [sleep(s)]: a negative length raises [ValueError]. *)
Definition sleep (s : Z) : M unit :=
  if bool_decide (s < 0) then raise ValueError
  else modify (λ st, set_clock (clock st + s) (log_event (ESleep s) st)).

(** [requests.get(URL, ...)]: the request is issued at the current clock and
    answered by the next reply of the network; with no reply left the call
    never returns. *)
Definition requests_get (URL : string) (query : option string) : M Response :=
  λ st,
    let st1 := log_event (EGet URL query (clock st)) st in
    match net st with
    | [] => (Blocked, st1)
    | Answer r :: rest => (Ok r, set_net rest st1)
    | Fails e :: rest => (Raise e, set_net rest st1)
    end.

(** [r.raise_for_status()] of the requests library: [HTTPError] for a
    client (4xx) or server (5xx) error status, nothing otherwise. *)
Definition is_http_error (status : Z) : bool :=
  bool_decide (400 ≤ status) && bool_decide (status < 600).

Definition raise_for_status (r : Response) : M unit :=
  if is_http_error (status_code r) then raise (HTTPError (status_code r))
  else ret tt.

(** [r.json()] *)
Definition json (r : Response) : M Body :=
  match body r with
  | NotJSON => raise ValueError
  | b => ret b
  end.

(** [int(r.headers[name])] *)
Definition header_int (h : option Z) : M Z := require h.

(** [fp.parse(URL)].  The parser does not raise; it returns the entries. *)
Definition fp_parse (URL : string) : M (list Entry) :=
  λ st,
    let st1 := log_event (EParse URL) st in
    match feeds st with
    | [] => (Blocked, st1)
    | f :: rest => (Ok f, set_feeds rest st1)
    end.

(** [getch()] *)
Definition getch : M string :=
  λ st,
    match keys st with
    | [] => (Blocked, st)
    | k :: rest => (Ok k, set_keys rest st)
    end.

(** [try: c  except (requests.HTTPError, requests.Timeout): h] *)
Definition caught (e : exn) : bool :=
  match e with
  | HTTPError _ | RequestTimeout => true
  | _ => false
  end.

Definition try_except {A} (c : M A) (h : exn → M A) : M A :=
  λ st,
    match c st with
    | (Raise e, st') => if caught e then h e st' else (Raise e, st')
    | other => other
    end.

(* ===================================================================== *)
(** ** class Data *)
(* ===================================================================== *)

Definition PATH (o : store) : string :=
  match o with
  | Config => "~/.config"
  | Repos => "~/.local/share"
  | Cache => "/tmp"
  end.

(** [self.__class__.__name__.lower()] *)
Definition class_name_lower (o : store) : string :=
  match o with
  | Config => "config"
  | Repos => "repos"
  | Cache => "cache"
  end.

Definition DICT (o : store) : gmap string value :=
  match o with
  | Config =>
      <["cmd_readme" := VStr "less"]>
      (<["accept_languages" := VStrs ["All"]]>
      (<["filters_repo" := VStrs []]>
      (<["filters_description" := VStrs []]>
      (<["snooze_seconds" := VInt (7 * 86400)]> ∅))))
  | Repos => <["snooze" := VTimes ∅]> (<["zap" := VStrs []]> ∅)
  | Cache => <["repos" := VRepos ∅]> (<["fetches" := VTimes ∅]> ∅)
  end.

(** [Data.__init__]: the defaults, overridden key by key by the file when
    it exists. *)
Definition Data_init (o : store) : M unit :=
  modify (λ st,
    let filename := NAME +:+ "." +:+ class_name_lower o +:+ ".json" in
    let path := PATH o +:+ "/" +:+ filename in
    let loaded :=
      match files st !! path with
      | Some f => f ∪ DICT o
      | None => DICT o
      end in
    set_obj o (mkData path loaded false) st).

(** [Data.__getitem__] *)
Definition getitem (o : store) (k : string) : M value :=
  d ← gets (obj o); require (data d !! k).

(** [Data.__setitem__] *)
Definition setitem (o : store) (k : string) (v : value) : M unit :=
  modify (λ st,
    let d := obj o st in
    set_obj o (mkData (JSON d) (<[k := v]> (data d)) true) st).

(** [Data.__delitem__] *)
Definition delitem (o : store) (k : string) : M unit :=
  d ← gets (obj o);
  match data d !! k with
  | None => raise KeyError
  | Some _ =>
      modify (set_obj o (mkData (JSON d) (delete k (data d)) true))
  end.

(** [Data.__contains__] *)
Definition contains (o : store) (k : string) : M bool :=
  d ← gets (obj o); ret (bool_decide (is_Some (data d !! k))).

(** [Data.get(key, default)] *)
Definition get (o : store) (k : string) (dflt : value) : M value :=
  d ← gets (obj o); ret (default dflt (data d !! k)).

(** [self.updated = True] *)
Definition set_updated (o : store) : M unit :=
  modify (λ st,
    let d := obj o st in set_obj o (mkData (JSON d) (data d) true) st).

(** An in-place mutation of the object stored under [k] (a nested
    dictionary or list of [self.data]): the mapping now shows the mutated
    object, and the dirty flag is not touched. *)
Definition mutate (o : store) (k : string) (v : value) : M unit :=
  modify (λ st,
    let d := obj o st in
    set_obj o (mkData (JSON d) (<[k := v]> (data d)) (updated d)) st).

(** [Data.save] *)
Definition save (o : store) : M unit :=
  d ← gets (obj o);
  if negb (updated d) then ret tt
  else
    modify (λ st,
      set_obj o (mkData (JSON d) (data d) false)
        (log_event (ESave (JSON d))
           (set_files (<[JSON d := data d]> (files st)) st))).

(** Reading a stored value at the shape the program expects of it; another
    shape raises [TypeError]. *)
Definition as_int (v : value) : M Z :=
  match v with VInt n => ret n | _ => raise TypeError end.

Definition as_str (v : value) : M string :=
  match v with VStr s => ret s | _ => raise TypeError end.

Definition as_strs (v : value) : M (list string) :=
  match v with VStrs l => ret l | _ => raise TypeError end.

Definition as_times (v : value) : M (gmap string Z) :=
  match v with VTimes m => ret m | _ => raise TypeError end.

Definition as_repos (v : value) : M (gmap string Repo) :=
  match v with VRepos m => ret m | _ => raise TypeError end.

Definition as_rate_limit (v : value) : M RateLimit :=
  match v with VRateLimit rl => ret rl | _ => raise TypeError end.

Definition as_fetches (v : value) : M (list Fetch) :=
  match v with VFetches l => ret l | _ => raise TypeError end.

(* ===================================================================== *)
(** ** filter_repo *)
(* ===================================================================== *)

(** [filter_repo(r, config)]: truthy when a repo-name filter is found in the
    repo name or a description filter in a description that is not [None]. *)
Definition filter_repo (r : Repo) (st : St) : bool :=
  existsb (λ f, search f (repo r)) (filters_repo st)
  || existsb (λ f,
        match description r with
        | None => false
        | Some d => search f d
        end) (filters_description st).

(* ===================================================================== *)
(** ** class Repos: the snooze store and the zap list *)
(* ===================================================================== *)

(** [self['snooze']] and [self['zap']] of the [Repos] object *)
Definition snooze_dict : M (gmap string Z) :=
  v ← getitem Repos "snooze"; as_times v.

Definition zap_list : M (list string) :=
  v ← getitem Repos "zap"; as_strs v.

(** The body of the clean-up loop of [Repos.__init__]. *)
Definition expire (threshold : Z) (r : string) : M unit :=
  m ← snooze_dict;
  t ← require (m !! r);
  if bool_decide (threshold >= t) then
    set_updated Repos;;
    m ← snooze_dict;
    _ ← require (m !! r);
    mutate Repos "snooze" (VTimes (delete r m))
  else ret tt.

(** [Repos.__init__] *)
Definition Repos_init : M unit :=
  Data_init Repos;;
  now ← time;
  v ← getitem Config "snooze_seconds";
  snooze_seconds ← as_int v;
  let threshold := now - snooze_seconds in
  m ← snooze_dict;
  for_ (map_to_list m).*1 (expire threshold).

(** [Repos.__contains__] *)
Definition Repos_contains (item : string) : M bool :=
  s ← snooze_dict;
  if bool_decide (is_Some (s !! item)) then ret true
  else z ← zap_list; ret (bool_decide (item ∈ z)).

(** [Repos.snooze] *)
Definition snooze (fn : string) : M unit :=
  now ← time;
  m ← snooze_dict;
  mutate Repos "snooze" (VTimes (<[fn := now]> m));;
  set_updated Repos.

(** [Repos.zap] *)
Definition zap (fn : string) : M unit :=
  z ← zap_list;
  mutate Repos "zap" (VStrs (z ++ [fn]));;
  set_updated Repos.

(* ===================================================================== *)
(** ** class Cache *)
(* ===================================================================== *)

(** [self['repos']] and [self['fetches']] of the [Cache] object *)
Definition cache_repos : M (gmap string Repo) :=
  v ← getitem Cache "repos"; as_repos v.

Definition cache_fetches : M (gmap string Z) :=
  v ← getitem Cache "fetches"; as_times v.

(** [self.config['accept_languages']] *)
Definition accept_languages : M (list string) :=
  v ← getitem Config "accept_languages"; as_strs v.

(** The key of the rate-limit state of the class of [URL]. *)
Definition rl_type (URL : string) : string :=
  "api_rl_" +:+ (if Str.contains "/search/" URL then "search" else "general").

(** The gate of [gh_req]: with no quota left and the reset time ahead,
    sleep until the reset time. *)
Definition wait_for_reset (rl : RateLimit) : M unit :=
  when_ (bool_decide (remain rl = 0))
    (now ← time;
     when_ (bool_decide (now < reset rl))
       (now' ← time;
        sleep (reset rl - now'))).

(** [Cache.gh_req].  When the state of the class is stored, [rl] is the
    stored dictionary itself and the two assignments to its entries mutate
    the store at once; otherwise [rl] is a fresh dictionary that reaches the
    store only with [self[rl_type] = rl]. *)
Definition gh_req (URL : string) (raise_error : bool) (query : option string)
  : M Response :=
  let rl_type := rl_type URL in
  stored ← contains Cache rl_type;
  v ← get Cache rl_type (VRateLimit (mkRateLimit 1 0));
  rl ← as_rate_limit v;
  wait_for_reset rl;;
  r ← requests_get URL query;
  remaining ← header_int (x_ratelimit_remaining r);
  let rl := mkRateLimit remaining (reset rl) in
  when_ stored (mutate Cache rl_type (VRateLimit rl));;
  reset_at ← header_int (x_ratelimit_reset r);
  let rl := mkRateLimit (remain rl) reset_at in
  when_ stored (mutate Cache rl_type (VRateLimit rl));;
  setitem Cache rl_type (VRateLimit rl);;
  when_ raise_error (raise_for_status r);;
  ret r.

(** The last three statements of the loop bodies of the fetch routines:
    [self['repos'][fn] = repo; self.updated = True]. *)
Definition add_to_cache (r : Repo) : M unit :=
  m ← cache_repos;
  mutate Cache "repos" (VRepos (<[full_name r := r]> m));;
  set_updated Cache.

(** [fn in self['repos'] or fn in self.repos] *)
Definition known (fn : string) : M bool :=
  m ← cache_repos;
  if bool_decide (is_Some (m !! fn)) then ret true else Repos_contains fn.

(** ['All' not in langs and lang not in langs] *)
Definition lang_rejected (langs : list string) (lang : option string) : bool :=
  bool_decide ("All" ∉ langs)
  && match lang with
     | Some l => bool_decide (l ∉ langs)
     | None => true
     end.

(** The record [fetch_search] builds from an item of the result. *)
Definition search_record (r : SearchItem) : Repo :=
  {| full_name := i_full_name r;
     user := i_owner_login r;
     repo := i_name r;
     language := i_language r;
     stargazers_count := i_stargazers_count r;
     forks_count := i_forks_count r;
     html_url := i_html_url r;
     homepage := i_homepage r;
     description := i_description r;
     license := None |}.

(** The body of the loop of [fetch_search]. *)
Definition search_item (langs : list string) (r : SearchItem) : M unit :=
  let repo := search_record r in
  let fn := i_full_name r in
  filtered ← gets (filter_repo repo);
  if (filtered : bool) then ret tt
  else
    k ← known fn;
    if (k : bool) then ret tt
    else if lang_rejected langs (i_language r) then ret tt
    else add_to_cache repo.

(** [Cache.fetch_search] *)
Definition fetch_search (fetch : Fetch) : M unit :=
  query ← require (q fetch);
  r ← gh_req SEARCH_REPO_URL true (Some query);
  resp ← json r;
  match resp with
  | SearchResult _ items =>
      langs ← accept_languages;
      for_ items (search_item langs)
  | _ => raise KeyError
  end.

(** The record [fetch_trend_lang] builds from a feed entry: the title is
    cut at its first space into the full name and a rest, the language is
    the second piece of the rest cut at [" - "], and the full name is cut at
    its slash into user and repo.  A title of another shape raises. *)
Definition trend_record (r : Entry) : outcome Repo :=
  match Str.split1 " " (e_title r) with
  | [fn; lang] =>
      let desc :=
        match e_description r with
        | Some d => Str.rstrip newline d
        | None => EmptyString
        end in
      match Str.split " - " lang !! 1%nat with
      | None => Raise IndexError
      | Some lang =>
          match Str.split "/" fn with
          | [user; repo] =>
              Ok {| full_name := fn;
                    user := user;
                    repo := repo;
                    language := Some lang;
                    stargazers_count := -1;
                    forks_count := -1;
                    html_url := e_link r;
                    homepage := None;
                    description := Some desc;
                    license := None |}
          | _ => Raise ValueError
          end
      end
  | _ => Raise ValueError
  end.

(** The body of the loop of [fetch_trend_lang]. *)
Definition trend_entry (r : Entry) : M unit :=
  repo ← lift (trend_record r);
  filtered ← gets (filter_repo repo);
  if (filtered : bool) then ret tt
  else
    k ← known (full_name repo);
    if (k : bool) then ret tt else add_to_cache repo.

(** [Cache.fetch_trend_lang] *)
Definition fetch_trend_lang (lang period : string) : M unit :=
  let RSS_URL := RSS_URL_BASE lang period in
  entries ← fp_parse RSS_URL;
  for_ entries trend_entry.

(** The language name as [fetch_trend] puts it in the feed URL. *)
Definition normalize_lang (lang : string) : string :=
  let lang := if decide (lang = EmptyString) then "Unknown" else lang in
  Str.replace "c++" "cpp" (Str.lower lang).

(** [Cache.fetch_trend] *)
Definition fetch_trend (fetch : Fetch) : M unit :=
  langs ← require (languages fetch);
  langs ← match langs with
           | LangString s =>
               if decide (s = "accept_languages") then accept_languages
               else ret (Str.chars s)
           | LangList l => ret l
           end;
  for_ langs (λ lang,
    period ← require (period fetch);
    fetch_trend_lang (normalize_lang lang) period).

(** The record [fetch_cghp] builds from a child whose URL matched. *)
Definition cghp_record (r : Child) (user repo flair : string) : Repo :=
  {| full_name := user +:+ "/" +:+ repo;
     user := user;
     repo := repo;
     language := Some (Str.title (Str.replace "CPP" "C++" flair));
     stargazers_count := -2;
     forks_count := -2;
     html_url := url r;
     homepage := None;
     description := Some (c_title r);
     license := None |}.

(** The body of the second loop of [fetch_cghp]. *)
Definition cghp_child (langs : list string) (r : Child) : M unit :=
  match CGHP_RE_match (url r) with
  | None => ret tt
  | Some (user, repo) =>
      flair ← match link_flair_text r with
              | Some f => ret f
              | None => raise AttributeError
              end;
      let repo := cghp_record r user repo flair in
      filtered ← gets (filter_repo repo);
      if (filtered : bool) then ret tt
      else
        k ← known (full_name repo);
        if (k : bool) then ret tt
        else if lang_rejected langs (language repo) then ret tt
        else add_to_cache repo
  end.

(** A turn of the first loop of [fetch_cghp], the [try] statement: the
    listing when the turn leaves the loop, nothing when it goes around
    again after the delay. *)
Definition cghp_attempt : M (option Body) :=
  try_except
    (r ← requests_get CGHP_URL None;
     resp ← json r;
     match resp with
     | ApiError _ _ => sleep RETRY;; ret None
     | _ => ret (Some resp)
     end)
    (λ _, sleep RETRY;; ret None).

(** The first loop of [fetch_cghp], [while True].  Every turn that goes
    around again has consumed a reply of the network, so [n] turns are
    enough when [n] exceeds the number of replies left. *)
Fixpoint cghp_poll (n : nat) : M Body :=
  match n with
  | O => λ st, (Blocked, st)
  | S n' =>
      o ← cghp_attempt;
      match o with
      | Some resp => ret resp
      | None => cghp_poll n'
      end
  end.

(** [Cache.fetch_cghp] *)
Definition fetch_cghp (fetch : Fetch) : M unit :=
  left ← gets (λ st, length (net st));
  resp ← cghp_poll (S left);
  match resp with
  | Listing children =>
      langs ← accept_languages;
      for_ children (cghp_child langs)
  | _ => raise KeyError
  end.

(** [self['fetches'][fetch['key']] = time(); self.updated = True] *)
Definition stamp (fetch : Fetch) : M unit :=
  now ← time;
  m ← cache_fetches;
  mutate Cache "fetches" (VTimes (<[key fetch := now]> m));;
  set_updated Cache.

(** The body of the loop of [Cache.fetch]. *)
Definition fetch_source (fetch : Fetch) : M unit :=
  m ← cache_fetches;
  let t := m !! key fetch in
  now ← time;
  let threshold := now - interval fetch in
  if match t with
     | Some t => bool_decide (threshold < t)
     | None => false
     end
  then ret tt
  else if decide (type fetch = "search") then fetch_search fetch;; stamp fetch
  else if decide (type fetch = "trend") then fetch_trend fetch;; stamp fetch
  else if decide (type fetch = "r/coolgithubprojects")
       then fetch_cghp fetch;; stamp fetch
  else ret tt.

(** [Cache.fetch] *)
Definition fetch : M unit :=
  v ← getitem Config "fetches";
  fetches ← as_fetches v;
  for_ fetches fetch_source.

(* ===================================================================== *)
(** ** check_license *)
(* ===================================================================== *)

(** [check_license(r, cache)] *)
Definition check_license (r : Repo) : M bool :=
  let fn := full_name r in
  let query := SEARCH_CODE_Q +:+ " repo:" +:+ fn in
  resp ← gh_req SEARCH_CODE_URL true (Some query);
  j ← json resp;
  match j with
  | SearchResult total_count _ => ret (bool_decide (total_count > 0))
  | _ => raise KeyError
  end.

(* ===================================================================== *)
(** ** main: the review loop *)
(* ===================================================================== *)

Record Args := mkArgs {
  debug : bool;
  force : bool;
  force_all : bool;
  check : bool;
}.

(** [sorted(l)] on strings (ordered by code point, which is the order of
    their bytes). *)
Fixpoint insert_sorted (x : string) (l : list string) : list string :=
  match l with
  | [] => [x]
  | y :: l' => if String.leb x y then x :: l else y :: insert_sorted x l'
  end.

Definition sorted (l : list string) : list string := foldr insert_sorted [] l.

(** [r = cache['repos'][fn]]: [r] is the record object held by the cache, read
    here at its current content. *)
Definition cached (fn : string) : M Repo :=
  m ← cache_repos; require (m !! fn).

(** [del cache['repos'][fn]] *)
Definition del_cached (fn : string) : M unit :=
  m ← cache_repos;
  _ ← require (m !! fn);
  mutate Cache "repos" (VRepos (delete fn m)).

(** [r['license'] = v] on the record object held by the cache under [fn] *)
Definition set_license (fn : string) (v : option bool) : M unit :=
  m ← cache_repos;
  r ← require (m !! fn);
  let r' := mkRepo (full_name r) (user r) (repo r) (language r)
                   (stargazers_count r) (forks_count r) (html_url r)
                   (homepage r) (description r) (Some v) in
  mutate Cache "repos" (VRepos (<[fn := r']> m)).

(** The [while True] loop around [check_license].  A turn that is retried
    has consumed a reply of the network. *)
Fixpoint license_poll (n : nat) (fn : string) : M unit :=
  match n with
  | O => λ st, (Blocked, st)
  | S n' =>
      try_except
        (r ← cached fn;
         b ← check_license r;
         set_license fn (Some b);;
         set_updated Cache)
        (λ _, sleep RETRY;; license_poll n' fn)
  end.

(** The license step of the loop body, entered when the record has no
    [license] key; it returns whether the record goes on to be shown. *)
Definition license_step (fn : string) : M bool :=
  set_license fn None;;
  left ← gets (λ st, length (net st));
  license_poll (S left) fn;;
  r ← cached fn;
  match license r with
  | Some (Some true) => ret true
  | _ =>
      snooze fn;;
      del_cached fn;;
      set_updated Cache;;
      ret false
  end.

(** [print_repo(r)].  The second line formats the language as a string,
    which raises [TypeError] on [None]; [EPrintRepo] stands for the whole
    output. *)
Definition print_repo (r : Repo) : M unit :=
  match language r with
  | None => raise TypeError
  | Some _ => modify (log_event (EPrintRepo (full_name r)))
  end.

(** The truth value of [r['homepage']]: neither [None] nor empty. *)
Definition truthy (o : option string) : bool :=
  match o with
  | Some s => negb (bool_decide (s = EmptyString))
  | None => false
  end.

(** How a turn of the prompt loop ends. *)
Inductive control := Next | Quit.

(** The [[r]eadme] answer.  It gives the new value of the local variable
    [cmd], which the statement leaves alone on its two [continue]s. *)
Definition readme (r : Repo) (cmd : option string) : M (option string) :=
  resp ← gh_req (README_URL r) false None;
  if bool_decide (status_code resp = 404) then ret cmd
  else
    raise_for_status resp;;
    j ← json resp;
    match j with
    | Readme encoding content name =>
        if decide (encoding = "base64") then
          dflt ← getitem Config "cmd_readme";
          c ← (if decide (Str.lower name = "readme.md")
               then get Config "cmd_readme_md" dflt
               else ret dflt);
          c ← as_str c;
          modify (log_event (EPopen c content));;
          ret (Some c)
        else ret cmd
    | _ => raise KeyError
    end.

(** The prompt loop of a shown record.  Every turn reads a key. *)
Fixpoint prompt (n : nat) (fn : string) (r : Repo) (cmd : option string)
  : M (option string * control) :=
  match n with
  | O => λ st, (Blocked, st)
  | S n' =>
      modify (log_event (EPrompt fn));;
      ans ← getch;
      if decide (ans = "z") then
        zap fn;; del_cached fn;; set_updated Cache;; ret (cmd, Next)
      else if decide (ans = "s") then
        snooze fn;; del_cached fn;; set_updated Cache;; ret (cmd, Next)
      else if decide (ans = "r") then
        cmd ← readme r cmd; prompt n' fn r cmd
      else if decide (ans = "c") then
        v ← getitem Config "cmd_url";
        c ← as_str v;
        modify (log_event (EPopen c (html_url r)));;
        prompt n' fn r (Some c)
      else if bool_decide (ans = "h") && truthy (homepage r) then
        c ← match cmd with
            | Some c => ret c
            | None => raise NameError
            end;
        modify (log_event (EPopen c (default EmptyString (homepage r))));;
        prompt n' fn r cmd
      else if decide (ans = " ") then ret (cmd, Next)
      else if decide (ans = "q") then
        save Cache;; save Repos;; ret (cmd, Quit)
      else prompt n' fn r cmd
  end.

(** The body of the loop of [main] for the name [fn]. *)
Definition review (args : Args) (fn : string) (cmd : option string)
  : M (option string * control) :=
  r ← cached fn;
  filtered ← gets (filter_repo r);
  if (filtered : bool) then
    del_cached fn;; set_updated Cache;; ret (cmd, Next)
  else
    shown ← match license r with
            | None => license_step fn
            | Some _ => ret true
            end;
    if (shown : bool) then
      r ← cached fn;
      print_repo r;;
      if check args then ret (cmd, Next)
      else
        left ← gets (λ st, length (keys st));
        prompt (S left) fn r cmd
    else ret (cmd, Next).

(** The loop of [main] over the sorted names. *)
Fixpoint review_all (args : Args) (fns : list string) (cmd : option string)
  : M control :=
  match fns with
  | [] => ret Next
  | fn :: rest =>
      '(cmd, c) ← review args fn cmd;
      match c with
      | Quit => ret Quit
      | Next => review_all args rest cmd
      end
  end.

(** [main], after the three stores were constructed. *)
Definition main (args : Args) : M unit :=
  (if force args then fetch
   else if force_all args then
     _ ← cache_fetches;
     mutate Cache "fetches" (VTimes ∅);;
     fetch
   else
     m ← cache_repos;
     when_ (bool_decide (m = ∅)) fetch);;
  m ← cache_repos;
  c ← review_all args (sorted (map_to_list m).*1) None;
  match c with
  | Quit => ret tt
  | Next => save Cache;; save Repos
  end.

(* ===================================================================== *)
(** ** Vocabulary of the statements: reading the stores *)
(* ===================================================================== *)

(** The pending cache, the snooze store and the zap list of a state; a
    store that does not hold them reads as empty. *)
Definition pending (st : St) : gmap string Repo :=
  match data (cache st) !! "repos" with
  | Some (VRepos m) => m
  | _ => ∅
  end.

Definition snoozed (st : St) : gmap string Z :=
  match data (repos st) !! "snooze" with
  | Some (VTimes m) => m
  | _ => ∅
  end.

Definition zapped (st : St) : list string :=
  match data (repos st) !! "zap" with
  | Some (VStrs l) => l
  | _ => []
  end.

(** The last-fetch timestamps. *)
Definition fetched (st : St) : gmap string Z :=
  match data (cache st) !! "fetches" with
  | Some (VTimes m) => m
  | _ => ∅
  end.

(** A name is on the watchlist when it is snoozed or zapped. *)
Definition watched (st : St) (fn : string) : Prop :=
  is_Some (snoozed st !! fn) ∨ fn ∈ zapped st.

(** The mapping [Data.__init__] gives the object of a store. *)
Definition loaded (o : store) (st : St) : gmap string value :=
  data (obj o (run (Data_init o) st)).

(** Two states with the same trace: nothing observable happened between
    them. *)
Definition same_trace (st st' : St) : Prop := trace st' = trace st.

(** *** The rate-limited request *)

(** The rate-limit state [gh_req] reads for [URL]: the stored one, or the
    default when none is stored. *)
Definition rate_limit_state (st : St) (URL : string) : option RateLimit :=
  match data (cache st) !! rl_type URL with
  | None => Some (mkRateLimit 1 0)
  | Some (VRateLimit rl) => Some rl
  | Some _ => None
  end.

(** The state [gh_req] leaves when the network answered with both
    rate-limit headers. *)
Definition answered (st : St) (URL : string) (query : option string)
    (rl : RateLimit) (rest : list Reply) (remaining reset_at : Z) : St :=
  let waits := bool_decide (remain rl = 0 ∧ clock st < reset rl) in
  let issued := if waits then reset rl else clock st in
  mkSt issued rest (feeds st) (keys st)
    (trace st ++ (if waits then [ESleep (reset rl - clock st)] else [])
       ++ [EGet URL query issued])
    (files st) (config st) (filters_repo st) (filters_description st)
    (repos st)
    (mkData (JSON (cache st))
       (<[rl_type URL := VRateLimit (mkRateLimit remaining reset_at)]>
          (data (cache st)))
       true).

(** *** Snooze expiry *)

(** The state after the snooze store was replaced by [m] in place. *)
Definition with_snooze (m : gmap string Z) (flag : bool) (st : St) : St :=
  set_repos (mkData (JSON (repos st))
               (<["snooze" := VTimes m]> (data (repos st))) flag) st.

(** The snooze entries left when the names of [l] were examined against
    the threshold [th]. *)
Definition survivors (th : Z) (l : list string) (m : gmap string Z)
  (fn : string) : option Z :=
  match m !! fn with
  | Some t => if bool_decide (fn ∈ l ∧ th >= t) then None else Some t
  | None => None
  end.

(** *** The fetch routines *)

(** The languages a trend source iterates over. *)
Definition trend_langs (st : St) (fetch : Fetch) : option (list string) :=
  match languages fetch with
  | Some (LangList l) => Some l
  | Some (LangString s) =>
      if decide (s = "accept_languages") then
        match data (config st) !! "accept_languages" with
        | Some (VStrs l) => Some l
        | _ => None
        end
      else Some (Str.chars s)
  | None => None
  end.

(** The request [fetch_trend] makes for a configured language. *)
Definition trend_request (period lang : string) : Event :=
  EParse (RSS_URL_BASE (normalize_lang lang) period).

(** What a fetch routine may do to the stores: it leaves the configuration,
    the watchlist and the last-fetch timestamps alone, and every name of
    the pending cache either keeps what it had or is a name that was
    neither pending nor on the watchlist and now holds a record of that
    full name. *)
Definition fetch_effect (st st' : St) : Prop :=
  config st' = config st
  ∧ filters_repo st' = filters_repo st
  ∧ filters_description st' = filters_description st
  ∧ repos st' = repos st
  ∧ data (cache st') !! "fetches" = data (cache st) !! "fetches"
  ∧ ∀ fn,
      pending st' !! fn = pending st !! fn
      ∨ (pending st !! fn = None ∧ ¬ watched st fn
         ∧ ∃ r, pending st' !! fn = Some r ∧ full_name r = fn).

(** The state after the pending cache was replaced by [m] in place and the
    dirty flag set. *)
Definition with_pending (m : gmap string Repo) (st : St) : St :=
  set_cache (mkData (JSON (cache st))
               (<["repos" := VRepos m]> (data (cache st))) true) st.

(** The part the three loop bodies share once the record is built:
    the filter, the already-known test, the language test when the routine
    has one ([rejected]), and the addition. *)
Definition consider (repo : Repo) (rejected : bool) : M unit :=
  filtered ← gets (filter_repo repo);
  if (filtered : bool) then ret tt
  else
    k ← known (full_name repo);
    if (k : bool) then ret tt
    else if rejected then ret tt
    else add_to_cache repo.

(** The claim on the fetch routines, between the state [st] a routine
    starts in and the state [st'] it ends in: the watchlist is untouched; a
    name that was pending, snoozed or zapped keeps in the pending cache
    exactly what it had (its record when it was pending, nothing when it was
    not); a record that is new in the pending cache is stored under its own
    full name; and if no pending name was on the watchlist before, none is
    after. *)
Definition never_readds (st st' : St) : Prop :=
  repos st' = repos st
  ∧ (∀ fn, is_Some (pending st !! fn) ∨ watched st fn →
           pending st' !! fn = pending st !! fn)
  ∧ (∀ fn r, pending st' !! fn = Some r →
             pending st !! fn = Some r ∨ full_name r = fn)
  ∧ ((∀ fn, is_Some (pending st !! fn) → ¬ watched st fn) →
     ∀ fn, is_Some (pending st' !! fn) → ¬ watched st' fn).

(** The routine [Cache.fetch] dispatches a source to, by its [type]; none
    for a type it does not know. *)
Definition routine (fetch : Fetch) : option (M unit) :=
  if decide (type fetch = "search") then Some (fetch_search fetch)
  else if decide (type fetch = "trend") then Some (fetch_trend fetch)
  else if decide (type fetch = "r/coolgithubprojects")
       then Some (fetch_cghp fetch)
  else None.

(** A source is due when it was never fetched, or when [now] minus its
    interval has reached its last-fetch time. *)
Definition due (m : gmap string Z) (now : Z) (fetch : Fetch) : Prop :=
  match m !! key fetch with
  | Some t => now - interval fetch >= t
  | None => True
  end.

(** The language test in the words of the specification: the language is
    in the accept list or the list contains [All]. *)
Definition lang_accepted (langs : list string) (lang : option string) : bool :=
  bool_decide ("All" ∈ langs)
  || match lang with
     | Some l => bool_decide (l ∈ langs)
     | None => false
     end.

(** The three checks on a record, with [m] the pending cache at the moment
    the record is considered: no filter matches, the name is not known, the
    language is accepted ([lang_ok]). *)
Definition passes (st : St) (m : gmap string Repo) (repo : Repo)
    (lang_ok : bool) : bool :=
  negb (filter_repo repo st)
  && negb (bool_decide (is_Some (m !! full_name repo))
           || bool_decide (is_Some (snoozed st !! full_name repo))
           || bool_decide (full_name repo ∈ zapped st))
  && lang_ok.

(** The pending cache after a record was considered. *)
Definition add_if_passes (st : St) (m : gmap string Repo) (repo : Repo)
    (lang_ok : bool) : gmap string Repo :=
  if passes st m repo lang_ok then <[full_name repo := repo]> m else m.

(** The checks of a search result that do not depend on the cache. *)
Definition acceptable (st : St) (langs : list string) (r : SearchItem) : bool :=
  negb (filter_repo (search_record r) st)
  && lang_accepted langs (i_language r).

(** The stores and filters a fetch routine reads but does not change. *)
Definition same_context (st st' : St) : Prop :=
  config st' = config st
  ∧ filters_repo st' = filters_repo st
  ∧ filters_description st' = filters_description st
  ∧ repos st' = repos st.

(** The first item of the result with full name [fn] that no filter matches
    and whose language is accepted. *)
Definition first_acceptable (st : St) (langs : list string) (fn : string)
    (items : list SearchItem) : option SearchItem :=
  find (λ r, bool_decide (i_full_name r = fn) && acceptable st langs r) items.

(** The pending cache after a feed entry was considered: the language test
    is not among the checks. *)
Definition add_entry (st : St) (m : gmap string Repo) (r : Entry)
  : gmap string Repo :=
  match trend_record r with
  | Ok repo => add_if_passes st m repo true
  | _ => m
  end.

(** *** The license check *)

(** The record [r] with its [license] entry set to [v]. *)
Definition with_license (r : Repo) (v : option bool) : Repo :=
  mkRepo (full_name r) (user r) (repo r) (language r) (stargazers_count r)
         (forks_count r) (html_url r) (homepage r) (description r) (Some v).

(** The state after the pending cache was mutated in place to [m]; the
    dirty flag is as it was. *)
Definition poke_pending (m : gmap string Repo) (st : St) : St :=
  set_cache (mkData (JSON (cache st))
               (<["repos" := VRepos m]> (data (cache st)))
               (updated (cache st))) st.

(** The query of the license check of [r]. *)
Definition license_query (r : Repo) : option string :=
  Some (SEARCH_CODE_Q +:+ " repo:" +:+ full_name r).

(** A request of the license check: a request to the code search. *)
Definition license_query_event (e : Event) : Prop :=
  ∃ query t, e = EGet SEARCH_CODE_URL query t.

(** Between two states no license check was requested. *)
Definition no_license_query (st st' : St) : Prop :=
  ∃ evs, trace st' = trace st ++ evs
         ∧ Forall (λ e, ¬ license_query_event e) evs.

(* ===================================================================== *)
(** ** Example runs *)
(* ===================================================================== *)

(** A filter pattern without metacharacters: it is found in a string when
    it occurs in it. *)
Definition literal (p : string) : Pattern := mkPattern p (Str.contains p).

(** A store object as [Data.__init__] leaves it when its file is absent. *)
Definition fresh (o : store) : Data :=
  mkData (PATH o +:+ "/" +:+ NAME +:+ "." +:+ class_name_lower o +:+ ".json")
         (DICT o) false.

(** A run that starts at clock 1000 with no file, no filter and a silent
    outside world. *)
Definition st_fresh : St :=
  mkSt 1000 [] [] [] [] ∅ (fresh Config) [] [] (fresh Repos) (fresh Cache).

(** The search class of the API has no quota left until clock 1500. *)
Definition st_limited : St :=
  set_cache
    (mkData (JSON (fresh Cache))
       (<["api_rl_search" := VRateLimit (mkRateLimit 0 1500)]> (DICT Cache))
       true)
    st_fresh.

Definition ok_response (b : Body) : Response :=
  mkResponse 200 (Some 29) (Some 1060) b.





Definition example_repo : Repo :=
  mkRepo "octo/tool" "octo" "tool" (Some "Python") 12 3
         "https://github.com/octo/tool" None (Some "a tool") None.

(** A watchlist file with an old and a recent snooze entry, read at clock
    1000000. *)
Definition snooze_file : gmap string value :=
  <["snooze" := VTimes (<["old/x" := 100]> (<["new/y" := 900000]> ∅))]> ∅.

Definition st_snoozed : St :=
  set_clock 1000000
    (set_files (<[JSON (fresh Repos) := snooze_file]> ∅) st_fresh).

(** Two trend feeds will answer with no entry. *)
Definition st_two_feeds : St := set_feeds [[]; []] st_fresh.

Definition trend_source : Fetch :=
  mkFetch "trend-daily" 86400 "trend" None None None
          (Some (LangList ["C++"; EmptyString])) (Some "daily").

(** A search answered with two repositories, the name of the first of which
    the configured repo-name filter matches. *)
Definition item_dotfiles : SearchItem :=
  mkSearchItem "alice/dotfiles" "alice" "dotfiles" (Some "Shell") 900 40
               "https://github.com/alice/dotfiles" None (Some "my dotfiles").

Definition item_tool : SearchItem :=
  mkSearchItem "bob/tool" "bob" "tool" (Some "Rust") 750 12
               "https://github.com/bob/tool" None (Some "a tool").

Definition search_reply : Response :=
  ok_response (SearchResult 2 [item_dotfiles; item_tool]).

Definition search_source : Fetch :=
  mkFetch "stars" 3600 "search" (Some "stars:>500") None None None None.

Definition st_search : St :=
  mkSt 1000 [Answer search_reply] [] [] [] ∅ (fresh Config)
       [literal "dotfiles"] [] (fresh Repos) (fresh Cache).

(** A trend feed with one entry, whose language is not among the accepted
    languages [["Python"]] of the configuration. *)
Definition trend_feed_entry : Entry :=
  mkEntry "carol/engine (Haskell) - Haskell - daily"
          (Some "an engine") "https://github.com/carol/engine".

Definition st_python_only : St :=
  set_feeds [[trend_feed_entry]]
    (set_config
       (mkData (JSON (fresh Config))
          (<["accept_languages" := VStrs ["Python"]]> (DICT Config)) false)
       st_fresh).

Definition engine_record : Repo :=
  mkRepo "carol/engine" "carol" "engine" (Some "Haskell") (-1) (-1)
         "https://github.com/carol/engine" None (Some "an engine") None.

(** A pending repository without a [license] entry, and a code search that
    will answer with no match. *)
Definition no_match_reply : Response := ok_response (SearchResult 0 []).

Definition st_unlicensed : St :=
  mkSt 1000 [Answer no_match_reply] [] [] [] ∅ (fresh Config) [] []
       (fresh Repos)
       (mkData (JSON (fresh Cache))
          (<["repos" := VRepos {[ "octo/tool" := example_repo ]}]>
             (DICT Cache)) false).

Definition interactive : Args := mkArgs false false false false.

(* ===================================================================== *)
(** ** Vocabulary and example data of the further properties *)
(* ===================================================================== *)


(** The state after the zap list was replaced by [l] in place and the dirty
    flag set. *)
Definition with_zap (l : list string) (st : St) : St :=
  set_repos (mkData (JSON (repos st))
               (<["zap" := VStrs l]> (data (repos st))) true) st.

(** The state [gh_req] is in when the request has been issued, after the
    gate: the stores are as they were. *)
Definition requested (st : St) (URL : string) (query : option string)
    (rl : RateLimit) (rest : list Reply) : St :=
  let waits := bool_decide (remain rl = 0 ∧ clock st < reset rl) in
  let issued := if waits then reset rl else clock st in
  mkSt issued rest (feeds st) (keys st)
    (trace st ++ (if waits then [ESleep (reset rl - clock st)] else [])
       ++ [EGet URL query issued])
    (files st) (config st) (filters_repo st) (filters_description st)
    (repos st) (cache st).

(** A reply after which the loop of [fetch_cghp] goes around again: an
    exception its [try] statement catches, or a JSON body with an [error]
    entry. *)
Definition retried (x : Reply) : bool :=
  match x with
  | Fails e => caught e
  | Answer r =>
      match body r with
      | ApiError _ _ => true
      | _ => false
      end
  end.

(** The events of [k] attempts that are each followed by the delay, the
    first at clock [t]. *)
Fixpoint attempts (URL : string) (query : option string) (t : Z) (k : nat)
  : list Event :=
  match k with
  | O => []
  | S k' => EGet URL query t :: ESleep RETRY :: attempts URL query (t + RETRY) k'
  end.

(** The state after [k] such attempts at the listing and one more request,
    with [rest] the replies then left: the stores are as they were. *)
Definition polled (st : St) (k : nat) (rest : list Reply) : St :=
  let t := clock st + RETRY * Z.of_nat k in
  mkSt t rest (feeds st) (keys st)
    (trace st ++ attempts CGHP_URL None (clock st) k ++ [EGet CGHP_URL None t])
    (files st) (config st) (filters_repo st) (filters_description st)
    (repos st) (cache st).

(** The social feed is asked three times: a time-out, an error body, then a
    listing with one project. *)
Definition cghp_source : Fetch :=
  mkFetch "cghp" 3600 "r/coolgithubprojects" None None None None None.

Definition too_many_requests : Response :=
  mkResponse 429 None None (ApiError "429" "Too Many Requests").

Definition fast_lib : Child :=
  mkChild (Some "CPP") "https://github.com/dave/fast-lib/tree/master"
          "a fast library".

Definition st_flaky : St :=
  set_net [Fails RequestTimeout; Answer too_many_requests;
           Answer (mkResponse 200 None None (Listing [fast_lib]))]
    st_fresh.

(** [c in s] for a character. *)
Fixpoint occurs (c : ascii) (s : string) : bool :=
  match s with
  | EmptyString => false
  | String a s' => Ascii.eqb a c || occurs c s'
  end.

(** The pieces [ps] after a first piece, each behind the separator [c]. *)
Definition join_after (c : ascii) (ps : list string) : string :=
  foldr (λ x acc, String c (x +:+ acc)) EmptyString ps.

(** A reading [f] of the state that a call leaves as it was. *)
Definition unchanged {A} (f : St → A) (st st' : St) : Prop := f st' = f st.

(** A feed whose second entry has a title without a space. *)
Definition st_broken_feed : St :=
  set_feeds [[trend_feed_entry; mkEntry "no-space-here" None "x"]] st_fresh.

(** Every character of [s] satisfies [P]. *)
Fixpoint all_chars (P : ascii → bool) (s : string) : bool :=
  match s with
  | EmptyString => true
  | String c s' => P c && all_chars P s'
  end.

(** [s] is not empty and its first character satisfies [P]. *)
Definition starts_with (P : ascii → bool) (s : string) : bool :=
  match s with
  | EmptyString => false
  | String c _ => P c
  end.

(** A name as the pattern [CGHP_RE] captures it: a non-empty run of
    letters, digits and hyphens. *)
Definition cghp_name (s : string) : bool :=
  negb (bool_decide (s = EmptyString)) && all_chars cghp_class s.

(** A pending record whose license was found and whose language the search
    did not give. *)
Definition no_language : Repo :=
  mkRepo "eve/notes" "eve" "notes" None 5 0 "https://github.com/eve/notes"
         None None (Some (Some true)).

Definition st_no_language : St :=
  with_pending {[ "eve/notes" := no_language ]} st_fresh.

(** A pending record with its license found, and the keys the user will
    press. *)
Definition licensed_repo : Repo := with_license example_repo (Some true).

Definition st_prompt (ks : list string) : St :=
  set_keys ks (with_pending {[ "octo/tool" := licensed_repo ]} st_fresh).

(** The record of [st_prompt] with a homepage. *)
Definition with_homepage : Repo :=
  mkRepo "octo/tool" "octo" "tool" (Some "Python") 12 3
         "https://github.com/octo/tool" (Some "https://octo.example")
         (Some "a tool") (Some (Some true)).


(** What a run that reads no key leaves alone: the keys still to come, and
    a trace without a prompt. *)
Definition no_prompt (st st' : St) : Prop :=
  keys st' = keys st
  ∧ ∃ evs, trace st' = trace st ++ evs
           ∧ Forall (λ e, ∀ fn, e ≠ EPrompt fn) evs.

(** The arguments of a run with [--check]. *)
Definition checking : Args := mkArgs false false false true.

(** A reply on which the license loop of [main] goes around again: an
    exception its [try] statement catches, or a response with both
    rate-limit headers and an error status. *)
Definition license_retried (x : Reply) : bool :=
  match x with
  | Fails e => caught e
  | Answer r =>
      bool_decide (is_Some (x_ratelimit_remaining r))
      && bool_decide (is_Some (x_ratelimit_reset r))
      && is_http_error (status_code r)
  end.

(** What a turn of the license loop that is retried, and the loop as a
    whole, leave alone. *)
Definition retry_frame (st st' : St) : Prop :=
  data (cache st') !! "repos" = data (cache st) !! "repos"
  ∧ repos st' = repos st ∧ config st' = config st
  ∧ filters_repo st' = filters_repo st
  ∧ filters_description st' = filters_description st
  ∧ keys st' = keys st ∧ files st' = files st.

(** The license check of [st_unlicensed] meets a time-out, then a refusal
    that announces an exhausted quota until clock 1200, then the answer. *)
Definition quota_exhausted : Response :=
  mkResponse 403 (Some 0) (Some 1200) NotJSON.

Definition st_throttled : St :=
  set_net [Fails RequestTimeout; Answer quota_exhausted;
           Answer no_match_reply] st_unlicensed.

(** The server answers the request for the README of [example_repo]. *)
Definition readme_reply : Response :=
  ok_response (Readme "base64" "IyB0b29sCg==" "README.md").

(** [x <= y] on strings, as [sorted] compares them. *)
Definition str_le (x y : string) : Prop := String.leb x y = true.

(** The state after the records of the names [l] were printed in turn. *)
Definition printed (l : list string) (st : St) : St :=
  foldl (λ s fn, log_event (EPrintRepo fn) s) st l.

(** A record that needs nothing but to be shown: it is stored under its
    full name, no filter matches it, its license is settled and it has a
    language. *)
Definition settled (st : St) (fn : string) (r : Repo) : Prop :=
  full_name r = fn ∧ filter_repo r st = false
  ∧ is_Some (license r) ∧ is_Some (language r).

(** Two settled records, held under names that are not in order of
    insertion. *)
Definition abe_lib : Repo :=
  mkRepo "abe/lib" "abe" "lib" (Some "C") 40 2 "https://github.com/abe/lib"
         None (Some "a library") (Some (Some true)).

Definition st_two_settled : St :=
  with_pending (<["octo/tool" := licensed_repo]> {[ "abe/lib" := abe_lib ]})
    st_fresh.

(** The entry of [r] in the snooze store [m] has reached the age at which
    it expires: its time is not after the threshold [th]. *)
Definition expired (th : Z) (m : gmap string Z) (r : string) : bool :=
  match m !! r with
  | Some t => bool_decide (th >= t)
  | None => false
  end.

(* ===================================================================== *)
(** * Properties *)
(* ===================================================================== *)

(** ** The string functions on examples *)

Example lower_ex : Str.lower "C++ Sharp" = "c++ sharp".
Proof. reflexivity. Qed.

Example title_ex : Str.title "objective-c pLUS 3d" = "Objective-C Plus 3D".
Proof. reflexivity. Qed.

Example replace_ex : Str.replace "c++" "cpp" "c++/c++c+" = "cpp/cppc+".
Proof. reflexivity. Qed.

Example split_ex :
  Str.split " - " "a - b -  - c" = ["a"; "b"; EmptyString; "c"]
  ∧ Str.split "/" "a//b" = ["a"; EmptyString; "b"]
  ∧ Str.split "/" EmptyString = [EmptyString].
Proof. repeat split; reflexivity. Qed.

Example split1_ex :
  Str.split1 " " "a b c" = ["a"; "b c"] ∧ Str.split1 " " "abc" = ["abc"].
Proof. split; reflexivity. Qed.

Example rstrip_ex :
  let nl := String newline EmptyString in
  Str.rstrip newline ("a" +:+ nl +:+ "b" +:+ nl +:+ nl) = "a" +:+ nl +:+ "b".
Proof. reflexivity. Qed.

Example CGHP_RE_match_ex :
  CGHP_RE_match "https://github.com/foo-1/bar/tree/master"
  = Some ("foo-1", "bar")
  ∧ CGHP_RE_match "https://gitlab.com/foo/bar" = None
  ∧ CGHP_RE_match "https://github.com/foo" = None.
Proof. repeat split; reflexivity. Qed.

Example trend_record_ex :
  trend_record (mkEntry "carol/engine (Haskell) - Haskell - daily" None
                        "https://github.com/carol/engine")
  = Ok (mkRepo "carol/engine" "carol" "engine" (Some "Haskell") (-1) (-1)
               "https://github.com/carol/engine" None (Some EmptyString)
               None)
  ∧ trend_record (mkEntry "no-space" None "x") = Raise ValueError
  ∧ trend_record (mkEntry "a/b nodash" None "x") = Raise IndexError
  ∧ trend_record (mkEntry "a/b/c x - y" None "x") = Raise ValueError.
Proof. repeat split; reflexivity. Qed.

(** The social feed: a child whose URL is not a repository URL is skipped
    and the run goes on with the next child. *)
Example fetch_cghp_ex :
  let children :=
    [mkChild (Some "CPP") "https://example.org/post" "a post";
     mkChild (Some "CPP") "https://github.com/dave/fast-lib" "a library"] in
  let st := set_net [Answer (mkResponse 200 None None (Listing children))]
              st_fresh in
  let source := mkFetch "cghp" 3600 "r/coolgithubprojects" None None None
                        None None in
  result (fetch_cghp source) st = Ok tt
  ∧ language <$> pending (run (fetch_cghp source) st) !! "dave/fast-lib"
    = Some (Some "C++")
  ∧ size (pending (run (fetch_cghp source) st)) = 1%nat.
Proof. vm_compute. repeat split; reflexivity. Qed.

Ltac unfold_m :=
  unfold mbind, M_bind, bind, mret, M_ret, ret, raise, gets, modify, when_,
    require in *.

Ltac unfold_st :=
  unfold set_cache, set_repos, set_config, set_net, set_feeds, set_keys,
    set_files, log_event, set_clock in *.

(** ** Running the monad *)

Lemma bind_ok {A B} (c : M A) (k : A → M B) st a st' :
  c st = (Ok a, st') → (c ≫= k) st = k a st'.
Proof. intros H. unfold mbind, M_bind, bind. by rewrite H. Qed.

Lemma bind_raise {A B} (c : M A) (k : A → M B) st e st' :
  c st = (Raise e, st') → (c ≫= k) st = (Raise e, st').
Proof. intros H. unfold mbind, M_bind, bind. by rewrite H. Qed.

Lemma bind_blocked {A B} (c : M A) (k : A → M B) st st' :
  c st = (Blocked, st') → (c ≫= k) st = (Blocked, st').
Proof. intros H. unfold mbind, M_bind, bind. by rewrite H. Qed.

Lemma run_bind_ok {A B} (c : M A) (k : A → M B) st a st' :
  c st = (Ok a, st') → run (c ≫= k) st = run (k a) st'.
Proof. intros H. unfold run. by rewrite (bind_ok _ _ _ _ _ H). Qed.

Lemma run_bind {A B} (c : M A) (k : A → M B) st :
  run (c ≫= k) st
  = match result c st with
    | Ok a => run (k a) (run c st)
    | _ => run c st
    end.
Proof.
  unfold run, result, mbind, M_bind, bind.
  by destruct (c st) as [[]].
Qed.

Lemma result_bind {A B} (c : M A) (k : A → M B) st :
  result (c ≫= k) st
  = match result c st with
    | Ok a => result (k a) (run c st)
    | Raise e => Raise e
    | Blocked => Blocked
    end.
Proof.
  unfold run, result, mbind, M_bind, bind.
  by destruct (c st) as [[]].
Qed.

(** A relation between the state a call starts in and the state it ends
    in, whatever its outcome. *)
Definition preserved {A} (R : St → St → Prop) (c : M A) : Prop :=
  ∀ st, R st (run c st).

Section Preserved.
Context (R : St → St → Prop) `{!Reflexive R} `{!Transitive R}.

Lemma preserved_ret {A} (a : A) : preserved R (mret a).
Proof. intros st. apply reflexivity. Qed.

Lemma preserved_ret' {A} (a : A) : preserved R (ret a).
Proof. intros st. apply reflexivity. Qed.

Lemma preserved_raise {A} e : preserved R (raise e : M A).
Proof. intros st. apply reflexivity. Qed.

Lemma preserved_lift {A} (o : outcome A) : preserved R (lift o).
Proof. intros st. apply reflexivity. Qed.

Lemma preserved_gets {A} (f : St → A) : preserved R (gets f).
Proof. intros st. apply reflexivity. Qed.

Lemma preserved_require {A} (o : option A) : preserved R (require o).
Proof. intros st. destruct o; apply reflexivity. Qed.

Lemma preserved_modify f : (∀ st, R st (f st)) → preserved R (modify f).
Proof. intros H st. apply H. Qed.

Lemma preserved_bind {A B} (c : M A) (k : A → M B) :
  preserved R c → (∀ a, preserved R (k a)) → preserved R (c ≫= k).
Proof.
  intros Hc Hk st. rewrite run_bind.
  destruct (result c st); [|apply Hc..].
  etrans; [apply Hc|apply Hk].
Qed.

Lemma preserved_when b c : preserved R c → preserved R (when_ b c).
Proof. intros Hc. destruct b; [done|]. intros st. apply reflexivity. Qed.

Lemma preserved_for {A} (l : list A) body :
  (∀ x, preserved R (body x)) → preserved R (for_ l body).
Proof.
  intros Hb. induction l as [|x l IH]; cbn [for_].
  - apply preserved_ret'.
  - apply preserved_bind; [apply Hb|done].
Qed.

Lemma preserved_try_except {A} (c : M A) h :
  preserved R c → (∀ e, preserved R (h e)) → preserved R (try_except c h).
Proof.
  intros Hc Hh st. unfold run, try_except.
  specialize (Hc st). unfold run in Hc.
  destruct (c st) as [[a|e|] st1]; cbn [snd] in *; try done.
  destruct (caught e); [|done].
  etrans; [exact Hc|apply Hh].
Qed.

Lemma preserved_blocked {A} : preserved R (λ st, (Blocked, st) : outcome A * St).
Proof. intros st. apply reflexivity. Qed.

End Preserved.

(** Structural steps of a [preserved] goal; what remains are the state
    changes of the call. *)
Ltac preserve_rule :=
  lazymatch goal with
  | |- preserved _ (@mbind _ _ _ _ _ _) => apply preserved_bind
  | |- preserved _ (@mret _ _ _ _) => apply preserved_ret
  | |- preserved _ (ret _) => apply preserved_ret'
  | |- preserved _ (raise _) => apply preserved_raise
  | |- preserved _ (lift _) => apply preserved_lift
  | |- preserved _ (gets _) => apply preserved_gets
  | |- preserved _ (require _) => apply preserved_require
  | |- preserved _ (when_ _ _) => apply preserved_when
  | |- preserved _ (for_ _ _) => apply preserved_for
  | |- preserved _ (try_except _ _) => apply preserved_try_except
  | |- preserved _ (modify _) => apply preserved_modify
  | |- preserved _ (match ?x with _ => _ end) => destruct x
  end.

Ltac preserve_step := preserve_rule; try exact _; intros.

Ltac unfold_ops :=
  unfold getitem, get, contains, setitem, mutate, set_updated, delitem,
    as_int, as_str, as_strs, as_times, as_repos, as_rate_limit, as_fetches,
    header_int, time, json, raise_for_status, snooze_dict, zap_list,
    cache_repos, cache_fetches, accept_languages.

Ltac preserve := repeat first [preserve_step | progress unfold_ops].

(** ** The rate-limited request *)

Lemma wait_for_reset_eq rl st :
  wait_for_reset rl st =
  (Ok tt,
   if bool_decide (remain rl = 0 ∧ clock st < reset rl)
   then set_clock (reset rl) (log_event (ESleep (reset rl - clock st)) st)
   else st).
Proof.
  unfold wait_for_reset, time, sleep. unfold_m.
  destruct (decide (remain rl = 0)) as [H0|H0].
  - rewrite (bool_decide_eq_true_2 _ H0).
    destruct (decide (clock st < reset rl)) as [Hlt|Hlt].
    + rewrite (bool_decide_eq_true_2 _ Hlt).
      rewrite (bool_decide_eq_false_2 (reset rl - clock st < 0)) by lia.
      rewrite bool_decide_eq_true_2 by done. simpl.
      by replace (clock st + (reset rl - clock st)) with (reset rl) by lia.
    + rewrite (bool_decide_eq_false_2 _ Hlt).
      rewrite bool_decide_eq_false_2; [done|]. intros [_ ?]; done.
  - rewrite (bool_decide_eq_false_2 _ H0).
    rewrite bool_decide_eq_false_2; [done|]. intros [? _]; done.
Qed.

Lemma rate_limit_state_default st URL rl :
  rate_limit_state st URL = Some rl →
  default (VRateLimit (mkRateLimit 1 0)) (data (cache st) !! rl_type URL)
  = VRateLimit rl.
Proof.
  unfold rate_limit_state.
  destruct (data (cache st) !! rl_type URL) as [[]|]; naive_solver.
Qed.

Lemma gh_req_answered st URL raise_error query rl r rest remaining reset_at :
  rate_limit_state st URL = Some rl →
  net st = Answer r :: rest →
  x_ratelimit_remaining r = Some remaining →
  x_ratelimit_reset r = Some reset_at →
  gh_req URL raise_error query st
  = (if raise_error && is_http_error (status_code r)
     then Raise (HTTPError (status_code r)) else Ok r,
     answered st URL query rl rest remaining reset_at).
Proof.
  intros Hrl%rate_limit_state_default Hnet Hrem Hrst.
  unfold gh_req.
  erewrite bind_ok; [|reflexivity].
  erewrite bind_ok; [|reflexivity].
  change (obj Cache st) with (cache st). rewrite Hrl.
  erewrite bind_ok; [|reflexivity].
  erewrite bind_ok; [|apply wait_for_reset_eq].
  set (st1 := if bool_decide (remain rl = 0 ∧ clock st < reset rl) then _ else _).
  assert (net st1 = net st) as Hn1 by (subst st1; by destruct (bool_decide _)).
  erewrite bind_ok; [|unfold requests_get; rewrite Hn1, Hnet; reflexivity].
  rewrite Hrem. erewrite bind_ok; [|reflexivity].
  set (stored := bool_decide (is_Some (data (cache st) !! rl_type URL))).
  set (st2 := set_net rest (log_event (EGet URL query (clock st1)) st1)).
  assert (cache st1 = cache st) as Hc1.
  { subst st1. by destruct (bool_decide _). }
  assert (cache st2 = cache st) as Hc2 by done.
  set (d1 := mkData (JSON (cache st))
     (<[rl_type URL := VRateLimit (mkRateLimit remaining (reset rl))]>
        (data (cache st))) (updated (cache st))).
  erewrite (bind_ok _ _ _ tt (if stored then set_cache d1 st2 else st2)).
  2:{ unfold when_, mutate, modify. destruct stored; [|done].
      cbn [obj set_obj]. by rewrite Hc2. }
  rewrite Hrst. erewrite bind_ok; [|reflexivity].
  set (v := VRateLimit _).
  set (d2 := mkData (JSON (cache st)) (<[rl_type URL := v]> (data (cache st)))
     true).
  erewrite (bind_ok _ _ _ tt (if stored then _ else _)).
  2:{ unfold when_. destruct stored; reflexivity. }
  erewrite (bind_ok _ _ _ tt (set_cache d2 st2)).
  2:{ unfold setitem, modify, mutate. f_equal.
      destruct stored; cbn [obj set_obj]; unfold set_cache; cbn;
        rewrite ?Hc2, ?Hc1; subst d2; cbn; by rewrite ?insert_insert_eq. }
  assert (set_cache d2 st2 = answered st URL query rl rest remaining reset_at)
    as ->.
  { subst d2 st2 st1 v. unfold answered.
    destruct (bool_decide (remain rl = 0 ∧ clock st < reset rl)); unfold_st;
      cbn; rewrite <- ?app_assoc; f_equal. }
  unfold when_, raise_for_status.
  destruct raise_error; [destruct (is_http_error _)|]; reflexivity.
Qed.


#[global] Instance same_trace_refl : Reflexive same_trace.
Proof. by intros st. Qed.
#[global] Instance same_trace_trans : Transitive same_trace.
Proof. unfold same_trace. intros ??? H1 H2. by rewrite H2. Qed.

(** After the request, [gh_req] has no observable effect. *)
Lemma gh_req_after_request_trace URL stored rl raise_error r :
  preserved same_trace
    (remaining ← header_int (x_ratelimit_remaining r);
     when_ stored
       (mutate Cache (rl_type URL)
          (VRateLimit (mkRateLimit remaining (reset rl))));;
     reset_at ← header_int (x_ratelimit_reset r);
     when_ stored
       (mutate Cache (rl_type URL)
          (VRateLimit
             (mkRateLimit (remain (mkRateLimit remaining (reset rl)))
                reset_at)));;
     setitem Cache (rl_type URL)
       (VRateLimit
          (mkRateLimit (remain (mkRateLimit remaining (reset rl)))
             reset_at));;
     when_ raise_error (raise_for_status r);;
     ret r).
Proof. preserve; by unfold same_trace. Qed.

(** Whatever the network does, [gh_req] logs the request after the gate
    and nothing else. *)
Lemma gh_req_trace st URL raise_error query rl :
  rate_limit_state st URL = Some rl →
  trace (run (gh_req URL raise_error query) st)
  = trace st
    ++ (if bool_decide (remain rl = 0 ∧ clock st < reset rl)
        then [ESleep (reset rl - clock st); EGet URL query (reset rl)]
        else [EGet URL query (clock st)]).
Proof.
  intros Hd%rate_limit_state_default.
  unfold gh_req.
  erewrite run_bind_ok; [|reflexivity].
  erewrite run_bind_ok; [|reflexivity].
  change (obj Cache st) with (cache st). rewrite Hd.
  erewrite run_bind_ok; [|reflexivity].
  erewrite run_bind_ok; [|apply wait_for_reset_eq].
  set (st1 := if bool_decide _ then _ else _).
  assert (trace (log_event (EGet URL query (clock st1)) st1) = trace st
      ++ (if bool_decide (remain rl = 0 ∧ clock st < reset rl)
        then [ESleep (reset rl - clock st); EGet URL query (reset rl)]
        else [EGet URL query (clock st)])) as <-.
  { subst st1. destruct (bool_decide _); unfold_st; cbn; [|done].
    by rewrite <- app_assoc. }
  rewrite run_bind. unfold result, run at 2 3 4, requests_get.
  destruct (net st1) as [|[r|e] rest]; cbn [fst snd]; try done.
  exact (gh_req_after_request_trace URL _ rl raise_error r
           (set_net rest (log_event (EGet URL query (clock st1)) st1))).
Qed.

(** C2: in the state where the class of the URL has no quota left and its
    reset time is ahead of the clock, [gh_req] sleeps for the time left and
    issues the request at the reset time; in every other state it issues
    the request at once, without sleeping.  The class is chosen by the
    substring [/search/] of the URL. *)
Theorem gh_req_waits_for_reset st URL raise_error query rl :
  rate_limit_state st URL = Some rl →
  let st' := run (gh_req URL raise_error query) st in
  rl_type URL = (if Str.contains "/search/" URL
                 then "api_rl_search" else "api_rl_general")
  ∧ (remain rl = 0 ∧ clock st < reset rl →
     trace st' = trace st
       ++ [ESleep (reset rl - clock st); EGet URL query (reset rl)])
  ∧ (¬ (remain rl = 0 ∧ clock st < reset rl) →
     trace st' = trace st ++ [EGet URL query (clock st)]).
Proof.
  intros Hrl st'. subst st'. rewrite (gh_req_trace _ _ _ _ _ Hrl).
  split; [|split].
  - unfold rl_type. by destruct (Str.contains _ _).
  - intros H. by rewrite bool_decide_eq_true_2.
  - intros H. by rewrite bool_decide_eq_false_2.
Qed.

Lemma gh_req_waits_for_reset_witness :
  rate_limit_state st_limited SEARCH_CODE_URL = Some (mkRateLimit 0 1500)
  ∧ trace (run (gh_req SEARCH_CODE_URL true None) st_limited)
    = [ESleep 500; EGet SEARCH_CODE_URL None 1500].
Proof.
  split; [reflexivity|].
  apply (gh_req_waits_for_reset st_limited SEARCH_CODE_URL true None
           (mkRateLimit 0 1500) eq_refl).
  split; [reflexivity|]. cbn. lia.
Defined.

Lemma is_http_error_spec status :
  is_http_error status = true ↔ 400 ≤ status < 600.
Proof.
  unfold is_http_error.
  rewrite andb_true_iff, !bool_decide_eq_true. lia.
Qed.





(** ** class Data *)

Lemma obj_set_obj o d st : obj o (set_obj o d st) = d.
Proof. by destruct o. Qed.

Lemma save_clean o st :
  updated (obj o st) = false → save o st = (Ok tt, st).
Proof.
  intros H. unfold save. erewrite bind_ok; [|reflexivity]. by rewrite H.
Qed.

Lemma save_dirty o st :
  updated (obj o st) = true →
  save o st
  = (Ok tt,
     set_obj o (mkData (JSON (obj o st)) (data (obj o st)) false)
       (log_event (ESave (JSON (obj o st)))
          (set_files (<[JSON (obj o st) := data (obj o st)]> (files st)) st))).
Proof.
  intros H. unfold save. erewrite bind_ok; [|reflexivity]. by rewrite H.
Qed.

Lemma save_ok o st : save o st = (Ok tt, run (save o) st).
Proof.
  unfold run. destruct (updated (obj o st)) eqn:Hu.
  - by rewrite (save_dirty _ _ Hu).
  - by rewrite (save_clean _ _ Hu).
Qed.

(** C3: for each of the three stores, [save] does nothing when the dirty
    flag is clear; when it is set it writes the whole mapping to the file of
    the store and clears the flag; so a second [save] right after a first
    one does nothing, and two in a row write the file at most once.
    [__setitem__] returns, stores the value and sets the flag.
    [__delitem__] on a key the mapping holds returns, removes the key and
    sets the flag; on a key it does not hold it raises [KeyError] and
    changes nothing, the flag included. *)
Theorem save_twice_writes_once (o : store) (st : St) :
  let st1 := run (save o) st in
  (updated (obj o st) = false → save o st = (Ok tt, st))
  ∧ (updated (obj o st) = true →
     result (save o) st = Ok tt
     ∧ files st1 = <[JSON (obj o st) := data (obj o st)]> (files st)
     ∧ trace st1 = trace st ++ [ESave (JSON (obj o st))]
     ∧ data (obj o st1) = data (obj o st)
     ∧ updated (obj o st1) = false)
  ∧ save o st1 = (Ok tt, st1)
  ∧ trace (run (save o;; save o) st)
    = trace st ++ (if updated (obj o st) then [ESave (JSON (obj o st))] else [])
  ∧ (∀ k v, updated (obj o (run (setitem o k v) st)) = true)
  ∧ (∀ k, result (delitem o k) st = Ok tt →
          updated (obj o (run (delitem o k) st)) = true)
  ∧ (∀ k v, result (setitem o k v) st = Ok tt
            ∧ data (obj o (run (setitem o k v) st))
              = <[k := v]> (data (obj o st)))
  ∧ (∀ k, is_Some (data (obj o st) !! k) →
          result (delitem o k) st = Ok tt
          ∧ updated (obj o (run (delitem o k) st)) = true
          ∧ data (obj o (run (delitem o k) st)) = delete k (data (obj o st)))
  ∧ (∀ k, data (obj o st) !! k = None →
          delitem o k st = (Raise KeyError, st)).
Proof.
  intros st1. subst st1.
  assert (updated (obj o (run (save o) st)) = false) as Hclean.
  { destruct (updated (obj o st)) eqn:Hu; unfold run.
    - rewrite (save_dirty _ _ Hu). cbn [snd]. by rewrite obj_set_obj.
    - by rewrite (save_clean _ _ Hu). }
  split; [apply save_clean|].
  split; [|split; [|split; [|split; [|split; [|split; [|split]]]]]].
  - intros Hu. unfold run, result. rewrite (save_dirty _ _ Hu). cbn [fst snd].
    rewrite obj_set_obj. by destruct o.
  - by apply save_clean.
  - erewrite run_bind_ok; [|apply save_ok].
    unfold run at 1.
    rewrite (save_clean _ _ Hclean). cbn [snd].
    destruct (updated (obj o st)) eqn:Hu; unfold run.
    + rewrite (save_dirty _ _ Hu). by destruct o.
    + rewrite (save_clean _ _ Hu). by rewrite app_nil_r.
  - intros k v. unfold run, setitem, modify. cbn [snd]. by rewrite obj_set_obj.
  - intros k. unfold result, run, delitem.
    unfold mbind, M_bind, bind, gets. 
    destruct (data (obj o st) !! k); [|done].
    intros _. unfold modify. cbn [snd]. by rewrite obj_set_obj.
  - intros k v. unfold result, run, setitem, modify. cbn [fst snd].
    by rewrite obj_set_obj.
  - intros k [v Hk]. unfold result, run, delitem.
    unfold mbind, M_bind, bind, gets. rewrite Hk.
    unfold modify. cbn [fst snd]. by rewrite obj_set_obj.
  - intros k Hk. unfold delitem.
    unfold mbind, M_bind, bind, gets. by rewrite Hk.
Qed.

Lemma save_twice_writes_once_witness :
  result (delitem Cache "fetches") st_fresh = Ok tt
  ∧ updated (cache (run (delitem Cache "fetches") st_fresh)) = true
  ∧ trace (run (save Cache;; save Cache)
             (run (delitem Cache "fetches") st_fresh))
    = [ESave (JSON (fresh Cache))].
Proof.
  destruct (save_twice_writes_once Cache st_fresh)
    as (_ & _ & _ & _ & _ & _ & _ & Hdel & _).
  destruct (Hdel "fetches") as (Hret & Hflag & _); [by eexists|].
  destruct (save_twice_writes_once Cache
              (run (delitem Cache "fetches") st_fresh))
    as (_ & _ & _ & Htwice & _).
  split; [exact Hret|]. split; [exact Hflag|].
  rewrite Htwice, Hflag. reflexivity.
Defined.

(** ** class Repos: snooze expiry *)

Lemma getitem_eq o k st v :
  data (obj o st) !! k = Some v → getitem o k st = (Ok v, st).
Proof.
  intros H. unfold getitem. erewrite bind_ok; [|reflexivity]. by rewrite H.
Qed.

Lemma snooze_dict_eq st m :
  data (repos st) !! "snooze" = Some (VTimes m) → snooze_dict st = (Ok m, st).
Proof.
  intros H. unfold snooze_dict.
  by erewrite bind_ok; [|by apply getitem_eq].
Qed.

Lemma zap_list_eq st z :
  data (repos st) !! "zap" = Some (VStrs z) → zap_list st = (Ok z, st).
Proof.
  intros H. unfold zap_list.
  by erewrite bind_ok; [|by apply getitem_eq].
Qed.

Lemma cache_repos_eq st m :
  data (cache st) !! "repos" = Some (VRepos m) → cache_repos st = (Ok m, st).
Proof.
  intros H. unfold cache_repos.
  by erewrite bind_ok; [|by apply getitem_eq].
Qed.

Lemma cache_fetches_eq st m :
  data (cache st) !! "fetches" = Some (VTimes m) →
  cache_fetches st = (Ok m, st).
Proof.
  intros H. unfold cache_fetches.
  by erewrite bind_ok; [|by apply getitem_eq].
Qed.

Lemma accept_languages_eq st langs :
  data (config st) !! "accept_languages" = Some (VStrs langs) →
  accept_languages st = (Ok langs, st).
Proof.
  intros H. unfold accept_languages.
  by erewrite bind_ok; [|by apply getitem_eq].
Qed.

Lemma expire_eq th r st m t :
  data (repos st) !! "snooze" = Some (VTimes m) →
  m !! r = Some t →
  expire th r st
  = (Ok tt, if bool_decide (th >= t) then with_snooze (delete r m) true st
            else st).
Proof.
  intros Hs Hr. unfold expire.
  erewrite bind_ok; [|by apply snooze_dict_eq].
  rewrite Hr. erewrite bind_ok; [|reflexivity].
  destruct (bool_decide (th >= t)); [|reflexivity].
  erewrite bind_ok; [|reflexivity].
  erewrite bind_ok; [|by apply snooze_dict_eq].
  rewrite Hr. erewrite bind_ok; [|reflexivity].
  reflexivity.
Qed.

Lemma with_snooze_id st m :
  data (repos st) !! "snooze" = Some (VTimes m) →
  with_snooze m (updated (repos st)) st = st.
Proof.
  intros H. unfold with_snooze. rewrite (insert_id _ _ _ H).
  destruct st as [? ? ? ? ? ? ? ? ? []]. reflexivity.
Qed.

Lemma with_snooze_twice st m1 f1 m2 f2 :
  with_snooze m2 f2 (with_snooze m1 f1 st) = with_snooze m2 f2 st.
Proof.
  unfold with_snooze, set_repos. cbn. by rewrite insert_insert_eq.
Qed.

Lemma with_snooze_lookup st m f :
  data (repos (with_snooze m f st)) !! "snooze" = Some (VTimes m).
Proof. unfold with_snooze. cbn. apply lookup_insert_eq. Qed.

Lemma for_expire th l : ∀ st m,
  NoDup l →
  data (repos st) !! "snooze" = Some (VTimes m) →
  (∀ r, r ∈ l → is_Some (m !! r)) →
  ∃ m' (flag : bool),
    for_ l (expire th) st = (Ok tt, with_snooze m' flag st)
    ∧ ∀ fn, m' !! fn = survivors th l m fn.
Proof.
  induction l as [|r l IH]; intros st m Hnd Hs Hin.
  - exists m, (updated (repos st)). rewrite (with_snooze_id _ _ Hs).
    split; [done|].
    intros fn. unfold survivors. destruct (m !! fn); [|done].
    rewrite bool_decide_eq_false_2; [done|].
    intros [H _]. by apply elem_of_nil in H.
  - apply NoDup_cons in Hnd as [Hr Hnd].
    destruct (Hin r) as [t Ht]; [left|].
    cbn [for_]. erewrite bind_ok; [|by eapply expire_eq].
    destruct (decide (th >= t)) as [Hexp|Hexp].
    + rewrite (bool_decide_eq_true_2 _ Hexp).
      destruct (IH (with_snooze (delete r m) true st) (delete r m) Hnd)
        as (m' & flag & Hrun & Hm').
      { apply with_snooze_lookup. }
      { intros r' Hr'. rewrite lookup_delete_ne by (intros ->; done).
        apply Hin. by right. }
      exists m', flag. rewrite Hrun, with_snooze_twice. split; [done|].
      intros fn. rewrite Hm'. unfold survivors.
      destruct (decide (fn = r)) as [->|Hne].
      * rewrite lookup_delete_eq, Ht.
        rewrite bool_decide_eq_true_2; [done|]. split; [left|done].
      * rewrite lookup_delete_ne by done.
        destruct (m !! fn) as [t'|]; [|done].
        apply (f_equal (λ b : bool, if b then None else Some t')).
        apply bool_decide_ext. rewrite elem_of_cons. tauto.
    + rewrite (bool_decide_eq_false_2 _ Hexp).
      destruct (IH st m Hnd Hs) as (m' & flag & Hrun & Hm').
      { intros r' Hr'. apply Hin. by right. }
      exists m', flag. split; [done|].
      intros fn. rewrite Hm'. unfold survivors.
      destruct (m !! fn) as [t'|] eqn:Hfn; [|done].
      apply (f_equal (λ b : bool, if b then None else Some t')).
      apply bool_decide_ext. rewrite elem_of_cons.
      split; [tauto|]. intros [[->|?] ?]; [|done].
      rewrite Ht in Hfn. injection Hfn as ->. done.
Qed.

Lemma survivors_all th (m : gmap string Z) fn :
  survivors th (map_to_list m).*1 m fn
  = match m !! fn with
    | Some t => if bool_decide (th >= t) then None else Some t
    | None => None
    end.
Proof.
  unfold survivors. destruct (m !! fn) as [t|] eqn:Hfn; [|done].
  apply (f_equal (λ b : bool, if b then None else Some t)).
  apply bool_decide_ext. split; [tauto|]. intros Hth. split; [|done].
  apply list_elem_of_fmap. exists (fn, t). split; [done|].
  by apply elem_of_map_to_list.
Qed.

(** What [Repos.__init__] does: it loads the store and drops the expired
    snooze entries in place. *)
Lemma Repos_init_eq st S m :
  data (config st) !! "snooze_seconds" = Some (VInt S) →
  loaded Repos st !! "snooze" = Some (VTimes m) →
  ∃ m' flag,
    Repos_init st
    = (Ok tt, with_snooze m' flag (run (Data_init Repos) st))
    ∧ ∀ fn, m' !! fn
          = match m !! fn with
            | Some t => if bool_decide (clock st - S >= t) then None else Some t
            | None => None
            end.
Proof.
  intros HS Hm. unfold Repos_init.
  erewrite bind_ok; [|reflexivity].
  change ((modify _ st).2) with (run (Data_init Repos) st).
  set (st0 := run (Data_init Repos) st).
  erewrite bind_ok; [|reflexivity].
  erewrite bind_ok; [|by apply getitem_eq].
  erewrite bind_ok; [|reflexivity].
  erewrite bind_ok; [|by apply snooze_dict_eq].
  destruct (for_expire (clock st0 - S) (map_to_list m).*1 st0 m)
    as (m' & flag & Hrun & Hm'); [apply NoDup_fst_map_to_list|exact Hm|..].
  { intros r [[r' t] [-> Hr]]%list_elem_of_fmap.
    apply elem_of_map_to_list in Hr. by exists t. }
  exists m', flag. split; [exact Hrun|].
  intros fn. rewrite Hm'. apply survivors_all.
Qed.

(** C4: [Repos.__init__] with snooze duration [S] deletes every loaded
    snooze entry whose age [now - snoozed_at] is at least [S], after which
    the name is on the watchlist only if it is zapped, and keeps every entry
    of a smaller age as it is; it adds no entry and leaves the zap list
    alone. *)
Theorem snooze_expiry st S m :
  data (config st) !! "snooze_seconds" = Some (VInt S) →
  loaded Repos st !! "snooze" = Some (VTimes m) →
  let st' := run Repos_init st in
  result Repos_init st = Ok tt
  ∧ (∀ fn t, m !! fn = Some t → clock st - t >= S →
       snoozed st' !! fn = None ∧ (watched st' fn ↔ fn ∈ zapped st'))
  ∧ (∀ fn t, m !! fn = Some t → clock st - t < S →
       snoozed st' !! fn = Some t)
  ∧ (∀ fn, m !! fn = None → snoozed st' !! fn = None)
  ∧ data (repos st') !! "zap" = loaded Repos st !! "zap".
Proof.
  intros HS Hm st'. subst st'.
  destruct (Repos_init_eq _ _ _ HS Hm) as (m' & flag & Hrun & Hm').
  assert (run Repos_init st
          = with_snooze m' flag (run (Data_init Repos) st)) as ->.
  { unfold run at 1. by rewrite Hrun. }
  unfold result. rewrite Hrun. cbn [fst].
  assert (snoozed (with_snooze m' flag (run (Data_init Repos) st)) = m')
    as Hsn.
  { unfold snoozed. by rewrite with_snooze_lookup. }
  rewrite Hsn. split; [done|]. split; [|split; [|split]].
  - intros fn t Hfn Hage.
    assert (m' !! fn = None) as Hnone.
    { rewrite Hm', Hfn. rewrite bool_decide_eq_true_2; [done|lia]. }
    split; [done|]. unfold watched. rewrite Hsn, Hnone.
    split; [|tauto]. intros [[? [=]]|?]; done.
  - intros fn t Hfn Hage. rewrite Hm', Hfn.
    rewrite bool_decide_eq_false_2; [done|lia].
  - intros fn Hfn. by rewrite Hm', Hfn.
  - unfold with_snooze. cbn. by rewrite lookup_insert_ne.
Qed.

Lemma snooze_expiry_witness :
  snoozed (run Repos_init st_snoozed) !! "old/x" = None
  ∧ snoozed (run Repos_init st_snoozed) !! "new/y" = Some 900000.
Proof.
  pose proof (snooze_expiry st_snoozed (7 * 86400)
                (<["old/x" := 100]> (<["new/y" := 900000]> ∅))
                eq_refl eq_refl) as (_ & Hold & Hnew & _).
  split.
  - apply (Hold "old/x" 100); [reflexivity|cbn; lia].
  - apply (Hnew "new/y" 900000); [reflexivity|cbn; lia].
Defined.

(** ** The trend source *)

Ltac unfold_fetch :=
  unfold search_item, trend_entry, cghp_child, known,
    Repos_contains, add_to_cache, stamp.

Lemma trend_entry_same_trace r : preserved same_trace (trend_entry r).
Proof. unfold_fetch. preserve; by unfold same_trace. Qed.

Lemma fetch_trend_lang_trace lang period st :
  trace (run (fetch_trend_lang lang period) st)
  = trace st ++ [EParse (RSS_URL_BASE lang period)].
Proof.
  unfold fetch_trend_lang.
  destruct (feeds st) as [|entries rest] eqn:Hf.
  - unfold run. erewrite bind_blocked; [|unfold fp_parse; by rewrite Hf].
    reflexivity.
  - erewrite run_bind_ok; [|unfold fp_parse; by rewrite Hf].
    exact (preserved_for same_trace entries _ trend_entry_same_trace
             (set_feeds rest
                (log_event (EParse (RSS_URL_BASE lang period)) st))).
Qed.

Lemma fetch_trend_loop_trace fetch p langs : ∀ st,
  period fetch = Some p →
  let loop := for_ langs (λ lang,
                period ← require (period fetch);
                fetch_trend_lang (normalize_lang lang) period) in
  ∃ n, trace (run loop st) = trace st ++ (trend_request p <$> take n langs)
       ∧ (result loop st = Ok tt → n = length langs).
Proof.
  intros st Hp loop. subst loop. revert st.
  induction langs as [|lang langs IH]; intros st.
  - exists 0%nat. by rewrite app_nil_r.
  - cbn [for_].
    set (body := require (period fetch) ≫= _).
    assert (trace (run body st) = trace st ++ [trend_request p lang]) as Hb.
    { subst body. rewrite Hp. erewrite run_bind_ok; [|reflexivity].
      apply fetch_trend_lang_trace. }
    rewrite run_bind, result_bind.
    destruct (result body st) as [[]| |].
    + destruct (IH (run body st)) as (n & Hn & Hok).
      exists (S n). rewrite Hn, Hb, <- app_assoc. split; [done|].
      intros H. cbn [length]. by rewrite (Hok H).
    + exists 1%nat. rewrite Hb. split; [cbn; by rewrite take_0|done].
    + exists 1%nat. rewrite Hb. split; [cbn; by rewrite take_0|done].
Qed.

(** C8: the language name put in the feed URL is the configured name with
    the empty name replaced by [Unknown], lower-cased, and with [c++]
    replaced by [cpp]; so [C++] gives [cpp] and the empty name gives
    [unknown].  [fetch_trend] requests the feed of the normalized name of
    each language it iterates over, in order: all of them when it returns,
    the first ones when a feed makes it raise. *)
Theorem trend_language_normalization st fetch langs p :
  trend_langs st fetch = Some langs →
  period fetch = Some p →
  normalize_lang "C++" = "cpp"
  ∧ normalize_lang EmptyString = "unknown"
  ∧ (∀ lang,
       normalize_lang lang
       = Str.replace "c++" "cpp"
           (Str.lower (if decide (lang = EmptyString) then "Unknown"
                       else lang)))
  ∧ ∃ n,
      trace (run (fetch_trend fetch) st)
      = trace st ++ (trend_request p <$> take n langs)
      ∧ (result (fetch_trend fetch) st = Ok tt → n = length langs).
Proof.
  intros Hl Hp. split; [reflexivity|]. split; [reflexivity|].
  split; [reflexivity|].
  assert (∃ c : M (list string),
            fetch_trend fetch
            = c ≫= (λ langs, for_ langs (λ lang,
                      period ← require (period fetch);
                      fetch_trend_lang (normalize_lang lang) period))
            ∧ c st = (Ok langs, st)) as (c & -> & Hc).
  { unfold trend_langs in Hl. unfold fetch_trend.
    destruct (languages fetch) as [[s|l]|]; [|injection Hl as ->|done].
    - eexists. split.
      + unfold mbind at 1, M_bind, bind at 1. cbn [require ret]. reflexivity.
      + destruct (decide (s = "accept_languages")).
        * apply accept_languages_eq.
          by destruct (data (config st) !! "accept_languages") as [[]|];
            simplify_eq.
        * by injection Hl as <-.
    - eexists. split; [|reflexivity].
      unfold mbind at 1, M_bind, bind at 1. cbn [require ret]. reflexivity. }
  assert (result c st = Ok langs) as Hres by (unfold result; by rewrite Hc).
  assert (run c st = st) as Hrun by (unfold run; by rewrite Hc).
  rewrite (run_bind_ok _ _ _ _ _ Hc), result_bind, Hres, Hrun.
  by apply fetch_trend_loop_trace.
Qed.

Lemma trend_language_normalization_witness :
  trace (run (fetch_trend trend_source) st_two_feeds)
  = [EParse (RSS_URL_BASE "cpp" "daily");
     EParse (RSS_URL_BASE "unknown" "daily")].
Proof.
  destruct (trend_language_normalization st_two_feeds trend_source
              ["C++"; EmptyString] "daily" eq_refl eq_refl)
    as (_ & _ & _ & n & Hn & Hok).
  rewrite Hn, (Hok eq_refl). reflexivity.
Defined.

(** ** The fetch routines never re-add a known name *)

#[global] Instance fetch_effect_refl : Reflexive fetch_effect.
Proof. intros st. repeat split. by left. Qed.

Lemma watched_same st st' fn :
  repos st' = repos st → watched st' fn ↔ watched st fn.
Proof. intros H. unfold watched, snoozed, zapped. by rewrite H. Qed.

#[global] Instance fetch_effect_trans : Transitive fetch_effect.
Proof.
  intros st1 st2 st3 (Hc & Hfr & Hfd & Hr & Hf & Hp)
    (Hc' & Hfr' & Hfd' & Hr' & Hf' & Hp').
  split; [congruence|]. split; [congruence|]. split; [congruence|].
  split; [congruence|]. split; [congruence|].
  intros fn. destruct (Hp' fn) as [Heq|(Hnone & Hnw & r & Hsome & Hfn)].
  - rewrite Heq. apply Hp.
  - right. destruct (Hp fn) as [Heq|(_ & _ & r' & Hsome' & _)];
      [|congruence].
    split; [congruence|]. split; [by rewrite <- (watched_same _ _ _ Hr)|].
    by exists r.
Qed.

(** A change of the cache object that leaves the entries [repos] and
    [fetches] alone has this effect. *)
Lemma fetch_effect_other_key st k v flag :
  k ≠ "repos" → k ≠ "fetches" →
  fetch_effect st
    (set_cache (mkData (JSON (cache st)) (<[k := v]> (data (cache st))) flag)
       st).
Proof.
  intros Hr Hf. repeat split; cbn.
  - by rewrite lookup_insert_ne.
  - intros fn. left. unfold pending. cbn. by rewrite lookup_insert_ne.
Qed.

Lemma fetch_effect_flag st flag :
  fetch_effect st
    (set_cache (mkData (JSON (cache st)) (data (cache st)) flag) st).
Proof. repeat split. intros fn. by left. Qed.

Lemma rl_type_not_repos URL : rl_type URL ≠ "repos" ∧ rl_type URL ≠ "fetches".
Proof. unfold rl_type. by destruct (Str.contains _ _). Qed.

Lemma sleep_fetch_effect s : preserved fetch_effect (sleep s).
Proof.
  unfold sleep. destruct (bool_decide _); [apply preserved_raise; exact _|].
  apply preserved_modify. intros st. repeat split. intros fn. by left.
Qed.

Lemma requests_get_fetch_effect URL query :
  preserved fetch_effect (requests_get URL query).
Proof.
  intros st. unfold run, requests_get.
  destruct (net st) as [|[]]; repeat split; intros fn; by left.
Qed.

Lemma fp_parse_fetch_effect URL : preserved fetch_effect (fp_parse URL).
Proof.
  intros st. unfold run, fp_parse.
  destruct (feeds st); repeat split; intros fn; by left.
Qed.

Lemma gh_req_fetch_effect URL raise_error query :
  preserved fetch_effect (gh_req URL raise_error query).
Proof.
  destruct (rl_type_not_repos URL) as [Hr Hf].
  unfold gh_req, wait_for_reset.
  repeat first
    [ apply sleep_fetch_effect | apply requests_get_fetch_effect
    | preserve_step | progress unfold_ops ].
  all: cbn [obj set_obj]; by apply fetch_effect_other_key.
Qed.

Lemma Repos_contains_eq st fn s z :
  data (repos st) !! "snooze" = Some (VTimes s) →
  data (repos st) !! "zap" = Some (VStrs z) →
  Repos_contains fn st
  = (Ok (bool_decide (is_Some (s !! fn)) || bool_decide (fn ∈ z)), st).
Proof.
  intros Hs Hz. unfold Repos_contains.
  erewrite bind_ok; [|by apply snooze_dict_eq].
  destruct (bool_decide (is_Some (s !! fn))); [reflexivity|].
  by erewrite bind_ok; [|by apply zap_list_eq].
Qed.

Lemma known_eq st fn m s z :
  data (cache st) !! "repos" = Some (VRepos m) →
  data (repos st) !! "snooze" = Some (VTimes s) →
  data (repos st) !! "zap" = Some (VStrs z) →
  known fn st
  = (Ok (bool_decide (is_Some (m !! fn)) || bool_decide (is_Some (s !! fn))
         || bool_decide (fn ∈ z)), st).
Proof.
  intros Hm Hs Hz. unfold known.
  erewrite bind_ok; [|by apply cache_repos_eq].
  destruct (bool_decide (is_Some (m !! fn))); [reflexivity|].
  by apply Repos_contains_eq.
Qed.

(** [known] reads and changes nothing; when it answers no, the cache holds
    a pending set without the name and the name is not on the watchlist. *)
Lemma known_state st fn : run (known fn) st = st.
Proof.
  unfold run, known, cache_repos, Repos_contains, snooze_dict, zap_list,
    getitem, as_repos, as_times, as_strs.
  unfold_m. cbn [obj].
  destruct (data (cache st) !! "repos") as [[| | | |m| |]|]; cbn; try done.
  destruct (bool_decide (is_Some (m !! fn))); cbn; [done|].
  destruct (data (repos st) !! "snooze") as [[| | |s| | |]|]; cbn; try done.
  destruct (bool_decide (is_Some (s !! fn))); cbn; [done|].
  by destruct (data (repos st) !! "zap") as [[]|].
Qed.

Lemma known_false st fn :
  result (known fn) st = Ok false →
  ∃ m, data (cache st) !! "repos" = Some (VRepos m)
       ∧ m !! fn = None ∧ ¬ watched st fn.
Proof.
  unfold result, known, cache_repos, Repos_contains, snooze_dict, zap_list,
    getitem, as_repos, as_times, as_strs, watched, snoozed, zapped.
  unfold_m. cbn [obj].
  destruct (data (cache st) !! "repos") as [[| | | |m| |]|]; cbn; try done.
  destruct (bool_decide (is_Some (m !! fn))) eqn:Hm; cbn; [done|].
  apply bool_decide_eq_false_1 in Hm.
  destruct (data (repos st) !! "snooze") as [[| | |s| | |]|]; cbn; try done.
  destruct (bool_decide (is_Some (s !! fn))) eqn:Hs; cbn; [done|].
  apply bool_decide_eq_false_1 in Hs.
  destruct (data (repos st) !! "zap") as [[| |z| | | |]|]; cbn; try done.
  intros [= Hz%bool_decide_eq_false_1].
  exists m. split; [done|]. split; [by apply eq_None_not_Some|]. tauto.
Qed.

Lemma add_to_cache_eq st r m :
  data (cache st) !! "repos" = Some (VRepos m) →
  add_to_cache r st = (Ok tt, with_pending (<[full_name r := r]> m) st).
Proof.
  intros Hm. unfold add_to_cache.
  erewrite bind_ok; [|by apply cache_repos_eq].
  erewrite bind_ok; [|reflexivity].
  reflexivity.
Qed.

Lemma pending_with_pending m st : pending (with_pending m st) = m.
Proof. unfold pending, with_pending. cbn. by rewrite lookup_insert_eq. Qed.

Lemma fetch_effect_add st r m :
  data (cache st) !! "repos" = Some (VRepos m) →
  m !! full_name r = None →
  ¬ watched st (full_name r) →
  fetch_effect st (with_pending (<[full_name r := r]> m) st).
Proof.
  intros Hm Hnone Hnw. repeat split.
  - cbn. by rewrite lookup_insert_ne.
  - intros fn. rewrite pending_with_pending.
    assert (pending st = m) as -> by (unfold pending; by rewrite Hm).
    destruct (decide (fn = full_name r)) as [->|Hne].
    + right. split; [done|]. split; [done|]. exists r.
      by rewrite lookup_insert_eq.
    + left. by rewrite lookup_insert_ne.
Qed.

Lemma consider_fetch_effect repo rejected :
  preserved fetch_effect (consider repo rejected).
Proof.
  intros st. unfold consider.
  erewrite run_bind_ok; [|reflexivity].
  destruct (filter_repo repo st); [apply reflexivity|].
  rewrite run_bind, known_state.
  destruct (result (known (full_name repo)) st) as [[]| |] eqn:Hk;
    try apply reflexivity.
  destruct rejected; [apply reflexivity|].
  destruct (known_false _ _ Hk) as (m & Hm & Hnone & Hnw).
  unfold run. rewrite (add_to_cache_eq _ _ _ Hm). cbn [snd].
  by apply fetch_effect_add.
Qed.

Lemma search_item_consider langs r :
  search_item langs r
  = consider (search_record r) (lang_rejected langs (i_language r)).
Proof. reflexivity. Qed.

Lemma trend_entry_consider r :
  trend_entry r = (repo ← lift (trend_record r); consider repo false).
Proof. reflexivity. Qed.

Lemma cghp_child_consider langs r :
  cghp_child langs r
  = match CGHP_RE_match (url r) with
    | None => ret tt
    | Some (user, repo) =>
        flair ← match link_flair_text r with
                | Some f => ret f
                | None => raise AttributeError
                end;
        consider (cghp_record r user repo flair)
          (lang_rejected langs (language (cghp_record r user repo flair)))
    end.
Proof. reflexivity. Qed.

Ltac fetch_effect_step :=
  first
    [ apply consider_fetch_effect | apply gh_req_fetch_effect
    | apply sleep_fetch_effect | apply requests_get_fetch_effect
    | apply fp_parse_fetch_effect | preserve_step | progress unfold_ops ].

Lemma search_item_fetch_effect langs r :
  preserved fetch_effect (search_item langs r).
Proof. rewrite search_item_consider. apply consider_fetch_effect. Qed.

Lemma trend_entry_fetch_effect r : preserved fetch_effect (trend_entry r).
Proof.
  rewrite trend_entry_consider. repeat fetch_effect_step.
Qed.

Lemma cghp_child_fetch_effect langs r :
  preserved fetch_effect (cghp_child langs r).
Proof. rewrite cghp_child_consider. repeat fetch_effect_step. Qed.

Lemma fetch_search_fetch_effect fetch :
  preserved fetch_effect (fetch_search fetch).
Proof.
  unfold fetch_search.
  repeat first [apply search_item_fetch_effect | fetch_effect_step].
Qed.

Lemma fetch_trend_lang_fetch_effect lang period :
  preserved fetch_effect (fetch_trend_lang lang period).
Proof.
  unfold fetch_trend_lang.
  repeat first [apply trend_entry_fetch_effect | fetch_effect_step].
Qed.

Lemma fetch_trend_fetch_effect fetch :
  preserved fetch_effect (fetch_trend fetch).
Proof.
  unfold fetch_trend.
  repeat first [apply fetch_trend_lang_fetch_effect | fetch_effect_step].
Qed.

Lemma cghp_poll_fetch_effect n : preserved fetch_effect (cghp_poll n).
Proof.
  induction n as [|n IH]; cbn [cghp_poll].
  - apply preserved_blocked. exact _.
  - unfold cghp_attempt. repeat first [exact IH | fetch_effect_step].
Qed.

Lemma fetch_cghp_fetch_effect fetch :
  preserved fetch_effect (fetch_cghp fetch).
Proof.
  unfold fetch_cghp.
  repeat first
    [ apply cghp_poll_fetch_effect | apply cghp_child_fetch_effect
    | fetch_effect_step ].
Qed.

Lemma fetch_effect_never_readds st st' :
  fetch_effect st st' → never_readds st st'.
Proof.
  intros (_ & _ & _ & Hr & _ & Hp). split; [done|]. split; [|split].
  - intros fn Hknown.
    destruct (Hp fn) as [Heq|(Hnone & Hnw & _)]; [done|].
    destruct Hknown as [[r Hsome]|Hw]; [congruence|done].
  - intros fn r Hsome.
    destruct (Hp fn) as [Heq|(_ & _ & r' & Hsome' & Hfn)].
    + left. by rewrite <- Heq.
    + right. congruence.
  - intros Hdisj fn Hsome. rewrite (watched_same _ _ _ Hr).
    destruct (Hp fn) as [Heq|(_ & Hnw & _)]; [|done].
    apply Hdisj. by rewrite <- Heq.
Qed.

(** C1: whatever their outcome, [fetch_search], [fetch_trend_lang] and
    [fetch_cghp] never add to the pending cache a record whose full name is
    already pending, snoozed or zapped, nor replace the record of a pending
    name; they leave the watchlist alone, store every new record under its
    own full name, and keep the pending names off the watchlist when they
    were off it before. *)
Theorem fetch_never_readds (fetch : Fetch) (lang period : string) (st : St) :
  never_readds st (run (fetch_search fetch) st)
  ∧ never_readds st (run (fetch_trend_lang lang period) st)
  ∧ never_readds st (run (fetch_cghp fetch) st).
Proof.
  split; [|split]; apply fetch_effect_never_readds.
  - apply fetch_search_fetch_effect.
  - apply fetch_trend_lang_fetch_effect.
  - apply fetch_cghp_fetch_effect.
Qed.

(** ** Cache.fetch: the dispatcher *)

Lemma routine_fetch_effect fetch c :
  routine fetch = Some c → preserved fetch_effect c.
Proof.
  unfold routine. repeat case_decide; intros [= <-].
  - apply fetch_search_fetch_effect.
  - apply fetch_trend_fetch_effect.
  - apply fetch_cghp_fetch_effect.
Qed.

Lemma fetch_source_skip fetch st m t :
  data (cache st) !! "fetches" = Some (VTimes m) →
  m !! key fetch = Some t →
  clock st - interval fetch < t →
  fetch_source fetch st = (Ok tt, st).
Proof.
  intros Hm Ht Hlt. unfold fetch_source.
  erewrite bind_ok; [|by apply cache_fetches_eq].
  erewrite bind_ok; [|reflexivity].
  rewrite Ht. by rewrite bool_decide_eq_true_2.
Qed.

Lemma fetch_source_due fetch st m :
  data (cache st) !! "fetches" = Some (VTimes m) →
  due m (clock st) fetch →
  fetch_source fetch st
  = match routine fetch with
    | Some c => (c;; stamp fetch) st
    | None => (Ok tt, st)
    end.
Proof.
  intros Hm Hdue. unfold fetch_source, due, routine in *. 
  erewrite bind_ok; [|by apply cache_fetches_eq].
  erewrite bind_ok; [|reflexivity].
  assert (match m !! key fetch with
          | Some t => bool_decide (clock st - interval fetch < t)
          | None => false
          end = false) as ->.
  { destruct (m !! key fetch); [|done]. apply bool_decide_eq_false_2. lia. }
  by repeat case_decide.
Qed.

Lemma stamp_eq fetch st m :
  data (cache st) !! "fetches" = Some (VTimes m) →
  stamp fetch st
  = (Ok tt,
     set_cache (mkData (JSON (cache st))
                  (<["fetches" := VTimes (<[key fetch := clock st]> m)]>
                     (data (cache st))) true) st).
Proof.
  intros Hm. unfold stamp.
  erewrite bind_ok; [|reflexivity].
  erewrite bind_ok; [|by apply cache_fetches_eq].
  erewrite bind_ok; [|reflexivity].
  reflexivity.
Qed.


(** ** The search source *)

#[global] Instance watched_dec st fn : Decision (watched st fn).
Proof. unfold watched. apply _. Defined.

Lemma lang_rejected_accepted langs lang :
  lang_rejected langs lang = negb (lang_accepted langs lang).
Proof.
  unfold lang_rejected, lang_accepted.
  destruct (decide ("All" ∈ langs)) as [H|H].
  - rewrite (bool_decide_eq_true_2 _ H).
    rewrite bool_decide_eq_false_2; [done|]. by intros ?.
  - rewrite (bool_decide_eq_false_2 _ H), (bool_decide_eq_true_2 _ H).
    destruct lang as [l|]; [|done]. cbn.
    destruct (decide (l ∈ langs)) as [Hl|Hl].
    + rewrite (bool_decide_eq_true_2 _ Hl).
      rewrite bool_decide_eq_false_2; [done|]. by intros ?.
    + by rewrite (bool_decide_eq_false_2 _ Hl), (bool_decide_eq_true_2 _ Hl).
Qed.

Lemma filter_repo_same st st' r :
  same_context st st' → filter_repo r st' = filter_repo r st.
Proof. intros (_ & Hr & Hd & _). unfold filter_repo. by rewrite Hr, Hd. Qed.

Lemma passes_same st st' m r ok :
  same_context st st' → passes st' m r ok = passes st m r ok.
Proof.
  intros H. unfold passes. rewrite (filter_repo_same _ _ _ H).
  destruct H as (_ & _ & _ & H). unfold snoozed, zapped. by rewrite H.
Qed.

Lemma same_context_with_pending st m : same_context st (with_pending m st).
Proof. done. Qed.

(** The shared part of the loop bodies, on stores of the expected shape. *)
Lemma consider_eq st repo rejected m s z :
  data (cache st) !! "repos" = Some (VRepos m) →
  data (repos st) !! "snooze" = Some (VTimes s) →
  data (repos st) !! "zap" = Some (VStrs z) →
  consider repo rejected st
  = (Ok tt,
     if passes st m repo (negb rejected)
     then with_pending (<[full_name repo := repo]> m) st else st).
Proof.
  intros Hm Hs Hz. unfold consider, passes.
  erewrite bind_ok; [|reflexivity].
  destruct (filter_repo repo st); [reflexivity|].
  erewrite bind_ok; [|by eapply known_eq].
  assert (snoozed st = s) as -> by (unfold snoozed; by rewrite Hs).
  assert (zapped st = z) as -> by (unfold zapped; by rewrite Hz).
  destruct (_ || _ || _); [reflexivity|].
  destruct rejected; [reflexivity|].
  by apply add_to_cache_eq.
Qed.

(** The loop of [fetch_search] on stores of the expected shape: it returns,
    and the pending cache has considered the items one after the other. *)
Lemma for_search_item st langs items : ∀ st1 m s z,
  same_context st st1 →
  data (cache st1) !! "repos" = Some (VRepos m) →
  data (repos st) !! "snooze" = Some (VTimes s) →
  data (repos st) !! "zap" = Some (VStrs z) →
  ∃ st2,
    for_ items (search_item langs) st1 = (Ok tt, st2)
    ∧ same_context st st2
    ∧ data (cache st2) !! "fetches" = data (cache st1) !! "fetches"
    ∧ data (cache st2) !! "repos"
      = Some (VRepos (foldl (λ acc r, add_if_passes st acc (search_record r)
                               (lang_accepted langs (i_language r)))
                        m items)).
Proof.
  induction items as [|r items IH]; intros st1 m s z Hctx Hm Hs Hz.
  - by exists st1.
  - cbn [for_ foldl]. rewrite search_item_consider.
    assert (repos st1 = repos st) as Hr by apply Hctx.
    erewrite bind_ok; [|by eapply consider_eq; rewrite ?Hr].
    rewrite lang_rejected_accepted, negb_involutive.
    rewrite (passes_same _ _ _ _ _ Hctx). unfold add_if_passes at 2.
    destruct (passes st m (search_record r) _).
    + destruct (IH (with_pending (<[full_name (search_record r)
                                     := search_record r]> m) st1)
                  (<[full_name (search_record r) := search_record r]> m) s z)
        as (st2 & Hrun & Hctx2 & Hf2 & Hm2); try done.
      { unfold with_pending. cbn. by rewrite lookup_insert_eq. }
      exists st2. split; [done|]. split; [done|]. split; [|done].
      rewrite Hf2. unfold with_pending. cbn. by rewrite lookup_insert_ne.
    + by apply (IH st1 m s z).
Qed.

Lemma watched_bool st fn :
  bool_decide (is_Some (snoozed st !! fn)) || bool_decide (fn ∈ zapped st)
  = bool_decide (watched st fn).
Proof.
  unfold watched.
  destruct (decide (is_Some (snoozed st !! fn))) as [H|H].
  - rewrite (bool_decide_eq_true_2 _ H). cbn.
    symmetry. apply bool_decide_eq_true_2. by left.
  - rewrite (bool_decide_eq_false_2 _ H). cbn.
    apply bool_decide_ext. tauto.
Qed.

Lemma foldl_add_if_passes st langs items : ∀ m fn,
  foldl (λ acc r, add_if_passes st acc (search_record r)
                    (lang_accepted langs (i_language r))) m items !! fn
  = match m !! fn with
    | Some x => Some x
    | None =>
        if bool_decide (watched st fn) then None
        else search_record <$> first_acceptable st langs fn items
    end.
Proof.
  unfold first_acceptable.
  induction items as [|r items IH]; intros m fn; cbn [foldl find].
  - destruct (m !! fn); [done|]. by destruct (bool_decide _).
  - rewrite IH. unfold add_if_passes, passes, acceptable.
    change (full_name (search_record r)) with (i_full_name r).
    rewrite <- orb_assoc, watched_bool.
    destruct (decide (i_full_name r = fn)) as [<-|Hne].
    + rewrite (bool_decide_eq_true_2 (i_full_name r = i_full_name r))
        by done.
      destruct (m !! i_full_name r) as [x|] eqn:Hm.
      * rewrite (bool_decide_eq_true_2 (is_Some (Some x))) by done.
        cbn. rewrite andb_false_r. cbn. by rewrite Hm.
      * rewrite (bool_decide_eq_false_2 (is_Some None))
          by (by intros [? [=]]).
        cbn.
        destruct (bool_decide (watched st (i_full_name r))); cbn.
        -- rewrite andb_false_r. cbn. by rewrite Hm.
        -- rewrite andb_true_r.
           destruct (negb _ && _); cbn.
           ++ by rewrite lookup_insert_eq.
           ++ by rewrite Hm.
    + rewrite (bool_decide_eq_false_2 _ Hne). cbn.
      destruct (_ && _ && _); [|done].
      by rewrite lookup_insert_ne.
Qed.

Lemma filter_repo_false r st :
  filter_repo r st = false
  ↔ (∀ f, f ∈ filters_repo st → search f (repo r) = false)
    ∧ (∀ f d, f ∈ filters_description st → description r = Some d →
              search f d = false).
Proof.
  unfold filter_repo. rewrite orb_false_iff.
  rewrite <- !not_true_iff_false, !existsb_exists.
  setoid_rewrite <- list_elem_of_In. split.
  - intros [H1 H2]. split.
    + intros f Hf. apply not_true_iff_false. intros Hs. apply H1. eauto.
    + intros f d Hf Hd. apply not_true_iff_false. intros Hs. apply H2.
      exists f. by rewrite Hd.
  - intros [H1 H2]. split.
    + intros (f & Hf & Hs). by rewrite (H1 f Hf) in Hs.
    + intros (f & Hf & Hs). destruct (description r) as [d|]; [|done].
      by rewrite (H2 f d Hf eq_refl) in Hs.
Qed.

Lemma acceptable_spec st langs r :
  acceptable st langs r = true
  ↔ ((∀ f, f ∈ filters_repo st → search f (i_name r) = false)
     ∧ (∀ f d, f ∈ filters_description st → i_description r = Some d →
               search f d = false))
    ∧ ("All" ∈ langs ∨ ∃ l, i_language r = Some l ∧ l ∈ langs).
Proof.
  unfold acceptable, lang_accepted.
  rewrite andb_true_iff, negb_true_iff, filter_repo_false, orb_true_iff.
  rewrite bool_decide_eq_true. cbn [repo description search_record].
  apply and_iff_compat_l, or_iff_compat_l.
  destruct (i_language r) as [l|].
  - rewrite bool_decide_eq_true. split; [eauto|]. by intros (? & [= <-] & ?).
  - split; [done|]. by intros (? & [=] & _).
Qed.

(** What [fetch_search] does when the search request is answered with a
    result: it returns, and ends in a state whose pending cache has
    considered the items of the result one after the other. *)
Lemma fetch_search_eq st fetch query rl resp rest remaining reset_at total
    items langs m s z :
  q fetch = Some query →
  rate_limit_state st SEARCH_REPO_URL = Some rl →
  net st = Answer resp :: rest →
  x_ratelimit_remaining resp = Some remaining →
  x_ratelimit_reset resp = Some reset_at →
  is_http_error (status_code resp) = false →
  body resp = SearchResult total items →
  data (config st) !! "accept_languages" = Some (VStrs langs) →
  data (cache st) !! "repos" = Some (VRepos m) →
  data (repos st) !! "snooze" = Some (VTimes s) →
  data (repos st) !! "zap" = Some (VStrs z) →
  ∃ st',
    fetch_search fetch st = (Ok tt, st')
    ∧ same_context st st'
    ∧ data (cache st') !! "fetches" = data (cache st) !! "fetches"
    ∧ pending st'
      = foldl (λ acc r, add_if_passes st acc (search_record r)
                          (lang_accepted langs (i_language r))) m items.
Proof.
  intros Hq Hrl Hnet Hrem Hrst Herr Hbody Hlangs Hm Hs Hz.
  destruct (rl_type_not_repos SEARCH_REPO_URL) as [Hne Hne'].
  unfold fetch_search. rewrite Hq.
  erewrite bind_ok; [|reflexivity].
  erewrite bind_ok;
    [|by rewrite (gh_req_answered _ _ _ _ _ _ _ _ _ Hrl Hnet Hrem Hrst), Herr].
  set (st1 := answered _ _ _ _ _ _ _).
  erewrite bind_ok; [|unfold json; by rewrite Hbody].
  cbv beta iota.
  erewrite bind_ok; [|by apply accept_languages_eq].
  destruct (for_search_item st langs items st1 m s z) as
    (st2 & Hrun & Hctx & Hf & Hp); try done.
  { subst st1. unfold answered. cbn. by rewrite lookup_insert_ne. }
  exists st2. split; [done|]. split; [done|]. split.
  - rewrite Hf. subst st1. unfold answered. cbn. by rewrite lookup_insert_ne.
  - unfold pending. by rewrite Hp.
Qed.

(** C6: when the search request is answered with a result, [fetch_search]
    returns and the pending cache is what considering the returned items one
    after the other gives, an item being added exactly when no repo-name or
    description filter matches it, its full name is not known (pending at
    that moment, snoozed or zapped) and its language is accepted (in the
    accept list, or the list contains [All]).  So a name ends up pending
    exactly when it was pending before, or is not on the watchlist and is
    the full name of a returned item that passes the filter and language
    checks, the first such item giving the record.  In particular, of two
    returned items of which the first has a name a repo-name filter matches
    and the second passes, only the second is pending afterwards. *)
Theorem fetch_search_adds st fetch query rl resp rest remaining reset_at
    total items langs m s z :
  q fetch = Some query →
  rate_limit_state st SEARCH_REPO_URL = Some rl →
  net st = Answer resp :: rest →
  x_ratelimit_remaining resp = Some remaining →
  x_ratelimit_reset resp = Some reset_at →
  is_http_error (status_code resp) = false →
  body resp = SearchResult total items →
  data (config st) !! "accept_languages" = Some (VStrs langs) →
  data (cache st) !! "repos" = Some (VRepos m) →
  data (repos st) !! "snooze" = Some (VTimes s) →
  data (repos st) !! "zap" = Some (VStrs z) →
  let st' := run (fetch_search fetch) st in
  result (fetch_search fetch) st = Ok tt
  ∧ pending st'
    = foldl (λ acc r, add_if_passes st acc (search_record r)
                        (lang_accepted langs (i_language r))) m items
  ∧ (∀ fn,
       pending st' !! fn
       = match m !! fn with
         | Some x => Some x
         | None =>
             if bool_decide (watched st fn) then None
             else search_record <$> first_acceptable st langs fn items
         end)
  ∧ (∀ r,
       acceptable st langs r = true
       ↔ ((∀ f, f ∈ filters_repo st → search f (i_name r) = false)
          ∧ (∀ f d, f ∈ filters_description st → i_description r = Some d →
                    search f d = false))
         ∧ ("All" ∈ langs ∨ ∃ l, i_language r = Some l ∧ l ∈ langs))
  ∧ (∀ a b f,
       items = [a; b] → m = ∅ →
       f ∈ filters_repo st → search f (i_name a) = true →
       acceptable st langs b = true → ¬ watched st (i_full_name b) →
       pending st' = {[ i_full_name b := search_record b ]}).
Proof.
  intros Hq Hrl Hnet Hrem Hrst Herr Hbody Hlangs Hm Hs Hz st'. subst st'.
  destruct (fetch_search_eq _ _ _ _ _ _ _ _ _ _ _ _ _ _
              Hq Hrl Hnet Hrem Hrst Herr Hbody Hlangs Hm Hs Hz)
    as (st' & Hrun & _ & _ & Hp).
  assert (run (fetch_search fetch) st = st') as ->
    by (unfold run; by rewrite Hrun).
  unfold result. rewrite Hrun. cbn [fst].
  split; [done|]. split; [done|].
  assert (∀ fn,
       pending st' !! fn
       = match m !! fn with
         | Some x => Some x
         | None =>
             if bool_decide (watched st fn) then None
             else search_record <$> first_acceptable st langs fn items
         end) as Hclosed.
  { intros fn. rewrite Hp. apply foldl_add_if_passes. }
  split; [done|]. split; [apply acceptable_spec|].
  intros a b f -> -> Hf Ha Hb Hnw.
  assert (acceptable st langs a = false) as Hna.
  { apply not_true_iff_false. intros [[H _] _]%acceptable_spec.
    by rewrite (H f Hf) in Ha. }
  apply map_eq. intros fn. rewrite Hclosed, lookup_empty.
  unfold first_acceptable. cbn [find]. rewrite Hna, Hb, !andb_false_r, andb_true_r.
  destruct (decide (i_full_name b = fn)) as [<-|Hne].
  - rewrite (bool_decide_eq_false_2 _ Hnw).
    rewrite (bool_decide_eq_true_2 (i_full_name b = i_full_name b)) by done.
    by rewrite lookup_singleton_eq.
  - rewrite (bool_decide_eq_false_2 _ Hne), lookup_singleton_ne by done.
    by destruct (bool_decide _).
Qed.

Lemma fetch_search_adds_witness :
  pending (run (fetch_search search_source) st_search)
  = {[ "bob/tool" := search_record item_tool ]}.
Proof.
  destruct (fetch_search_adds st_search search_source "stars:>500"
              (mkRateLimit 1 0) search_reply [] 29 1060 2
              [item_dotfiles; item_tool] ["All"] ∅ ∅ []
              eq_refl eq_refl eq_refl eq_refl eq_refl eq_refl eq_refl
              eq_refl eq_refl eq_refl eq_refl) as (_ & _ & _ & _ & H).
  apply (H item_dotfiles item_tool (literal "dotfiles")); try reflexivity.
  - left.
  - apply (bool_decide_eq_false_1 (watched st_search "bob/tool")).
    vm_compute. reflexivity.
Defined.


(** ** The trend source: no language check *)

Lemma for_trend_entry st entries : ∀ st1 m s z,
  Forall (λ r, ∃ repo, trend_record r = Ok repo) entries →
  same_context st st1 →
  data (cache st1) !! "repos" = Some (VRepos m) →
  data (repos st) !! "snooze" = Some (VTimes s) →
  data (repos st) !! "zap" = Some (VStrs z) →
  ∃ st2,
    for_ entries trend_entry st1 = (Ok tt, st2)
    ∧ same_context st st2
    ∧ data (cache st2) !! "repos"
      = Some (VRepos (foldl (add_entry st) m entries)).
Proof.
  induction entries as [|r entries IH]; intros st1 m s z Hall Hctx Hm Hs Hz.
  - by exists st1.
  - apply Forall_cons in Hall as [[repo Hrepo] Hall].
    cbn [for_ foldl]. rewrite trend_entry_consider.
    assert (repos st1 = repos st) as Hr by apply Hctx.
    unfold add_entry at 2. rewrite Hrepo.
    erewrite bind_ok.
    2:{ erewrite bind_ok; [|reflexivity].
        eapply consider_eq; by rewrite ?Hr. }
    rewrite (passes_same _ _ _ _ _ Hctx). unfold add_if_passes.
    cbn [negb]. destruct (passes st m repo true).
    + apply (IH _ (<[full_name repo := repo]> m) s z); try done.
      unfold with_pending. cbn. by rewrite lookup_insert_eq.
    + by apply (IH st1 m s z).
Qed.

Lemma trend_record_counts r repo :
  trend_record r = Ok repo →
  stargazers_count repo = -1 ∧ forks_count repo = -1 ∧ homepage repo = None.
Proof.
  unfold trend_record.
  destruct (Str.split1 " " (e_title r)) as [|fn [|lang [|]]]; try done.
  destruct (Str.split " - " lang !! 1%nat); [|done].
  destruct (Str.split "/" fn) as [|u [|p [|]]]; try done.
  by intros [= <-].
Qed.

(** C7: on a feed whose entries have titles of the expected shape,
    [fetch_trend_lang] returns and the pending cache is what considering the
    entries one after the other gives, an entry being added exactly when no
    filter matches it and its full name is not known: the accepted
    languages of the configuration are not read.  Every record it builds has
    star and fork counts of -1.  So the entry of a feed of one entry whose
    language the accept list does not admit is added all the same, when no
    filter matches it and its name is not known. *)
Theorem fetch_trend_lang_no_language_check st lang period entries rest
    m s z :
  feeds st = entries :: rest →
  Forall (λ r, ∃ repo, trend_record r = Ok repo) entries →
  data (cache st) !! "repos" = Some (VRepos m) →
  data (repos st) !! "snooze" = Some (VTimes s) →
  data (repos st) !! "zap" = Some (VStrs z) →
  let st' := run (fetch_trend_lang lang period) st in
  result (fetch_trend_lang lang period) st = Ok tt
  ∧ pending st' = foldl (add_entry st) m entries
  ∧ (∀ r repo, r ∈ entries → trend_record r = Ok repo →
       stargazers_count repo = -1 ∧ forks_count repo = -1)
  ∧ (∀ r repo langs,
       entries = [r] → trend_record r = Ok repo →
       data (config st) !! "accept_languages" = Some (VStrs langs) →
       lang_accepted langs (language repo) = false →
       filter_repo repo st = false →
       m !! full_name repo = None → ¬ watched st (full_name repo) →
       pending st' = <[full_name repo := repo]> m).
Proof.
  intros Hfeed Hall Hm Hs Hz st'. subst st'.
  assert (∃ st', fetch_trend_lang lang period st = (Ok tt, st')
                 ∧ pending st' = foldl (add_entry st) m entries)
    as (st' & Hrun & Hp).
  { unfold fetch_trend_lang.
    erewrite bind_ok; [|unfold fp_parse; by rewrite Hfeed].
    destruct (for_trend_entry st entries
                (set_feeds rest
                   (log_event (EParse (RSS_URL_BASE lang period)) st))
                m s z) as (st2 & Hrun & _ & Hp); try done.
    exists st2. split; [done|]. unfold pending. by rewrite Hp. }
  assert (run (fetch_trend_lang lang period) st = st') as ->
    by (unfold run; by rewrite Hrun).
  unfold result. rewrite Hrun. cbn [fst].
  split; [done|]. split; [done|]. split.
  - intros r repo _ Hrepo.
    by destruct (trend_record_counts _ _ Hrepo) as (? & ? & _).
  - intros r repo langs -> Hrepo _ _ Hf Hnone Hnw.
    rewrite Hp. cbn [foldl]. unfold add_entry, add_if_passes, passes.
    rewrite Hrepo, Hf, <- orb_assoc, watched_bool.
    rewrite (bool_decide_eq_false_2 (is_Some (m !! full_name repo)))
      by (rewrite Hnone; by intros [? [=]]).
    by rewrite (bool_decide_eq_false_2 _ Hnw).
Qed.

Lemma fetch_trend_lang_no_language_check_witness :
  pending (run (fetch_trend_lang "haskell" "daily") st_python_only)
  = {[ "carol/engine" := engine_record ]}.
Proof.
  assert (Forall (λ r, ∃ repo, trend_record r = Ok repo) [trend_feed_entry])
    as Hall.
  { apply Forall_cons. split; [|by apply Forall_nil].
    exists engine_record. vm_compute. reflexivity. }
  destruct (fetch_trend_lang_no_language_check st_python_only "haskell"
              "daily" [trend_feed_entry] [] ∅ ∅ []
              eq_refl Hall eq_refl eq_refl eq_refl) as (_ & _ & _ & H).
  rewrite (H trend_feed_entry engine_record ["Python"]); try reflexivity.
  apply (bool_decide_eq_false_1 (watched st_python_only "carol/engine")).
  vm_compute. reflexivity.
Defined.

(** ** The license pre-check *)

Lemma cached_eq st fn m r :
  data (cache st) !! "repos" = Some (VRepos m) → m !! fn = Some r →
  cached fn st = (Ok r, st).
Proof.
  intros Hm Hr. unfold cached.
  erewrite bind_ok; [|by apply cache_repos_eq]. by rewrite Hr.
Qed.

Lemma set_license_eq st fn m r v :
  data (cache st) !! "repos" = Some (VRepos m) → m !! fn = Some r →
  set_license fn v st
  = (Ok tt, poke_pending (<[fn := with_license r v]> m) st).
Proof.
  intros Hm Hr. unfold set_license.
  erewrite bind_ok; [|by apply cache_repos_eq]. rewrite Hr.
  erewrite bind_ok; [|reflexivity]. reflexivity.
Qed.

Lemma del_cached_eq st fn m r :
  data (cache st) !! "repos" = Some (VRepos m) → m !! fn = Some r →
  del_cached fn st = (Ok tt, poke_pending (delete fn m) st).
Proof.
  intros Hm Hr. unfold del_cached.
  erewrite bind_ok; [|by apply cache_repos_eq]. rewrite Hr.
  erewrite bind_ok; [|reflexivity]. reflexivity.
Qed.

Lemma snooze_eq st fn s :
  data (repos st) !! "snooze" = Some (VTimes s) →
  snooze fn st = (Ok tt, with_snooze (<[fn := clock st]> s) true st).
Proof.
  intros Hs. unfold snooze.
  erewrite bind_ok; [|reflexivity].
  erewrite bind_ok; [|by apply snooze_dict_eq].
  erewrite bind_ok; [|reflexivity]. reflexivity.
Qed.

Lemma repos_poke_pending m st :
  data (cache (poke_pending m st)) !! "repos" = Some (VRepos m).
Proof. unfold poke_pending. cbn. apply lookup_insert_eq. Qed.

Lemma rate_limit_state_poke_pending m st URL :
  rate_limit_state (poke_pending m st) URL = rate_limit_state st URL.
Proof.
  destruct (rl_type_not_repos URL) as [Hne _].
  unfold rate_limit_state, poke_pending. cbn. by rewrite lookup_insert_ne.
Qed.

Lemma check_license_eq st r rl resp rest remaining reset_at total items :
  rate_limit_state st SEARCH_CODE_URL = Some rl →
  net st = Answer resp :: rest →
  x_ratelimit_remaining resp = Some remaining →
  x_ratelimit_reset resp = Some reset_at →
  is_http_error (status_code resp) = false →
  body resp = SearchResult total items →
  check_license r st
  = (Ok (bool_decide (total > 0)),
     answered st SEARCH_CODE_URL
       (Some (SEARCH_CODE_Q +:+ " repo:" +:+ full_name r)) rl rest
       remaining reset_at).
Proof.
  intros Hrl Hnet Hrem Hrst Herr Hbody. unfold check_license.
  erewrite bind_ok;
    [|by rewrite (gh_req_answered _ _ _ _ _ _ _ _ _ Hrl Hnet Hrem Hrst), Herr].
  erewrite bind_ok; [|unfold json; by rewrite Hbody].
  reflexivity.
Qed.

Lemma try_except_ok {A} (c : M A) h st a st' :
  c st = (Ok a, st') → try_except c h st = (Ok a, st').
Proof. intros H. unfold try_except. by rewrite H. Qed.

Lemma license_poll_eq st fn m r rl resp rest remaining reset_at total items n :
  data (cache st) !! "repos" = Some (VRepos m) →
  m !! fn = Some r →
  rate_limit_state st SEARCH_CODE_URL = Some rl →
  net st = Answer resp :: rest →
  x_ratelimit_remaining resp = Some remaining →
  x_ratelimit_reset resp = Some reset_at →
  is_http_error (status_code resp) = false →
  body resp = SearchResult total items →
  license_poll (S n) fn st
  = (Ok tt,
     set_cache
       (mkData (JSON (cache st))
          (<["repos" := VRepos (<[fn := with_license r
                                         (Some (bool_decide (total > 0)))]> m)]>
             (<[rl_type SEARCH_CODE_URL
                := VRateLimit (mkRateLimit remaining reset_at)]>
                (data (cache st))))
          true)
       (answered st SEARCH_CODE_URL (license_query r) rl rest remaining
          reset_at)).
Proof.
  intros Hm Hr Hrl Hnet Hrem Hrst Herr Hbody.
  destruct (rl_type_not_repos SEARCH_CODE_URL) as [Hne _].
  cbn [license_poll]. apply try_except_ok.
  erewrite bind_ok; [|by eapply cached_eq].
  erewrite bind_ok; [|by eapply check_license_eq].
  fold (license_query r).
  set (st2 := answered _ _ _ _ _ _ _).
  assert (data (cache st2) !! "repos" = Some (VRepos m)) as Hm2.
  { subst st2. unfold answered. cbn. by rewrite lookup_insert_ne. }
  erewrite bind_ok; [|by eapply set_license_eq].
  unfold set_updated, modify, poke_pending. cbn [obj set_obj].
  f_equal.
Qed.

Lemma with_license_twice r v w :
  with_license (with_license r v) w = with_license r w.
Proof. reflexivity. Qed.

(** The license step on a record without a [license] entry, when the code
    search is answered with a result. *)
Lemma license_step_eq st fn m r s rl resp rest remaining reset_at total items :
  data (cache st) !! "repos" = Some (VRepos m) →
  m !! fn = Some r →
  data (repos st) !! "snooze" = Some (VTimes s) →
  rate_limit_state st SEARCH_CODE_URL = Some rl →
  net st = Answer resp :: rest →
  x_ratelimit_remaining resp = Some remaining →
  x_ratelimit_reset resp = Some reset_at →
  is_http_error (status_code resp) = false →
  body resp = SearchResult total items →
  let issued := answered st SEARCH_CODE_URL (license_query r) rl rest
                  remaining reset_at in
  ∃ st',
    license_step fn st = (Ok (bool_decide (total > 0)), st')
    ∧ trace st' = trace issued
    ∧ clock st' = clock issued
    ∧ keys st' = keys st
    ∧ config st' = config st
    ∧ filters_repo st' = filters_repo st
    ∧ filters_description st' = filters_description st
    ∧ updated (cache st') = true
    ∧ data (cache st') !! "repos"
      = Some (VRepos (if bool_decide (total > 0)
                      then <[fn := with_license r (Some true)]> m
                      else delete fn m))
    ∧ data (repos st') !! "zap" = data (repos st) !! "zap"
    ∧ data (repos st') !! "snooze"
      = Some (VTimes (if bool_decide (total > 0) then s
                      else <[fn := clock issued]> s)).
Proof.
  intros Hm Hr Hs Hrl Hnet Hrem Hrst Herr Hbody issued.
  unfold license_step.
  erewrite bind_ok; [|by eapply set_license_eq].
  set (m1 := <[fn := with_license r None]> m).
  set (st1 := poke_pending m1 st).
  erewrite bind_ok; [|reflexivity].
  erewrite bind_ok.
  2:{ eapply (license_poll_eq st1 fn m1 (with_license r None));
        try eassumption.
      - apply repos_poke_pending.
      - subst m1. apply lookup_insert_eq.
      - subst st1. by rewrite rate_limit_state_poke_pending. }
  rewrite with_license_twice. subst m1. rewrite insert_insert_eq.
  set (b := bool_decide (total > 0)).
  set (m3 := <[fn := with_license r (Some b)]> m).
  set (st4 := set_cache _ _).
  assert (data (cache st4) !! "repos" = Some (VRepos m3)) as Hm4.
  { subst st4. cbn. apply lookup_insert_eq. }
  erewrite bind_ok;
    [|eapply cached_eq; [exact Hm4|subst m3; apply lookup_insert_eq]].
  cbn [license with_license].
  assert (trace st4 = trace issued ∧ clock st4 = clock issued
          ∧ keys st4 = keys st ∧ repos st4 = repos st
          ∧ config st4 = config st ∧ filters_repo st4 = filters_repo st
          ∧ filters_description st4 = filters_description st)
    as (Ht4 & Hc4 & Hk4 & Hr4 & Hcf4 & Hfr4 & Hfd4).
  { subst st4 st1 issued. unfold answered, poke_pending. cbn.
    repeat split. }
  destruct b eqn:Hb.
  - exists st4. rewrite Hr4. by split_and!.
  - erewrite bind_ok; [|apply snooze_eq; by rewrite Hr4].
    erewrite bind_ok.
    2:{ eapply del_cached_eq; [exact Hm4|]. subst m3. apply lookup_insert_eq. }
    erewrite bind_ok; [|reflexivity].
    eexists. split; [reflexivity|].
    cbn. subst m3.
    rewrite !lookup_insert_eq, delete_insert_eq, lookup_insert_ne by done.
    by split_and!.
Qed.

(** ** The license is checked once *)

#[global] Instance no_license_query_refl : Reflexive no_license_query.
Proof. intros st. exists []. by rewrite app_nil_r. Qed.

#[global] Instance no_license_query_trans : Transitive no_license_query.
Proof.
  intros st1 st2 st3 (e1 & H1 & F1) (e2 & H2 & F2).
  exists (e1 ++ e2). rewrite H2, H1, <- app_assoc.
  split; [done|]. by apply Forall_app.
Qed.

Lemma no_license_query_same st st' :
  trace st' = trace st → no_license_query st st'.
Proof. intros H. exists []. by rewrite app_nil_r. Qed.

Lemma no_license_query_event st st' e :
  trace st' = trace st ++ [e] → ¬ license_query_event e →
  no_license_query st st'.
Proof. intros H He. exists [e]. split; [done|]. by apply Forall_singleton. Qed.

Lemma trace_set_obj o d st : trace (set_obj o d st) = trace st.
Proof. by destruct o. Qed.

Lemma README_URL_not_search r : README_URL r ≠ SEARCH_CODE_URL.
Proof. unfold README_URL. cbn. discriminate. Qed.

Ltac no_query_step :=
  first
    [ apply no_license_query_same; rewrite ?trace_set_obj; reflexivity
    | eapply no_license_query_event;
      [ rewrite ?trace_set_obj; reflexivity
      | intros (? & ? & [=]) ] ].

Lemma requests_get_no_license_query URL query :
  URL ≠ SEARCH_CODE_URL →
  preserved no_license_query (requests_get URL query).
Proof.
  intros Hne st. unfold run, requests_get.
  eapply no_license_query_event.
  - by destruct (net st) as [|[]].
  - intros (? & ? & [= ? _ _]). done.
Qed.

Lemma getch_no_license_query : preserved no_license_query getch.
Proof.
  intros st. unfold run, getch. apply no_license_query_same.
  by destruct (keys st).
Qed.

Lemma gh_req_no_license_query URL raise_error query :
  URL ≠ SEARCH_CODE_URL →
  preserved no_license_query (gh_req URL raise_error query).
Proof.
  intros Hne. unfold gh_req, wait_for_reset, sleep.
  repeat first
    [ by apply requests_get_no_license_query
    | preserve_step | progress unfold_ops ].
  all: no_query_step.
Qed.

Ltac as_preserved :=
  lazymatch goal with
  | |- ?R ?st (run ?c ?st) =>
      let H := fresh in
      cut (preserved R c); [intros H; exact (H st)|]
  end.

Ltac no_query :=
  try as_preserved;
  solve
    [ repeat first
        [ apply getch_no_license_query
        | apply gh_req_no_license_query; apply README_URL_not_search
        | preserve_step
        | progress unfold_ops
        | progress unfold zap, snooze, cached, del_cached, save, readme,
            print_repo ];
      try no_query_step ].

Lemma prompt_no_license_query n : ∀ fn r cmd,
  preserved no_license_query (prompt n fn r cmd).
Proof.
  induction n as [|n IH]; intros fn r cmd; cbn [prompt].
  - apply preserved_blocked. exact _.
  - repeat first
      [ apply IH
      | apply getch_no_license_query
      | apply gh_req_no_license_query; apply README_URL_not_search
      | preserve_step
      | progress unfold_ops
      | progress unfold zap, snooze, cached, del_cached, save, readme,
            print_repo ].
    all: no_query_step.
Qed.

(** A record that has a [license] entry is not checked again: reviewing it
    requests no license check, whatever the keys pressed. *)
Lemma review_no_license_query args fn cmd st r :
  result (cached fn) st = Ok r →
  license r ≠ None →
  no_license_query st (run (review args fn cmd) st).
Proof.
  intros Hr Hl. unfold review.
  assert (cached fn st = (Ok r, st)) as Hc.
  { revert Hr. unfold result, cached, cache_repos, getitem, as_repos.
    unfold_m. cbn [obj].
    destruct (data (cache st) !! "repos") as [[| | | |m| |]|]; cbn; try done.
    destruct (m !! fn); cbn; [|done]. by intros [= ->]. }
  rewrite (run_bind_ok _ _ _ _ _ Hc).
  erewrite run_bind_ok; [|reflexivity].
  destruct (filter_repo r st).
  { no_query. }
  destruct (license r) as [l|]; [|done].
  erewrite run_bind_ok; [|reflexivity].
  cbv beta iota. as_preserved.
  apply (preserved_bind no_license_query); [no_query|].
  intros r'. apply (preserved_bind no_license_query); [no_query|].
  intros ?. cbv beta. destruct (check args); [no_query|].
  apply (preserved_bind no_license_query); [no_query|].
  intros n. apply prompt_no_license_query.
Qed.

(** C5: for a pending record without a [license] entry that no filter
    matches, when the code search is answered with a result:
    [check_license] declares the repository licensed exactly when the match
    count is greater than zero; with no match, the review of the record
    returns without printing or prompting (the only events are the sleep of
    the rate-limit gate, if any, and the one request), the record is gone
    from the pending cache and its name is in the snooze store with the
    clock of that moment; with a match, the license step stores the result
    on the record under [license] after one request, and leaves the snooze
    store alone.  A record that has a [license] entry is never checked
    again: its review requests no license check, whatever the keys
    pressed. *)
Theorem license_precheck st args fn cmd m r s rl resp rest remaining
    reset_at total items :
  data (cache st) !! "repos" = Some (VRepos m) →
  m !! fn = Some r →
  license r = None →
  filter_repo r st = false →
  data (repos st) !! "snooze" = Some (VTimes s) →
  rate_limit_state st SEARCH_CODE_URL = Some rl →
  net st = Answer resp :: rest →
  x_ratelimit_remaining resp = Some remaining →
  x_ratelimit_reset resp = Some reset_at →
  is_http_error (status_code resp) = false →
  body resp = SearchResult total items →
  let gate := if bool_decide (remain rl = 0 ∧ clock st < reset rl)
              then [ESleep (reset rl - clock st)] else [] in
  result (check_license r) st = Ok (bool_decide (total > 0))
  ∧ (total ≤ 0 →
     let st' := run (review args fn cmd) st in
     result (review args fn cmd) st = Ok (cmd, Next)
     ∧ pending st' = delete fn m
     ∧ snoozed st' = <[fn := clock st']> s
     ∧ trace st'
       = trace st ++ gate ++ [EGet SEARCH_CODE_URL (license_query r) (clock st')])
  ∧ (total > 0 →
     let st1 := run (license_step fn) st in
     result (license_step fn) st = Ok true
     ∧ pending st1 = <[fn := with_license r (Some true)]> m
     ∧ snoozed st1 = s
     ∧ trace st1
       = trace st ++ gate ++ [EGet SEARCH_CODE_URL (license_query r) (clock st1)])
  ∧ (∀ st2 args2 cmd2 r2,
       result (cached fn) st2 = Ok r2 → license r2 ≠ None →
       no_license_query st2 (run (review args2 fn cmd2) st2)).
Proof.
  intros Hm Hr Hl Hf Hs Hrl Hnet Hrem Hrst Herr Hbody gate.
  destruct (license_step_eq _ _ _ _ _ _ _ _ _ _ _ _
              Hm Hr Hs Hrl Hnet Hrem Hrst Herr Hbody)
    as (st' & Hstep & Ht & Hc & _ & _ & _ & _ & _ & Hp & _ & Hsn).
  assert (trace st'
          = trace st ++ gate ++ [EGet SEARCH_CODE_URL (license_query r) (clock st')])
    as Htrace by (by rewrite Ht, Hc).
  split; [|split; [|split]].
  - unfold result. by erewrite check_license_eq.
  - intros Hle st0. subst st0.
    rewrite bool_decide_eq_false_2 in Hstep, Hp, Hsn by lia.
    assert (review args fn cmd st = (Ok (cmd, Next), st')) as Hrev.
    { unfold review.
      erewrite bind_ok; [|by eapply cached_eq].
      erewrite bind_ok; [|reflexivity].
      rewrite Hf, Hl.
      by erewrite bind_ok; [|exact Hstep]. }
    unfold result, run. rewrite Hrev. cbn [fst snd].
    split; [done|]. split; [unfold pending; by rewrite Hp|].
    split; [|done]. unfold snoozed. by rewrite Hsn, Hc.
  - intros Hgt st1. subst st1.
    rewrite bool_decide_eq_true_2 in Hstep, Hp, Hsn by done.
    unfold result, run. rewrite Hstep. cbn [fst snd].
    split; [done|]. split; [unfold pending; by rewrite Hp|].
    split; [|done]. unfold snoozed. by rewrite Hsn.
  - intros st2 args2 cmd2 r2. apply review_no_license_query.
Qed.

Lemma license_precheck_witness :
  pending (run (review interactive "octo/tool" None) st_unlicensed) = ∅
  ∧ snoozed (run (review interactive "octo/tool" None) st_unlicensed)
    = {[ "octo/tool" := 1000 ]}
  ∧ trace (run (review interactive "octo/tool" None) st_unlicensed)
    = [EGet SEARCH_CODE_URL (license_query example_repo) 1000].
Proof.
  destruct (license_precheck st_unlicensed interactive "octo/tool" None
              {[ "octo/tool" := example_repo ]} example_repo ∅
              (mkRateLimit 1 0) no_match_reply [] 29 1060 0 []
              eq_refl eq_refl eq_refl eq_refl eq_refl eq_refl eq_refl
              eq_refl eq_refl eq_refl eq_refl) as (_ & H & _).
  destruct H as (_ & Hp & Hs & Ht); [done|].
  split; [|split].
  - rewrite Hp. vm_compute. reflexivity.
  - rewrite Hs. vm_compute. reflexivity.
  - rewrite Ht. vm_compute. reflexivity.
Defined.

(* ===================================================================== *)
(** * Further properties of the program *)
(* ===================================================================== *)

From Stdlib Require Import Sorted.

(** ** class Data: the mapping protocol and the file *)


Lemma files_set_obj o d st : files (set_obj o d st) = files st.
Proof. by destruct o. Qed.

Lemma JSON_fresh o :
  JSON (fresh o)
  = PATH o +:+ "/" +:+ NAME +:+ "." +:+ class_name_lower o +:+ ".json".
Proof. done. Qed.

Lemma Data_init_eq o st :
  Data_init o st
  = (Ok tt,
     set_obj o (mkData (JSON (fresh o))
                  (match files st !! JSON (fresh o) with
                   | Some f => f ∪ DICT o
                   | None => DICT o
                   end) false) st).
Proof. done. Qed.

Lemma loaded_eq o st :
  loaded o st
  = match files st !! JSON (fresh o) with
    | Some f => f ∪ DICT o
    | None => DICT o
    end.
Proof. unfold loaded, run. rewrite Data_init_eq. cbn [snd]. by rewrite obj_set_obj. Qed.



(** X4: the round trip through the file.  A dirty store object whose path
    is the one of its class is saved; whatever happens to the rest of the
    state, an object constructed later from those files holds every key
    that was saved with the value it had, and the class default for a
    default key that had been deleted. *)
Theorem save_then_load (o : store) (st st2 : St) :
  updated (obj o st) = true →
  JSON (obj o st) = JSON (fresh o) →
  files st2 = files (run (save o) st) →
  (∀ k v, data (obj o st) !! k = Some v → loaded o st2 !! k = Some v)
  ∧ (∀ k, data (obj o st) !! k = None → loaded o st2 !! k = DICT o !! k)
  ∧ loaded o st2 = data (obj o st) ∪ DICT o
  ∧ updated (obj o (run (Data_init o) st2)) = false.
Proof.
  intros Hu Hpath Hfiles.
  assert (loaded o st2 = data (obj o st) ∪ DICT o) as Hl.
  { rewrite loaded_eq, Hfiles. unfold run. rewrite (save_dirty _ _ Hu).
    cbn [snd]. rewrite files_set_obj. cbn [files log_event set_files].
    rewrite Hpath. by rewrite lookup_insert_eq. }
  split_and!.
  - intros k v Hk. rewrite Hl. apply lookup_union_Some_l. exact Hk.
  - intros k Hk. rewrite Hl. rewrite lookup_union, Hk.
    by destruct (DICT o !! k).
  - exact Hl.
  - unfold run. rewrite Data_init_eq. cbn [snd]. by rewrite obj_set_obj.
Qed.

Lemma save_then_load_witness :
  loaded Cache (set_clock 5000 (run (save Cache) st_limited)) !! "api_rl_search"
  = Some (VRateLimit (mkRateLimit 0 1500)).
Proof.
  destruct (save_then_load Cache st_limited
              (set_clock 5000 (run (save Cache) st_limited))) as (H & _).
  - reflexivity.
  - reflexivity.
  - reflexivity.
  - apply H. reflexivity.
Defined.

(** ** class Repos: snooze and zap across runs *)

Lemma zap_eq st fn z :
  data (repos st) !! "zap" = Some (VStrs z) →
  zap fn st = (Ok tt, with_zap (z ++ [fn]) st).
Proof.
  intros Hz. unfold zap.
  erewrite bind_ok; [|by apply zap_list_eq].
  erewrite bind_ok; [|reflexivity].
  unfold set_updated, modify, with_zap. cbn [obj set_obj].
  reflexivity.
Qed.

Lemma snoozed_with_snooze m f st : snoozed (with_snooze m f st) = m.
Proof. unfold snoozed. by rewrite with_snooze_lookup. Qed.

Lemma zapped_with_snooze m f st : zapped (with_snooze m f st) = zapped st.
Proof.
  unfold zapped, with_snooze. cbn. by rewrite lookup_insert_ne.
Qed.

Lemma zapped_with_zap l st : zapped (with_zap l st) = l.
Proof. unfold zapped, with_zap. cbn. by rewrite lookup_insert_eq. Qed.

Lemma snoozed_with_zap l st : snoozed (with_zap l st) = snoozed st.
Proof. unfold snoozed, with_zap. cbn. by rewrite lookup_insert_ne. Qed.

Lemma snoozed_eq st s :
  data (repos st) !! "snooze" = Some (VTimes s) → snoozed st = s.
Proof. unfold snoozed. by intros ->. Qed.

Lemma zapped_eq st z :
  data (repos st) !! "zap" = Some (VStrs z) → zapped st = z.
Proof. unfold zapped. by intros ->. Qed.

(** X5: [Repos.snooze(fn)] and [Repos.zap(fn)] on a well-formed watchlist.
    After either, [fn in repos] is true and the membership of every other
    name is as before; the store is dirty, nothing is written yet and the
    cache is untouched.  [snooze] records the current clock, replacing the
    time of a name that was snoozed already; [zap] appends the name to the
    list, also when the list holds it already. *)
Theorem snooze_zap_then_contains (fn : string) (st : St)
    (s : gmap string Z) (z : list string) :
  data (repos st) !! "snooze" = Some (VTimes s) →
  data (repos st) !! "zap" = Some (VStrs z) →
  let st1 := run (snooze fn) st in
  let st2 := run (zap fn) st in
  (result (snooze fn) st = Ok tt
   ∧ Repos_contains fn st1 = (Ok true, st1)
   ∧ snoozed st1 = <[fn := clock st]> s
   ∧ zapped st1 = z
   ∧ (∀ fn', fn' ≠ fn →
        result (Repos_contains fn') st1 = result (Repos_contains fn') st)
   ∧ updated (repos st1) = true
   ∧ cache st1 = cache st ∧ files st1 = files st ∧ trace st1 = trace st)
  ∧ (result (zap fn) st = Ok tt
     ∧ Repos_contains fn st2 = (Ok true, st2)
     ∧ zapped st2 = z ++ [fn]
     ∧ snoozed st2 = s
     ∧ (∀ fn', fn' ≠ fn →
          result (Repos_contains fn') st2 = result (Repos_contains fn') st)
     ∧ updated (repos st2) = true
     ∧ cache st2 = cache st ∧ files st2 = files st ∧ trace st2 = trace st).
Proof.
  intros Hs Hz st1 st2. subst st1 st2. unfold run, result.
  rewrite (snooze_eq _ _ _ Hs), (zap_eq _ _ _ Hz). cbn [fst snd].
  split.
  - assert (data (repos (with_snooze (<[fn := clock st]> s) true st)) !! "zap"
            = Some (VStrs z)) as Hz'.
    { unfold with_snooze. cbn. by rewrite lookup_insert_ne. }
    split_and!; try done.
    + erewrite Repos_contains_eq; [|apply with_snooze_lookup|exact Hz'].
      rewrite lookup_insert_eq. by rewrite bool_decide_eq_true_2.
    + apply snoozed_with_snooze.
    + by apply zapped_eq.
    + intros fn' Hne.
      erewrite Repos_contains_eq; [|apply with_snooze_lookup|exact Hz'].
      erewrite (Repos_contains_eq st); [|exact Hs|exact Hz].
      cbn [fst]. by rewrite lookup_insert_ne.
  - assert (data (repos (with_zap (z ++ [fn]) st)) !! "snooze"
            = Some (VTimes s)) as Hs'.
    { unfold with_zap. cbn. by rewrite lookup_insert_ne. }
    assert (data (repos (with_zap (z ++ [fn]) st)) !! "zap"
            = Some (VStrs (z ++ [fn]))) as Hz'.
    { unfold with_zap. cbn. by rewrite lookup_insert_eq. }
    split_and!; try done.
    + erewrite Repos_contains_eq; [|exact Hs'|exact Hz'].
      rewrite (bool_decide_eq_true_2 (fn ∈ z ++ [fn])).
      * by rewrite orb_true_r.
      * apply elem_of_app. right. apply list_elem_of_singleton. done.
    + by apply zapped_eq.
    + by apply snoozed_eq.
    + intros fn' Hne.
      erewrite Repos_contains_eq; [|exact Hs'|exact Hz'].
      erewrite (Repos_contains_eq st); [|exact Hs|exact Hz].
      cbn [fst]. do 2 f_equal. apply bool_decide_ext.
      rewrite elem_of_app, list_elem_of_singleton. tauto.
Qed.

Lemma snooze_zap_then_contains_witness :
  result (Repos_contains "octo/tool") st_fresh = Ok false
  ∧ result (Repos_contains "octo/tool") (run (snooze "octo/tool") st_fresh)
    = Ok true
  ∧ zapped (run (zap "octo/tool") (run (zap "octo/tool") st_fresh))
    = ["octo/tool"; "octo/tool"].
Proof.
  destruct (snooze_zap_then_contains "octo/tool" st_fresh ∅ [] eq_refl eq_refl)
    as ((_ & H1 & _) & _ & _ & H2 & _).
  destruct (snooze_zap_then_contains "octo/tool"
              (run (zap "octo/tool") st_fresh) ∅ ["octo/tool"]
              eq_refl eq_refl)
    as (_ & _ & _ & H3 & _).
  split; [reflexivity|]. split.
  - unfold result. by rewrite H1.
  - exact H3.
Defined.

Lemma loaded_after_save st st2 :
  updated (repos st) = true →
  JSON (repos st) = JSON (fresh Repos) →
  files st2 = files (run (save Repos) st) →
  loaded Repos st2 = data (repos st) ∪ DICT Repos.
Proof.
  intros Hu Hpath Hfiles.
  rewrite loaded_eq, Hfiles. unfold run.
  rewrite (save_dirty Repos _ Hu). cbn [snd obj].
  rewrite (files_set_obj Repos). cbn [files log_event set_files].
  rewrite Hpath. by rewrite lookup_insert_eq.
Qed.

Lemma Repos_init_zap st m' flag :
  Repos_init st = (Ok tt, with_snooze m' flag (run (Data_init Repos) st)) →
  data (repos (run Repos_init st)) !! "zap" = loaded Repos st !! "zap".
Proof.
  intros H. unfold run at 1. rewrite H. cbn [snd].
  unfold with_snooze. cbn. by rewrite lookup_insert_ne.
Qed.

(** X6: a snooze across runs.  [fn] is snoozed at clock [T] and the
    watchlist saved; a later run constructs the watchlist from those files
    at clock [T'] with [snooze_seconds = S].  The entry is there, with time
    [T], when [T' - T < S] and gone otherwise; [fn in repos] is then true
    exactly when the entry is there or the name is zapped. *)
Theorem snooze_then_restart (fn : string) (st st2 : St)
    (s : gmap string Z) (z : list string) (S : Z) :
  data (repos st) !! "snooze" = Some (VTimes s) →
  data (repos st) !! "zap" = Some (VStrs z) →
  JSON (repos st) = JSON (fresh Repos) →
  files st2 = files (run (snooze fn;; save Repos) st) →
  data (config st2) !! "snooze_seconds" = Some (VInt S) →
  let st3 := run Repos_init st2 in
  result Repos_init st2 = Ok tt
  ∧ snoozed st3 !! fn
    = (if bool_decide (clock st2 - clock st < S) then Some (clock st)
       else None)
  ∧ zapped st3 = z
  ∧ Repos_contains fn st3
    = (Ok (bool_decide (clock st2 - clock st < S) || bool_decide (fn ∈ z)),
       st3).
Proof.
  intros Hs Hz Hpath Hfiles HS st3.
  erewrite run_bind_ok in Hfiles; [|by apply snooze_eq].
  set (st1 := with_snooze (<[fn := clock st]> s) true st) in *.
  assert (loaded Repos st2 = data (repos st1) ∪ DICT Repos) as Hl.
  { apply loaded_after_save; done. }
  assert (loaded Repos st2 !! "snooze"
          = Some (VTimes (<[fn := clock st]> s))) as Hls.
  { rewrite Hl. apply lookup_union_Some_l. apply with_snooze_lookup. }
  assert (loaded Repos st2 !! "zap" = Some (VStrs z)) as Hlz.
  { rewrite Hl. apply lookup_union_Some_l. subst st1.
    unfold with_snooze. cbn. by rewrite lookup_insert_ne. }
  destruct (Repos_init_eq st2 S _ HS Hls) as (m' & flag & Hinit & Hm').
  assert (data (repos st3) !! "zap" = Some (VStrs z)) as Hz3.
  { subst st3. by rewrite (Repos_init_zap _ _ _ Hinit). }
  assert (data (repos st3) !! "snooze" = Some (VTimes m')) as Hs3.
  { subst st3. unfold run at 1. rewrite Hinit. apply with_snooze_lookup. }
  assert (m' !! fn = if bool_decide (clock st2 - clock st < S)
                     then Some (clock st) else None) as Hfn.
  { rewrite Hm', lookup_insert_eq.
    repeat case_bool_decide; (done || lia). }
  split_and!.
  - unfold result. by rewrite Hinit.
  - by rewrite (snoozed_eq _ _ Hs3).
  - by apply zapped_eq.
  - rewrite (Repos_contains_eq _ _ _ _ Hs3 Hz3). do 3 f_equal.
    rewrite Hfn. by case_bool_decide.
Qed.

Lemma snooze_then_restart_witness :
  snoozed (run Repos_init
             (set_clock 1500 (run (snooze "octo/tool";; save Repos) st_fresh)))
    !! "octo/tool" = Some 1000
  ∧ snoozed (run Repos_init
               (set_clock 700000
                  (run (snooze "octo/tool";; save Repos) st_fresh)))
      !! "octo/tool" = None.
Proof.
  split.
  - apply (snooze_then_restart "octo/tool" st_fresh
             (set_clock 1500 (run (snooze "octo/tool";; save Repos) st_fresh))
             ∅ [] (7 * 86400)); reflexivity.
  - apply (snooze_then_restart "octo/tool" st_fresh
             (set_clock 700000
                (run (snooze "octo/tool";; save Repos) st_fresh))
             ∅ [] (7 * 86400)); reflexivity.
Defined.

(** X7: a zap is permanent.  [fn] is zapped and the watchlist saved; a later
    run that constructs the watchlist from those files, at whatever clock
    and with whatever snooze length, holds [fn] on the zap list and answers
    [fn in repos] with true. *)
Theorem zap_then_restart (fn : string) (st st2 : St)
    (s : gmap string Z) (z : list string) (S : Z) :
  data (repos st) !! "snooze" = Some (VTimes s) →
  data (repos st) !! "zap" = Some (VStrs z) →
  JSON (repos st) = JSON (fresh Repos) →
  files st2 = files (run (zap fn;; save Repos) st) →
  data (config st2) !! "snooze_seconds" = Some (VInt S) →
  let st3 := run Repos_init st2 in
  result Repos_init st2 = Ok tt
  ∧ zapped st3 = z ++ [fn]
  ∧ Repos_contains fn st3 = (Ok true, st3).
Proof.
  intros Hs Hz Hpath Hfiles HS st3.
  erewrite run_bind_ok in Hfiles; [|by apply zap_eq].
  set (st1 := with_zap (z ++ [fn]) st) in *.
  assert (loaded Repos st2 = data (repos st1) ∪ DICT Repos) as Hl.
  { apply loaded_after_save; done. }
  assert (loaded Repos st2 !! "snooze" = Some (VTimes s)) as Hls.
  { rewrite Hl. apply lookup_union_Some_l. subst st1.
    unfold with_zap. cbn. by rewrite lookup_insert_ne. }
  assert (loaded Repos st2 !! "zap" = Some (VStrs (z ++ [fn]))) as Hlz.
  { rewrite Hl. apply lookup_union_Some_l. subst st1.
    unfold with_zap. cbn. by rewrite lookup_insert_eq. }
  destruct (Repos_init_eq st2 S _ HS Hls) as (m' & flag & Hinit & Hm').
  assert (data (repos st3) !! "zap" = Some (VStrs (z ++ [fn]))) as Hz3.
  { subst st3. by rewrite (Repos_init_zap _ _ _ Hinit). }
  assert (data (repos st3) !! "snooze" = Some (VTimes m')) as Hs3.
  { subst st3. unfold run at 1. rewrite Hinit. apply with_snooze_lookup. }
  split_and!.
  - unfold result. by rewrite Hinit.
  - by apply zapped_eq.
  - rewrite (Repos_contains_eq _ _ _ _ Hs3 Hz3). do 2 f_equal.
    rewrite (bool_decide_eq_true_2 (fn ∈ z ++ [fn])).
    + apply orb_true_r.
    + apply elem_of_app. right. by apply list_elem_of_singleton.
Qed.

Lemma zap_then_restart_witness :
  zapped (run Repos_init
            (set_clock 99000000 (run (zap "octo/tool";; save Repos) st_fresh)))
  = ["octo/tool"].
Proof.
  apply (zap_then_restart "octo/tool" st_fresh
           (set_clock 99000000 (run (zap "octo/tool";; save Repos) st_fresh))
           ∅ [] (7 * 86400)); reflexivity.
Defined.

(** ** Cache.gh_req: failures and composition *)

Lemma gh_req_request st URL raise_error query rl :
  rate_limit_state st URL = Some rl →
  ∃ st1 k,
    gh_req URL raise_error query st
    = (r ← requests_get URL query; k r) st1
    ∧ (∀ rest, requested st URL query rl rest
               = set_net rest (log_event (EGet URL query (clock st1)) st1))
    ∧ net st1 = net st
    ∧ k = (λ r,
        remaining ← header_int (x_ratelimit_remaining r);
        let rl1 := mkRateLimit remaining (reset rl) in
        when_ (bool_decide (is_Some (data (cache st) !! rl_type URL)))
          (mutate Cache (rl_type URL) (VRateLimit rl1));;
        reset_at ← header_int (x_ratelimit_reset r);
        let rl2 := mkRateLimit (remain rl1) reset_at in
        when_ (bool_decide (is_Some (data (cache st) !! rl_type URL)))
          (mutate Cache (rl_type URL) (VRateLimit rl2));;
        setitem Cache (rl_type URL) (VRateLimit rl2);;
        when_ raise_error (raise_for_status r);;
        ret r).
Proof.
  intros Hrl%rate_limit_state_default.
  unfold gh_req.
  erewrite bind_ok; [|reflexivity].
  erewrite bind_ok; [|reflexivity].
  change (obj Cache st) with (cache st). rewrite Hrl.
  erewrite bind_ok; [|reflexivity].
  erewrite bind_ok; [|apply wait_for_reset_eq].
  set (st1 := if bool_decide (remain rl = 0 ∧ clock st < reset rl) then _ else _).
  eexists st1, _. split; [reflexivity|]. split; [|split; [|reflexivity]].
  - intros rest. subst st1. unfold requested.
    destruct (bool_decide _); unfold_st; cbn; rewrite <- ?app_assoc; done.
  - subst st1. by destruct (bool_decide _).
Qed.

(** X8: [gh_req] when [requests.get] does not answer.  When it raises
    (a time-out, a connection error), [gh_req] raises the same exception;
    when the network is silent, [gh_req] never returns.  In both cases the
    gate has been passed and the request issued, and the three stores, the
    rate-limit state among them, are as they were. *)
Theorem gh_req_network_failure (st : St) (URL : string) (raise_error : bool)
    (query : option string) (rl : RateLimit) :
  rate_limit_state st URL = Some rl →
  (∀ e rest, net st = Fails e :: rest →
     gh_req URL raise_error query st
     = (Raise e, requested st URL query rl rest))
  ∧ (net st = [] →
     gh_req URL raise_error query st
     = (Blocked, requested st URL query rl []))
  ∧ ∀ rest, cache (requested st URL query rl rest) = cache st
            ∧ repos (requested st URL query rl rest) = repos st
            ∧ config (requested st URL query rl rest) = config st
            ∧ rate_limit_state (requested st URL query rl rest) URL = Some rl.
Proof.
  intros Hrl.
  destruct (gh_req_request st URL raise_error query rl Hrl)
    as (st1 & k & -> & Hreq & Hnet & _).
  split_and!.
  - intros e rest Hn. rewrite Hreq.
    apply bind_raise. unfold requests_get. by rewrite Hnet, Hn.
  - intros Hn. rewrite Hreq.
    apply bind_blocked. unfold requests_get. rewrite Hnet, Hn.
    f_equal. rewrite Hn in Hnet. unfold_st. cbn. by rewrite Hnet.
  - intros rest. done.
Qed.

Lemma gh_req_network_failure_witness :
  gh_req SEARCH_CODE_URL true None (set_net [Fails RequestTimeout] st_limited)
  = (Raise RequestTimeout,
     requested (set_net [Fails RequestTimeout] st_limited) SEARCH_CODE_URL
       None (mkRateLimit 0 1500) []).
Proof.
  destruct (gh_req_network_failure
              (set_net [Fails RequestTimeout] st_limited) SEARCH_CODE_URL true
              None (mkRateLimit 0 1500) eq_refl) as (H & _).
  apply H. reflexivity.
Defined.

(** X9: [gh_req] on a response that lacks a rate-limit header raises
    [KeyError].  Without [X-RateLimit-Remaining] the stores are as they
    were.  With it but without [X-RateLimit-Reset], a rate-limit state that
    was stored has been mutated in place: it holds the new [remain] beside
    the old [reset], although the store is not marked dirty by the call; a
    state that was not stored is not created. *)
Theorem gh_req_missing_header (st : St) (URL : string) (raise_error : bool)
    (query : option string) (rl : RateLimit) (r : Response)
    (rest : list Reply) :
  rate_limit_state st URL = Some rl →
  net st = Answer r :: rest →
  let st' := run (gh_req URL raise_error query) st in
  (x_ratelimit_remaining r = None →
   gh_req URL raise_error query st
   = (Raise KeyError, requested st URL query rl rest))
  ∧ (∀ remaining,
       x_ratelimit_remaining r = Some remaining →
       x_ratelimit_reset r = None →
       result (gh_req URL raise_error query) st = Raise KeyError
       ∧ updated (cache st') = updated (cache st)
       ∧ (data (cache st) !! rl_type URL = None → cache st' = cache st)
       ∧ (is_Some (data (cache st) !! rl_type URL) →
          data (cache st') !! rl_type URL
          = Some (VRateLimit (mkRateLimit remaining (reset rl)))
          ∧ ∀ k, k ≠ rl_type URL →
                 data (cache st') !! k = data (cache st) !! k)).
Proof.
  intros Hrl Hnet st'.
  destruct (gh_req_request st URL raise_error query rl Hrl)
    as (st1 & k & Hgh & Hreq & Hnet1 & ->).
  assert (requests_get URL query st1
          = (Ok r, requested st URL query rl rest)) as Hget.
  { rewrite Hreq. unfold requests_get. by rewrite Hnet1, Hnet. }
  assert (cache (requested st URL query rl rest) = cache st) as Hc by done.
  split.
  - intros Hrem. rewrite Hgh.
    erewrite bind_ok; [|exact Hget]. by rewrite Hrem.
  - intros remaining Hrem Hrst. subst st'. unfold result, run. rewrite Hgh.
    erewrite bind_ok; [|exact Hget]. rewrite Hrem, Hrst.
    erewrite bind_ok; [|reflexivity].
    set (st2 := requested st URL query rl rest) in *.
    destruct (data (cache st) !! rl_type URL) as [v|] eqn:Hst.
    + rewrite bool_decide_eq_true_2 by done.
      erewrite bind_ok; [|reflexivity]. cbn [fst snd].
      cbn [obj set_obj set_cache cache data updated]. rewrite Hc.
      split_and!; try done.
      intros _. split; [apply lookup_insert_eq|].
      intros k Hk. by apply lookup_insert_ne.
    + rewrite bool_decide_eq_false_2 by (by intros [? ?]).
      erewrite bind_ok; [|reflexivity]. cbn [fst snd].
      split_and!; done.
Qed.

Lemma gh_req_missing_header_witness :
  result (gh_req SEARCH_CODE_URL true None)
    (set_net [Answer (mkResponse 200 (Some 7) None NotJSON)] st_limited)
  = Raise KeyError
  ∧ data (cache (run (gh_req SEARCH_CODE_URL true None)
                   (set_net [Answer (mkResponse 200 (Some 7) None NotJSON)]
                      st_limited))) !! "api_rl_search"
    = Some (VRateLimit (mkRateLimit 7 1500)).
Proof.
  destruct (gh_req_missing_header
              (set_net [Answer (mkResponse 200 (Some 7) None NotJSON)]
                 st_limited)
              SEARCH_CODE_URL true None (mkRateLimit 0 1500)
              (mkResponse 200 (Some 7) None NotJSON) [] eq_refl eq_refl)
    as (_ & H).
  destruct (H 7 eq_refl eq_refl) as (H1 & _ & _ & H2).
  split; [exact H1|]. apply H2. by eexists.
Defined.

Lemma rate_limit_state_answered st URL query rl rest remaining reset_at URL' :
  rate_limit_state (answered st URL query rl rest remaining reset_at) URL'
  = if decide (rl_type URL' = rl_type URL)
    then Some (mkRateLimit remaining reset_at)
    else rate_limit_state st URL'.
Proof.
  unfold rate_limit_state, answered. cbn [cache data].
  destruct (decide _) as [->|Hne].
  - by rewrite lookup_insert_eq.
  - by rewrite lookup_insert_ne.
Qed.

(** X10: how two calls of [gh_req] compose.  A response that carries both
    headers sets the rate-limit state of the class of its URL, also when
    [gh_req] then raises for the status; the state of the other class is as
    it was.  So the next request of the same class is issued at once when
    requests remain or the reset time has passed, and otherwise after a
    sleep that ends at the reset time the response announced. *)
Theorem gh_req_then_gh_req (st : St) (URL : string) (raise_error : bool)
    (query : option string) (rl : RateLimit) (r : Response)
    (rest : list Reply) (remaining reset_at : Z) :
  rate_limit_state st URL = Some rl →
  net st = Answer r :: rest →
  x_ratelimit_remaining r = Some remaining →
  x_ratelimit_reset r = Some reset_at →
  let st1 := run (gh_req URL raise_error query) st in
  (∀ URL', rl_type URL' = rl_type URL →
     rate_limit_state st1 URL' = Some (mkRateLimit remaining reset_at))
  ∧ (∀ URL', rl_type URL' ≠ rl_type URL →
       rate_limit_state st1 URL' = rate_limit_state st URL')
  ∧ (∀ URL' raise_error' query', rl_type URL' = rl_type URL →
       trace (run (gh_req URL' raise_error' query') st1)
       = trace st1
         ++ (if bool_decide (remaining = 0 ∧ clock st1 < reset_at)
             then [ESleep (reset_at - clock st1); EGet URL' query' reset_at]
             else [EGet URL' query' (clock st1)])).
Proof.
  intros Hrl Hnet Hrem Hrst st1.
  assert (st1 = answered st URL query rl rest remaining reset_at) as Hst1.
  { subst st1. unfold run.
    by rewrite (gh_req_answered _ _ _ _ _ _ _ _ _ Hrl Hnet Hrem Hrst). }
  assert (∀ URL', rl_type URL' = rl_type URL →
     rate_limit_state st1 URL' = Some (mkRateLimit remaining reset_at)) as Hsame.
  { intros URL' Heq. rewrite Hst1, rate_limit_state_answered.
    by rewrite decide_True. }
  split_and!.
  - exact Hsame.
  - intros URL' Hne. rewrite Hst1, rate_limit_state_answered.
    by rewrite decide_False.
  - intros URL' raise_error' query' Heq.
    by rewrite (gh_req_trace _ _ _ _ _ (Hsame URL' Heq)).
Qed.

Lemma gh_req_then_gh_req_witness :
  trace (run (gh_req SEARCH_CODE_URL true None)
           (run (gh_req SEARCH_REPO_URL true None)
              (set_net [Answer (mkResponse 403 (Some 0) (Some 1060) NotJSON)]
                 st_fresh)))
  = [EGet SEARCH_REPO_URL None 1000; ESleep 60; EGet SEARCH_CODE_URL None 1060].
Proof.
  destruct (gh_req_then_gh_req
              (set_net [Answer (mkResponse 403 (Some 0) (Some 1060) NotJSON)]
                 st_fresh)
              SEARCH_REPO_URL true None (mkRateLimit 1 0)
              (mkResponse 403 (Some 0) (Some 1060) NotJSON) [] 0 1060
              eq_refl eq_refl eq_refl eq_refl) as (_ & _ & H).
  pose proof (H SEARCH_CODE_URL true None eq_refl) as H'.
  vm_compute in H'. vm_compute. exact H'.
Defined.

(** ** Cache.fetch: failures *)

Lemma for_app {A} (l1 l2 : list A) body st :
  for_ (l1 ++ l2) body st = (for_ l1 body;; for_ l2 body) st.
Proof.
  revert st. induction l1 as [|x l1 IH]; intros st; [done|].
  cbn [app for_]. unfold mbind, M_bind, bind in *.
  destruct (body x st) as [[[]|e|] st1]; [|done..]. apply IH.
Qed.

Lemma cache_fetches_raise st :
  (∀ m, data (cache st) !! "fetches" ≠ Some (VTimes m)) →
  ∃ e, cache_fetches st = (Raise e, st).
Proof.
  intros Hm. unfold cache_fetches, getitem, as_times. unfold_m.
  change (obj Cache st) with (cache st).
  destruct (data (cache st) !! "fetches") as [[]|]; try by eexists.
  by edestruct Hm.
Qed.

Lemma due_or_skip (m : gmap string Z) now fetch :
  due m now fetch
  ∨ ∃ t, m !! key fetch = Some t ∧ now - interval fetch < t.
Proof.
  unfold due. destruct (m !! key fetch) as [t|]; [|by left].
  destruct (decide (now - interval fetch < t)); [right; by exists t|left; lia].
Qed.

Lemma fetch_source_not_returned f st :
  result (fetch_source f) st ≠ Ok tt →
  fetch_effect st (run (fetch_source f) st).
Proof.
  intros Hres.
  destruct (data (cache st) !! "fetches") as [v|] eqn:Hm.
  1: destruct v as [| | |m| | |].
  4:{ destruct (due_or_skip m (clock st) f) as [Hdue|(t & Ht & Hlt)].
    + unfold result, run in *.
      rewrite (fetch_source_due _ _ _ Hm Hdue) in *.
      destruct (routine f) as [c|] eqn:Hc; [|done].
      pose proof (routine_fetch_effect _ _ Hc st) as Heff. unfold run in Heff.
      unfold mbind, M_bind, bind in *.
      destruct (c st) as [[[]|e|] st1]; cbn [fst snd] in *; try done.
      exfalso. apply Hres.
      destruct Heff as (_ & _ & _ & _ & Hf & _).
      rewrite (stamp_eq _ _ m); [done|congruence].
    + exfalso. apply Hres. unfold result.
      by rewrite (fetch_source_skip _ _ _ _ Hm Ht Hlt). }
  all: destruct (cache_fetches_raise st) as (e & He); [congruence|];
    unfold run, fetch_source; (erewrite bind_raise; [|exact He]);
    reflexivity.
Qed.

Lemma pending_fetch_effect st st' fn r :
  fetch_effect st st' → pending st !! fn = Some r → pending st' !! fn = Some r.
Proof.
  intros (_ & _ & _ & _ & _ & H) Hr.
  destruct (H fn) as [->|(Hn & _)]; congruence.
Qed.

(** X11: a source is stamped only when its routine returned.  When the
    turn of [Cache.fetch] for a source does not return (an exception, a
    network that stays silent), the last-fetch timestamps, the watchlist
    and the configuration are as before and every pending record is still
    pending, so the source is due again on the next run.  The loop stops
    there: [Cache.fetch] ends as that turn ended, and the sources after it
    are not processed. *)
Theorem fetch_source_failure (f : Fetch) (st : St) :
  result (fetch_source f) st ≠ Ok tt →
  let st' := run (fetch_source f) st in
  fetched st' = fetched st
  ∧ repos st' = repos st
  ∧ config st' = config st
  ∧ (∀ fn r, pending st !! fn = Some r → pending st' !! fn = Some r)
  ∧ ∀ st0 before after,
      data (config st0) !! "fetches"
      = Some (VFetches (before ++ f :: after)) →
      for_ before fetch_source st0 = (Ok tt, st) →
      fetch st0 = fetch_source f st.
Proof.
  intros Hres st'.
  pose proof (fetch_source_not_returned f st Hres) as Heff.
  fold st' in Heff.
  split_and!.
  - destruct Heff as (_ & _ & _ & _ & Hf & _). unfold fetched. by rewrite Hf.
  - by destruct Heff as (_ & _ & _ & ? & _).
  - by destruct Heff as (? & _).
  - intros fn r. by apply pending_fetch_effect.
  - intros st0 before after Hcfg Hbefore. unfold fetch.
    erewrite bind_ok; [|by apply getitem_eq].
    erewrite bind_ok; [|reflexivity].
    rewrite for_app. erewrite bind_ok; [|exact Hbefore].
    cbn [for_]. unfold result in Hres. unfold mbind, M_bind, bind.
    by destruct (fetch_source f st) as [[[]|e|] st1].
Qed.

Lemma fetch_source_failure_witness :
  result (fetch_source search_source)
    (set_net [Answer (mkResponse 403 (Some 0) (Some 1060) NotJSON)] st_fresh)
  = Raise (HTTPError 403)
  ∧ fetched (run (fetch_source search_source)
               (set_net [Answer (mkResponse 403 (Some 0) (Some 1060) NotJSON)]
                  st_fresh))
    = ∅.
Proof.
  split; [reflexivity|].
  destruct (fetch_source_failure search_source
              (set_net [Answer (mkResponse 403 (Some 0) (Some 1060) NotJSON)]
                 st_fresh)) as (H & _).
  - vm_compute. discriminate.
  - rewrite H. reflexivity.
Defined.

(** X12: the program needs a configuration file.  The defaults of [Config]
    have no [fetches] entry, so a configuration constructed without a file,
    or from a file that lacks the entry, has none; [Cache.fetch] then raises
    [KeyError] at once, and so does [main] when it fetches (with [--force],
    or with an empty cache and no [--force-all]): nothing is requested,
    changed or written. *)
Theorem fetch_without_sources (st : St) :
  data (config st) !! "fetches" = None →
  fetch st = (Raise KeyError, st)
  ∧ (∀ args m,
       data (cache st) !! "repos" = Some (VRepos m) →
       force args = true ∨ (force_all args = false ∧ m = ∅) →
       main args st = (Raise KeyError, st))
  ∧ ∀ st0 : St,
      match files st0 !! JSON (fresh Config) with
      | Some f => f !! "fetches" = None
      | None => True
      end →
      loaded Config st0 !! "fetches" = None.
Proof.
  intros Hcfg.
  assert (fetch st = (Raise KeyError, st)) as Hfetch.
  { unfold fetch, getitem. unfold_m. cbn [obj]. by rewrite Hcfg. }
  split_and!.
  - exact Hfetch.
  - intros args m Hm [Hforce|[Hall ->]]; unfold main.
    + rewrite Hforce. erewrite bind_raise; [done|exact Hfetch].
    + rewrite Hall. destruct (force args).
      * erewrite bind_raise; [done|exact Hfetch].
      * erewrite bind_raise; [done|].
        erewrite bind_ok; [|by apply cache_repos_eq].
        rewrite bool_decide_eq_true_2 by done. exact Hfetch.
  - intros st0 Hfile. rewrite loaded_eq.
    destruct (files st0 !! JSON (fresh Config)) as [f|]; [|done].
    rewrite lookup_union, Hfile. done.
Qed.

Lemma fetch_without_sources_witness :
  main interactive st_fresh = (Raise KeyError, st_fresh).
Proof.
  destruct (fetch_without_sources st_fresh eq_refl) as (_ & H & _).
  apply (H interactive ∅); [reflexivity|]. right. split; reflexivity.
Defined.

(** X13: a search that the server answers with an error status.  The
    source is due, its type is [search] and the response carries both
    rate-limit headers and a 4xx or 5xx status.  The turn of [Cache.fetch]
    raises [HTTPError] with that status: the pending cache and the
    last-fetch timestamps are as before, and the rate-limit state of the
    search class is the one the response announced. *)
Theorem fetch_search_http_error (f : Fetch) (st : St) (query : string)
    (rl : RateLimit) (resp : Response) (rest : list Reply)
    (remaining reset_at : Z) (m : gmap string Z) :
  type f = "search" →
  q f = Some query →
  data (cache st) !! "fetches" = Some (VTimes m) →
  due m (clock st) f →
  rate_limit_state st SEARCH_REPO_URL = Some rl →
  net st = Answer resp :: rest →
  x_ratelimit_remaining resp = Some remaining →
  x_ratelimit_reset resp = Some reset_at →
  400 ≤ status_code resp < 600 →
  let st' := run (fetch_source f) st in
  fetch_source f st
  = (Raise (HTTPError (status_code resp)),
     answered st SEARCH_REPO_URL (Some query) rl rest remaining reset_at)
  ∧ pending st' = pending st
  ∧ fetched st' = m
  ∧ repos st' = repos st
  ∧ rate_limit_state st' SEARCH_CODE_URL = Some (mkRateLimit remaining reset_at).
Proof.
  intros Htype Hq Hm Hdue Hrl Hnet Hrem Hrst Hstatus st'.
  assert (fetch_source f st
          = (Raise (HTTPError (status_code resp)),
             answered st SEARCH_REPO_URL (Some query) rl rest remaining
               reset_at)) as Hrun.
  { rewrite (fetch_source_due _ _ _ Hm Hdue). unfold routine.
    rewrite decide_True by done.
    apply bind_raise. unfold fetch_search. rewrite Hq.
    erewrite bind_ok; [|reflexivity].
    apply bind_raise.
    rewrite (gh_req_answered _ _ _ _ _ _ _ _ _ Hrl Hnet Hrem Hrst).
    by rewrite (proj2 (is_http_error_spec _) Hstatus). }
  subst st'. unfold run. rewrite Hrun. cbn [snd].
  split_and!.
  - done.
  - unfold pending, answered. cbn [cache data].
    rewrite lookup_insert_ne; [done|]. apply rl_type_not_repos.
  - unfold fetched, answered. cbn [cache data].
    rewrite lookup_insert_ne; [by rewrite Hm|]. apply rl_type_not_repos.
  - done.
  - rewrite rate_limit_state_answered. by rewrite decide_True.
Qed.

Lemma fetch_search_http_error_witness :
  fetch_source search_source
    (set_net [Answer (mkResponse 403 (Some 0) (Some 1060) NotJSON)] st_fresh)
  = (Raise (HTTPError 403),
     answered
       (set_net [Answer (mkResponse 403 (Some 0) (Some 1060) NotJSON)] st_fresh)
       SEARCH_REPO_URL (Some "stars:>500") (mkRateLimit 1 0) [] 0 1060).
Proof.
  apply (fetch_search_http_error search_source
           (set_net [Answer (mkResponse 403 (Some 0) (Some 1060) NotJSON)]
              st_fresh)
           "stars:>500" (mkRateLimit 1 0)
           (mkResponse 403 (Some 0) (Some 1060) NotJSON) [] 0 1060 ∅);
    try reflexivity.
  cbn. lia.
Defined.

(** ** Cache.fetch_cghp: the retry loop *)

Lemma sleep_RETRY st :
  sleep RETRY st
  = (Ok tt, set_clock (clock st + RETRY) (log_event (ESleep RETRY) st)).
Proof. done. Qed.

Lemma cghp_attempt_retry st x rest :
  net st = x :: rest →
  retried x = true →
  cghp_attempt st
  = (Ok None,
     set_clock (clock st + RETRY)
       (log_event (ESleep RETRY)
          (set_net rest (log_event (EGet CGHP_URL None (clock st)) st)))).
Proof.
  intros Hnet Hx. unfold cghp_attempt, try_except.
  destruct x as [r|e]; cbn [retried] in Hx.
  - erewrite bind_ok; [|unfold requests_get; rewrite Hnet; reflexivity].
    unfold json. destruct (body r); done.
  - erewrite bind_raise; [|unfold requests_get; rewrite Hnet; reflexivity].
    rewrite Hx. erewrite bind_ok; [|apply sleep_RETRY]. reflexivity.
Qed.

Lemma cghp_attempt_answer st r rest :
  net st = Answer r :: rest →
  retried (Answer r) = false →
  cghp_attempt st
  = (match body r with
     | NotJSON => Raise ValueError
     | _ => Ok (Some (body r))
     end,
     set_net rest (log_event (EGet CGHP_URL None (clock st)) st)).
Proof.
  intros Hnet Hx. unfold cghp_attempt, try_except. cbn [retried] in Hx.
  erewrite bind_ok; [|unfold requests_get; rewrite Hnet; reflexivity].
  unfold json. destruct (body r); try done.
Qed.

Lemma cghp_poll_retries r rest failures : ∀ st n,
  net st = failures ++ Answer r :: rest →
  forallb retried failures = true →
  retried (Answer r) = false →
  (length failures < n)%nat →
  cghp_poll n st
  = (match body r with
     | NotJSON => Raise ValueError
     | _ => Ok (body r)
     end,
     polled st (length failures) rest).
Proof.
  induction failures as [|x failures IH]; intros st n Hnet Hall Hr Hn.
  - destruct n as [|n]; [cbn in Hn; lia|]. cbn [cghp_poll].
    pose proof (cghp_attempt_answer st r rest Hnet Hr) as Hat.
    assert (set_net rest (log_event (EGet CGHP_URL None (clock st)) st)
            = polled st 0 rest) as Hst.
    { unfold polled. cbn [length attempts app]. unfold_st.
      replace (clock st + RETRY * Z.of_nat 0) with (clock st) by (cbn; lia).
      done. }
    rewrite Hst in Hat.
    destruct (body r) eqn:Hb.
    + by erewrite bind_raise; [|exact Hat].
    + by erewrite bind_ok; [|exact Hat].
    + by erewrite bind_ok; [|exact Hat].
    + by erewrite bind_ok; [|exact Hat].
    + by erewrite bind_ok; [|exact Hat].
  - destruct n as [|n]; [cbn in Hn; lia|]. cbn [cghp_poll].
    cbn [forallb] in Hall. apply andb_true_iff in Hall as [Hx Hall].
    erewrite bind_ok; [|by eapply cghp_attempt_retry].
    cbv beta iota. set (st1 := set_clock _ _).
    rewrite (IH st1 n); [|done|done|done|cbn in Hn; lia].
    f_equal. subst st1. unfold polled. cbn [length attempts].
    unfold_st. cbn.
    replace (clock st + RETRY + RETRY * Z.of_nat (length failures))
      with (clock st + RETRY * Z.pos (Pos.of_succ_nat (length failures)))
      by lia.
    f_equal. rewrite <- !app_assoc. done.
Qed.

(** X14: the retry loop of [fetch_cghp].  The network answers [k] attempts
    with something the loop retries on (a caught exception, a body with an
    [error] entry) and the next with a listing.  Then [fetch_cghp] waits
    [RETRY] seconds after each of the [k] attempts, issues [k + 1] requests,
    and processes the children of the listing in a state whose stores are
    untouched.  A body that is not JSON is not retried: [ValueError]. *)
Theorem fetch_cghp_retries (f : Fetch) (st : St) (failures : list Reply)
    (r : Response) (rest : list Reply) :
  net st = failures ++ Answer r :: rest →
  forallb retried failures = true →
  let k := length failures in
  let st1 := polled st k rest in
  (∀ children,
     body r = Listing children →
     fetch_cghp f st
     = (langs ← accept_languages; for_ children (cghp_child langs)) st1)
  ∧ (body r = NotJSON → fetch_cghp f st = (Raise ValueError, st1))
  ∧ clock st1 = clock st + RETRY * Z.of_nat k
  ∧ trace st1
    = trace st ++ attempts CGHP_URL None (clock st) k
      ++ [EGet CGHP_URL None (clock st1)]
  ∧ cache st1 = cache st ∧ repos st1 = repos st ∧ config st1 = config st.
Proof.
  intros Hnet Hall k st1.
  assert (∀ b, body r = b → retried (Answer r) = false →
     cghp_poll (S (length (net st))) st
     = (match b with NotJSON => Raise ValueError | _ => Ok b end, st1))
    as Hpoll.
  { intros b <- Hr. apply cghp_poll_retries; try done.
    rewrite Hnet, length_app. cbn [length]. lia. }
  split_and!; try done.
  - intros children Hb. unfold fetch_cghp.
    erewrite bind_ok; [|reflexivity].
    erewrite bind_ok; [|apply (Hpoll _ Hb); cbn; by rewrite Hb].
    reflexivity.
  - intros Hb. unfold fetch_cghp.
    erewrite bind_ok; [|reflexivity].
    erewrite bind_raise; [done|]. apply (Hpoll _ Hb). cbn. by rewrite Hb.
Qed.

Lemma fetch_cghp_retries_witness :
  trace (run (fetch_cghp cghp_source) st_flaky)
  = [EGet CGHP_URL None 1000; ESleep 30; EGet CGHP_URL None 1030; ESleep 30;
     EGet CGHP_URL None 1060]
  ∧ user <$> pending (run (fetch_cghp cghp_source) st_flaky) !! "dave/fast-lib"
    = Some "dave".
Proof.
  destruct (fetch_cghp_retries cghp_source st_flaky
              [Fails RequestTimeout; Answer too_many_requests]
              (mkResponse 200 None None (Listing [fast_lib])) []
              eq_refl eq_refl) as (H & _).
  unfold run. rewrite (H [fast_lib] eq_refl).
  vm_compute. split; reflexivity.
Defined.

(** ** Cache.fetch_trend_lang: the record and malformed entries *)

Lemma split1_cases sep s :
  (Str.split1 sep s = [s] ∧ occurs sep s = false)
  ∨ ∃ a b, Str.split1 sep s = [a; b] ∧ s = a +:+ String sep b
           ∧ occurs sep a = false.
Proof.
  induction s as [|c s IH]; [by left|].
  cbn [Str.split1 occurs].
  destruct (Ascii.eqb c sep) eqn:Hc.
  - right. exists EmptyString, s. apply Ascii.eqb_eq in Hc as ->. done.
  - destruct IH as [[-> Ho]|(a & b & -> & -> & Ho)].
    + left. by rewrite Ho.
    + right. exists (String c a), b. cbn [occurs]. by rewrite Hc, Ho.
Qed.

Lemma prefix_char c a s :
  String.prefix (String c EmptyString) (String a s) = bool_decide (c = a).
Proof.
  cbn [String.prefix]. destruct (ascii_dec c a) as [->|Hne].
  - rewrite bool_decide_eq_true_2 by done. by destruct s.
  - by rewrite bool_decide_eq_false_2.
Qed.

Lemma split_from_char c s : ∀ p ps,
  Str.split_from (String c EmptyString) 0 s = (p, ps) →
  s = p +:+ join_after c ps
  ∧ occurs c p = false
  ∧ Forall (λ x, occurs c x = false) ps.
Proof.
  induction s as [|a s IH]; intros p ps.
  - intros [= <- <-]. done.
  - cbn [Str.split_from]. rewrite prefix_char.
    change (String.length (String c EmptyString) - 1)%nat with 0%nat.
    destruct (Str.split_from (String c EmptyString) 0 s) as [p' ps'].
    destruct (IH p' ps' eq_refl) as (-> & Hp & Hps).
    case_bool_decide as Hca.
    + intros [= <- <-]. subst a. split_and!; try done.
      by apply Forall_cons.
    + intros [= <- <-]. split_and!; try done.
      cbn [occurs]. rewrite Hp.
      destruct (Ascii.eqb a c) eqn:He; [|done].
      apply Ascii.eqb_eq in He. congruence.
Qed.

Lemma append_empty_r s : s +:+ EmptyString = s.
Proof.
  induction s as [|c s IH]; [done|].
  change (String c (s +:+ EmptyString) = String c s). by rewrite IH.
Qed.

(** X15: the record [fetch_trend_lang] builds from a feed entry.  When it
    builds one, the title of the entry is the full name, a space and a
    rest; the full name has no space and is [user/repo] with no slash in
    either part; the link of the entry is the URL of the record; the record
    has a language and a description and no [license] entry.  An entry
    whose title has no space raises [ValueError]. *)
Theorem trend_record_shape (r : Entry) :
  (∀ rec, trend_record r = Ok rec →
     (∃ rest, e_title r = full_name rec +:+ " " +:+ rest)
     ∧ full_name rec = user rec +:+ "/" +:+ repo rec
     ∧ occurs " " (full_name rec) = false
     ∧ occurs "/" (user rec) = false
     ∧ occurs "/" (repo rec) = false
     ∧ html_url rec = e_link r
     ∧ is_Some (language rec)
     ∧ is_Some (description rec)
     ∧ license rec = None)
  ∧ (occurs " " (e_title r) = false → trend_record r = Raise ValueError).
Proof.
  split.
  - intros rec. unfold trend_record.
    destruct (split1_cases " " (e_title r))
      as [[-> _]|(fn & lang & -> & Htitle & Hsp)]; [done|].
    destruct (Str.split " - " lang !! 1%nat) as [l|]; [|done].
    unfold Str.split.
    destruct (Str.split_from "/" 0 fn) as [p ps] eqn:Hsplit.
    destruct (split_from_char _ _ _ _ Hsplit) as (Hfn & Hp & Hps).
    destruct ps as [|p2 [|]]; try done.
    intros [= <-]. cbn [full_name user repo html_url language description
                        license].
    apply Forall_cons in Hps as [Hp2 _].
    split_and!; try done.
    + by exists lang.
    + rewrite Hfn. cbn [join_after foldr]. by rewrite append_empty_r.
  - intros Ho. unfold trend_record.
    destruct (split1_cases " " (e_title r))
      as [[-> _]|(fn & lang & _ & Htitle & Hsp)]; [done|].
    exfalso. rewrite Htitle in Ho. clear -Ho.
    induction fn as [|c fn IH]; cbn in Ho.
    + done.
    + apply orb_false_iff in Ho as [_ Ho]. by apply IH.
Qed.

#[global] Instance unchanged_refl {A} (f : St → A) : Reflexive (unchanged f).
Proof. by intros st. Qed.

#[global] Instance unchanged_trans {A} (f : St → A) : Transitive (unchanged f).
Proof. unfold unchanged. intros ??? H1 H2. by rewrite H2. Qed.

Lemma trend_entry_feeds r : preserved (unchanged feeds) (trend_entry r).
Proof. unfold_fetch. preserve; by unfold unchanged. Qed.

Lemma for_trend_entry_feeds l st :
  feeds (run (for_ l trend_entry) st) = feeds st.
Proof.
  apply (preserved_for (unchanged feeds)). intros r. apply trend_entry_feeds.
Qed.

(** X16: a malformed entry in a trend feed.  The entries before it have
    titles of the expected shape and it has not: [fetch_trend_lang] raises
    the exception of that entry, the entries before it have been considered
    and added as usual, and the entries after it are not looked at. *)
Theorem fetch_trend_lang_malformed_entry (st : St) (lang period : string)
    (good : list Entry) (bad : Entry) (more : list Entry)
    (rest : list (list Entry)) (e : exn)
    (m : gmap string Repo) (s : gmap string Z) (z : list string) :
  feeds st = (good ++ bad :: more) :: rest →
  Forall (λ r, ∃ rec, trend_record r = Ok rec) good →
  trend_record bad = Raise e →
  data (cache st) !! "repos" = Some (VRepos m) →
  data (repos st) !! "snooze" = Some (VTimes s) →
  data (repos st) !! "zap" = Some (VStrs z) →
  let st' := run (fetch_trend_lang lang period) st in
  result (fetch_trend_lang lang period) st = Raise e
  ∧ pending st' = foldl (add_entry st) m good
  ∧ feeds st' = rest
  ∧ trace st' = trace st ++ [EParse (RSS_URL_BASE lang period)].
Proof.
  intros Hfeed Hgood Hbad Hm Hs Hz st'.
  destruct (for_trend_entry st good
              (set_feeds rest
                 (log_event (EParse (RSS_URL_BASE lang period)) st))
              m s z) as (st2 & Hrun & _ & Hp); try done.
  assert (fetch_trend_lang lang period st = (Raise e, st2)) as Hall.
  { unfold fetch_trend_lang.
    erewrite bind_ok; [|unfold fp_parse; by rewrite Hfeed].
    rewrite for_app. erewrite bind_ok; [|exact Hrun].
    cbn [for_]. apply bind_raise. unfold trend_entry.
    apply bind_raise. by rewrite Hbad. }
  subst st'. unfold result, run. rewrite Hall. cbn [fst snd].
  split_and!.
  - done.
  - unfold pending. by rewrite Hp.
  - pose proof (for_trend_entry_feeds good
                  (set_feeds rest
                     (log_event (EParse (RSS_URL_BASE lang period)) st)))
      as Hf.
    unfold run in Hf. by rewrite Hrun in Hf.
  - rewrite <- (fetch_trend_lang_trace lang period st).
    unfold run. by rewrite Hall.
Qed.

Lemma fetch_trend_lang_malformed_entry_witness :
  result (fetch_trend_lang "haskell" "daily") st_broken_feed = Raise ValueError
  ∧ pending (run (fetch_trend_lang "haskell" "daily") st_broken_feed)
    = {[ "carol/engine" := engine_record ]}.
Proof.
  assert (Forall (λ r, ∃ rec, trend_record r = Ok rec) [trend_feed_entry])
    as Hall.
  { apply Forall_cons. split; [|by apply Forall_nil].
    exists engine_record. vm_compute. reflexivity. }
  destruct (fetch_trend_lang_malformed_entry st_broken_feed "haskell" "daily"
              [trend_feed_entry] (mkEntry "no-space-here" None "x") [] []
              ValueError ∅ ∅ [] eq_refl Hall eq_refl eq_refl eq_refl eq_refl)
    as (H1 & H2 & _).
  split; [exact H1|]. rewrite H2. vm_compute. reflexivity.
Defined.

(** ** CGHP_RE: what the pattern captures *)

Lemma strip_prefix_Some p s rest :
  Str.strip_prefix p s = Some rest ↔ s = p +:+ rest.
Proof.
  revert s. induction p as [|a p IH]; intros s.
  - cbn. split; [by intros [= ->]|by intros ->].
  - destruct s as [|b s]; cbn [Str.strip_prefix].
    + split; [done|]. intros H. discriminate H.
    + destruct (Ascii.eqb a b) eqn:Hab.
      * apply Ascii.eqb_eq in Hab as ->. rewrite IH.
        split; [by intros ->|]. intros H. by injection H.
      * split; [done|]. intros H. injection H as -> _.
        by rewrite Ascii.eqb_refl in Hab.
Qed.

Lemma span_spec P s a b :
  Str.span P s = (a, b) →
  s = a +:+ b ∧ all_chars P a = true ∧ starts_with P b = false.
Proof.
  revert a b. induction s as [|c s IH]; intros a b.
  - by intros [= <- <-].
  - cbn [Str.span]. destruct (P c) eqn:Hc.
    + destruct (Str.span P s) as [a' b'].
      destruct (IH a' b' eq_refl) as (-> & Ha & Hb).
      intros [= <- <-]. cbn [all_chars].
      split_and!; [done| |done]. rewrite Ha. by destruct (P c).
    + intros [= <- <-]. split_and!; [done|done|exact Hc].
Qed.

Lemma span_app P a b :
  all_chars P a = true → starts_with P b = false →
  Str.span P (a +:+ b) = (a, b).
Proof.
  intros Ha Hb. induction a as [|c a IH].
  - destruct b as [|c b]; [done|]. cbn [starts_with] in Hb.
    change (EmptyString +:+ String c b) with (String c b).
    cbn [Str.span]. by rewrite Hb.
  - cbn [all_chars] in Ha. apply andb_true_iff in Ha as [Hc Ha].
    change (String c a +:+ b) with (String c (a +:+ b)).
    cbn [Str.span]. by rewrite Hc, (IH Ha).
Qed.

Lemma app_assoc_string (a b c : string) : (a +:+ b) +:+ c = a +:+ (b +:+ c).
Proof.
  induction a as [|x a IH]; [done|].
  change (String x ((a +:+ b) +:+ c) = String x (a +:+ (b +:+ c))).
  by rewrite IH.
Qed.

Lemma cghp_class_slash : cghp_class "/" = false.
Proof. reflexivity. Qed.

Lemma CGHP_RE_match_iff s u r :
  CGHP_RE_match s = Some (u, r)
  ↔ cghp_name u = true ∧ cghp_name r = true
    ∧ ∃ tail, starts_with cghp_class tail = false
              ∧ s = "https://github.com/" +:+ u +:+ "/" +:+ r +:+ tail.
Proof.
  unfold CGHP_RE_match, cghp_name. split.
    - destruct (Str.strip_prefix _ s) as [rest|] eqn:Hpre; [|done].
      apply strip_prefix_Some in Hpre as ->.
      destruct (Str.span cghp_class rest) as [g1 rest1] eqn:H1.
      destruct (span_spec _ _ _ _ H1) as (-> & Hg1 & _).
      destruct g1 as [|a g1]; [done|].
      destruct rest1 as [|slash rest2]; [done|].
      destruct (Ascii.eqb slash "/") eqn:Hs; [|done].
      apply Ascii.eqb_eq in Hs as ->.
      destruct (Str.span cghp_class rest2) as [g2 tail] eqn:H2.
      destruct (span_spec _ _ _ _ H2) as (-> & Hg2 & Htail).
      destruct g2 as [|b g2]; [done|].
      intros [= <- <-]. rewrite Hg1, Hg2.
      split; [done|]. split; [done|]. by exists tail.
    - intros (Hu & Hr & tail & Htail & ->).
      apply andb_true_iff in Hu as [Hu0 Hu].
      apply andb_true_iff in Hr as [Hr0 Hr].
      assert (Str.strip_prefix "https://github.com/"
                ("https://github.com/" +:+ u +:+ "/" +:+ r +:+ tail)
              = Some (u +:+ "/" +:+ r +:+ tail)) as ->.
      { by apply strip_prefix_Some. }
      rewrite (span_app cghp_class u ("/" +:+ r +:+ tail) Hu eq_refl).
      destruct u as [|a u]; [done|].
      change ("/" +:+ r +:+ tail) with (String "/" (r +:+ tail)).
      cbv beta iota. rewrite Ascii.eqb_refl.
      rewrite (span_app cghp_class r tail Hr Htail).
      by destruct r.
Qed.

(** X17: what the pattern [CGHP_RE] captures.  A URL matches exactly when
    it is [https://github.com/], a name, a slash, a name, and a rest that
    does not go on with a name character, a name being a non-empty run of
    letters, digits and hyphens; the two groups are then those names.  So
    the record [fetch_cghp] builds has the full name [user/repo] and its URL
    starts with the address of that repository; and a repository name is
    cut at its first character that is not a letter, a digit or a hyphen,
    a dot or an underscore for instance. *)
Theorem CGHP_RE_match_spec (u r : string) :
  (∀ s, CGHP_RE_match s = Some (u, r)
        ↔ cghp_name u = true ∧ cghp_name r = true
          ∧ ∃ tail, starts_with cghp_class tail = false
                    ∧ s = "https://github.com/" +:+ u +:+ "/" +:+ r +:+ tail)
  ∧ (∀ c flair,
       CGHP_RE_match (url c) = Some (u, r) →
       full_name (cghp_record c u r flair) = u +:+ "/" +:+ r
       ∧ ∃ tail, html_url (cghp_record c u r flair)
                 = "https://github.com/"
                   +:+ full_name (cghp_record c u r flair) +:+ tail)
  ∧ (∀ c tail,
       cghp_name u = true → cghp_name r = true →
       (c = "." ∨ c = "_")%char →
       CGHP_RE_match ("https://github.com/" +:+ u +:+ "/" +:+ r
                      +:+ String c tail)
       = Some (u, r)).
Proof.
  split_and!.
  - intros s. apply CGHP_RE_match_iff.
  - intros c flair Hm. split; [done|].
    cbn [cghp_record html_url full_name].
    apply CGHP_RE_match_iff in Hm as (_ & _ & tail & _ & ->).
    exists tail. by rewrite !app_assoc_string.
  - intros c tail Hu Hr Hc. apply CGHP_RE_match_iff.
    split; [done|]. split; [done|]. exists (String c tail).
    split; [|done]. by destruct Hc as [-> | ->].
Qed.

(** ** main: the review of a pending record *)

Lemma print_repo_eq r lang st :
  language r = Some lang →
  print_repo r st = (Ok tt, log_event (EPrintRepo (full_name r)) st).
Proof. intros H. unfold print_repo. by rewrite H. Qed.

Lemma review_shown args fn cmd st m r l :
  data (cache st) !! "repos" = Some (VRepos m) →
  m !! fn = Some r →
  filter_repo r st = false →
  license r = Some l →
  review args fn cmd st
  = (print_repo r;;
     if check args then ret (cmd, Next)
     else left ← gets (λ st, length (keys st)); prompt (S left) fn r cmd) st.
Proof.
  intros Hm Hr Hf Hl. unfold review.
  erewrite bind_ok; [|by eapply cached_eq].
  erewrite bind_ok; [|reflexivity]. rewrite Hf, Hl.
  erewrite bind_ok; [|reflexivity]. cbv beta iota.
  erewrite bind_ok; [|by eapply cached_eq].
  reflexivity.
Qed.

Lemma prompt_getch n fn r cmd st k ks :
  keys st = k :: ks →
  ∃ body,
    prompt (S n) fn r cmd st
    = body k (set_keys ks (log_event (EPrompt fn) st))
    ∧ body = (λ ans,
      if decide (ans = "z") then
        zap fn;; del_cached fn;; set_updated Cache;; ret (cmd, Next)
      else if decide (ans = "s") then
        snooze fn;; del_cached fn;; set_updated Cache;; ret (cmd, Next)
      else if decide (ans = "r") then
        cmd ← readme r cmd; prompt n fn r cmd
      else if decide (ans = "c") then
        v ← getitem Config "cmd_url";
        c ← as_str v;
        modify (log_event (EPopen c (html_url r)));;
        prompt n fn r (Some c)
      else if bool_decide (ans = "h") && truthy (homepage r) then
        c ← match cmd with
            | Some c => ret c
            | None => raise NameError
            end;
        modify (log_event (EPopen c (default EmptyString (homepage r))));;
        prompt n fn r cmd
      else if decide (ans = " ") then ret (cmd, Next)
      else if decide (ans = "q") then
        save Cache;; save Repos;; ret (cmd, Quit)
      else prompt n fn r cmd).
Proof.
  intros Hk. eexists. split; [|reflexivity].
  cbn [prompt].
  erewrite bind_ok; [|reflexivity].
  erewrite bind_ok; [|unfold getch; cbn [keys log_event]; rewrite Hk; reflexivity].
  reflexivity.
Qed.

(** X18: a pending record that a filter of the configuration now matches is
    dropped when its turn comes in [main]: it leaves the pending cache, the
    cache is marked dirty, and nothing else happens: no license check, no
    output, no key read, and the name goes neither to the snooze store nor
    to the zap list. *)
Theorem review_filtered (args : Args) (fn : string) (cmd : option string)
    (st : St) (m : gmap string Repo) (r : Repo) :
  data (cache st) !! "repos" = Some (VRepos m) →
  m !! fn = Some r →
  filter_repo r st = true →
  let st' := run (review args fn cmd) st in
  result (review args fn cmd) st = Ok (cmd, Next)
  ∧ pending st' = delete fn m
  ∧ updated (cache st') = true
  ∧ repos st' = repos st
  ∧ trace st' = trace st ∧ net st' = net st ∧ keys st' = keys st
  ∧ files st' = files st.
Proof.
  intros Hm Hr Hf st'.
  assert (review args fn cmd st
          = (Ok (cmd, Next),
             set_cache (mkData (JSON (cache st))
                          (<["repos" := VRepos (delete fn m)]> (data (cache st)))
                          true) st)) as Hrun.
  { unfold review.
    erewrite bind_ok; [|by eapply cached_eq].
    erewrite bind_ok; [|reflexivity]. rewrite Hf.
    erewrite bind_ok; [|by eapply del_cached_eq].
    erewrite bind_ok; [|reflexivity]. reflexivity. }
  subst st'. unfold result, run. rewrite Hrun. cbn [fst snd].
  split_and!; try done.
  unfold pending. cbn. by rewrite lookup_insert_eq.
Qed.

Lemma review_filtered_witness :
  pending (run (review interactive "alice/dotfiles" None)
             (with_pending {[ "alice/dotfiles" := search_record item_dotfiles ]}
                st_search))
  = ∅
  ∧ trace (run (review interactive "alice/dotfiles" None)
             (with_pending {[ "alice/dotfiles" := search_record item_dotfiles ]}
                st_search))
    = [].
Proof.
  destruct (review_filtered interactive "alice/dotfiles" None
              (with_pending {[ "alice/dotfiles" := search_record item_dotfiles ]}
                 st_search)
              {[ "alice/dotfiles" := search_record item_dotfiles ]}
              (search_record item_dotfiles))
    as (_ & H1 & _ & _ & H2 & _).
  - reflexivity.
  - apply lookup_singleton_eq.
  - reflexivity.
  - split; [rewrite H1; apply delete_singleton_eq|exact H2].
Defined.

(** X19: a record without a language stops the review.  The code search
    adds such a record when the accepted languages contain [All]; when its
    turn comes in [main] with its license settled, [print_repo] raises
    [TypeError] before anything is printed or any key read.  The record
    stays pending and nothing is saved, so the loop of [main] ends there,
    now and on every later run that reaches the record. *)
Theorem review_without_language (args : Args) (fn : string)
    (cmd : option string) (st : St) (m : gmap string Repo) (r : Repo)
    (l : option bool) :
  data (cache st) !! "repos" = Some (VRepos m) →
  m !! fn = Some r →
  filter_repo r st = false →
  license r = Some l →
  language r = None →
  review args fn cmd st = (Raise TypeError, st)
  ∧ (∀ rest, review_all args (fn :: rest) cmd st = (Raise TypeError, st))
  ∧ ∀ langs item,
      "All" ∈ langs → i_language item = None →
      language (search_record item) = None
      ∧ lang_rejected langs (i_language item) = false.
Proof.
  intros Hm Hr Hf Hl Hlang.
  assert (review args fn cmd st = (Raise TypeError, st)) as Hrun.
  { rewrite (review_shown _ _ _ _ _ _ _ Hm Hr Hf Hl).
    apply bind_raise. unfold print_repo. by rewrite Hlang. }
  split_and!.
  - exact Hrun.
  - intros rest. cbn [review_all]. by apply bind_raise.
  - intros langs item Hall Hnone. split; [done|].
    unfold lang_rejected. rewrite bool_decide_eq_false_2; [done|]. tauto.
Qed.

Lemma review_without_language_witness :
  review interactive "eve/notes" None st_no_language
  = (Raise TypeError, st_no_language).
Proof.
  apply (review_without_language interactive "eve/notes" None
           st_no_language {[ "eve/notes" := no_language ]} no_language
           (Some true)); reflexivity.
Defined.

Lemma zapped_poke_pending m st : zapped (poke_pending m st) = zapped st.
Proof. done. Qed.

Lemma snoozed_poke_pending m st : snoozed (poke_pending m st) = snoozed st.
Proof. done. Qed.

Lemma pending_poke_pending m st : pending (poke_pending m st) = m.
Proof. unfold pending. by rewrite repos_poke_pending. Qed.

Lemma pending_eq st m :
  data (cache st) !! "repos" = Some (VRepos m) → pending st = m.
Proof. unfold pending. by intros ->. Qed.

Lemma drop_cached_eq st fn m r :
  data (cache st) !! "repos" = Some (VRepos m) → m !! fn = Some r →
  (del_cached fn;; set_updated Cache) st
  = (Ok tt, with_pending (delete fn m) st).
Proof.
  intros Hm Hr.
  erewrite bind_ok; [|by eapply del_cached_eq].
  reflexivity.
Qed.

(** X20: the answers that end the prompt of a shown record.  The record is
    pending with its license settled, no filter matches it, it has a
    language, and the program is interactive.  It is printed, the prompt is
    shown once and one key is read.  On [z] the name is appended to the zap
    list, on [s] it is snoozed at the current clock, and in both cases it
    leaves the pending cache and both stores are dirty; on a space the
    stores are as they were.  Nothing is requested or written, and the loop
    of [main] goes on with the next name. *)
Theorem review_answer (args : Args) (fn : string) (cmd : option string)
    (st : St) (m : gmap string Repo) (r : Repo) (l : option bool)
    (lang : string) (s : gmap string Z) (z : list string)
    (ans : string) (ks : list string) :
  data (cache st) !! "repos" = Some (VRepos m) →
  m !! fn = Some r →
  filter_repo r st = false →
  license r = Some l →
  language r = Some lang →
  data (repos st) !! "snooze" = Some (VTimes s) →
  data (repos st) !! "zap" = Some (VStrs z) →
  check args = false →
  keys st = ans :: ks →
  ans = "z" ∨ ans = "s" ∨ ans = " " →
  let st' := run (review args fn cmd) st in
  result (review args fn cmd) st = Ok (cmd, Next)
  ∧ keys st' = ks
  ∧ trace st' = trace st ++ [EPrintRepo (full_name r); EPrompt fn]
  ∧ net st' = net st ∧ files st' = files st ∧ clock st' = clock st
  ∧ (ans = "z" →
     zapped st' = z ++ [fn] ∧ snoozed st' = s ∧ pending st' = delete fn m
     ∧ updated (repos st') = true ∧ updated (cache st') = true)
  ∧ (ans = "s" →
     snoozed st' = <[fn := clock st]> s ∧ zapped st' = z
     ∧ pending st' = delete fn m
     ∧ updated (repos st') = true ∧ updated (cache st') = true)
  ∧ (ans = " " → repos st' = repos st ∧ cache st' = cache st).
Proof.
  intros Hm Hr Hf Hl Hlang Hs Hz Hcheck Hkeys Hans st'.
  subst st'. unfold result, run.
  rewrite (review_shown _ _ _ _ _ _ _ Hm Hr Hf Hl).
  erewrite bind_ok; [|by eapply print_repo_eq]. rewrite Hcheck.
  erewrite bind_ok; [|reflexivity].
  set (st1 := log_event (EPrintRepo (full_name r)) st).
  destruct (prompt_getch (length (keys st1)) fn r cmd st1 ans ks Hkeys)
    as (body & -> & ->).
  set (st2 := set_keys ks (log_event (EPrompt fn) st1)).
  assert (trace st2 = trace st ++ [EPrintRepo (full_name r); EPrompt fn])
    as Ht2.
  { subst st2 st1. unfold_st. cbn. by rewrite <- app_assoc. }
  assert (data (cache st2) !! "repos" = Some (VRepos m)) as Hm2 by done.
  destruct Hans as [->|[->| ->]].
  - rewrite decide_True by done.
    erewrite bind_ok; [|by apply zap_eq].
    set (st3 := with_zap _ _).
    assert ((del_cached fn;; set_updated Cache;; ret (cmd, Next)) st3
            = (Ok (cmd, Next), with_pending (delete fn m) st3)) as ->.
    { pose proof (drop_cached_eq st3 fn m r Hm2 Hr) as Hd.
      unfold mbind, M_bind, bind in *.
      destruct (del_cached fn st3) as [[[]|?|] ?]; try done.
      by rewrite Hd. }
    cbn [fst snd].
    split_and!; try done.
    intros _. split_and!; try done.
    + apply zapped_with_zap.
    + change (snoozed st3 = s). subst st3.
      by rewrite snoozed_with_zap, (snoozed_eq st2 s).
    + apply pending_with_pending.
  - rewrite decide_False by done. rewrite decide_True by done.
    erewrite bind_ok; [|by apply snooze_eq].
    set (st3 := with_snooze _ _ _).
    assert ((del_cached fn;; set_updated Cache;; ret (cmd, Next)) st3
            = (Ok (cmd, Next), with_pending (delete fn m) st3)) as ->.
    { pose proof (drop_cached_eq st3 fn m r Hm2 Hr) as Hd.
      unfold mbind, M_bind, bind in *.
      destruct (del_cached fn st3) as [[[]|?|] ?]; try done.
      by rewrite Hd. }
    cbn [fst snd].
    split_and!; try done.
    intros _. split_and!; try done.
    + apply (snoozed_with_snooze _ _ st2).
    + change (zapped st3 = z). subst st3.
      by rewrite zapped_with_snooze, (zapped_eq st2 z).
    + apply pending_with_pending.
  - rewrite !decide_False by done.
    rewrite (bool_decide_eq_false_2 (" " = "h")) by done. cbn [andb].
    rewrite decide_True by done. cbn [fst snd].
    split_and!; try done.
Qed.

Lemma review_answer_witness :
  zapped (run (review interactive "octo/tool" None) (st_prompt ["z"]))
  = ["octo/tool"]
  ∧ pending (run (review interactive "octo/tool" None) (st_prompt ["z"]))
    = delete "octo/tool" {[ "octo/tool" := licensed_repo ]}.
Proof.
  destruct (review_answer interactive "octo/tool" None (st_prompt ["z"])
              {[ "octo/tool" := licensed_repo ]} licensed_repo (Some true)
              "Python" ∅ [] "z" [])
    as (_ & _ & _ & _ & _ & _ & H & _); try reflexivity.
  - by left.
  - destruct (H eq_refl) as (H1 & _ & H2 & _). split; [exact H1|exact H2].
Defined.

Lemma two_saves st :
  ∃ st',
    (save Cache;; save Repos) st = (Ok tt, st')
    ∧ updated (cache st') = false ∧ updated (repos st') = false
    ∧ data (cache st') = data (cache st) ∧ data (repos st') = data (repos st)
    ∧ keys st' = keys st ∧ net st' = net st ∧ clock st' = clock st
    ∧ trace st'
      = trace st
        ++ (if updated (cache st) then [ESave (JSON (cache st))] else [])
        ++ (if updated (repos st) then [ESave (JSON (repos st))] else [])
    ∧ (updated (repos st) = true →
       files st' !! JSON (repos st) = Some (data (repos st)))
    ∧ (updated (cache st) = true → JSON (repos st) ≠ JSON (cache st) →
       files st' !! JSON (cache st) = Some (data (cache st))).
Proof.
  destruct (updated (cache st)) eqn:Hc, (updated (repos st)) eqn:Hr.
  - erewrite bind_ok; [|by apply (save_dirty Cache)].
    rewrite (save_dirty Repos) by done.
    eexists. split; [reflexivity|]. cbn.
    rewrite <- app_assoc. split_and!; try done.
    + intros _. apply lookup_insert_eq.
    + intros _ Hne. rewrite lookup_insert_ne by done. apply lookup_insert_eq.
  - erewrite bind_ok; [|by apply (save_dirty Cache)].
    rewrite (save_clean Repos) by done.
    eexists. split; [reflexivity|]. cbn. rewrite ?app_nil_r.
    split_and!; try done.
    intros _ _. apply lookup_insert_eq.
  - erewrite bind_ok; [|by apply (save_clean Cache)].
    rewrite (save_dirty Repos) by done.
    eexists. split; [reflexivity|]. cbn.
    split_and!; try done.
    intros _. apply lookup_insert_eq.
  - erewrite bind_ok; [|by apply (save_clean Cache)].
    rewrite (save_clean Repos) by done.
    exists st. rewrite Hc, Hr, app_nil_r. split_and!; done.
Qed.

(** X21: the answer [q].  On a shown record it saves the cache and the
    watchlist, each when it is dirty, and ends the loop of [main]: the names
    after this one are not reviewed and no further key is read.  Both
    stores are then clean and hold what they held; the file of a store that
    was dirty holds its mapping. *)
Theorem review_quit (args : Args) (fn : string) (cmd : option string)
    (st : St) (m : gmap string Repo) (r : Repo) (l : option bool)
    (lang : string) (ks : list string) :
  data (cache st) !! "repos" = Some (VRepos m) →
  m !! fn = Some r →
  filter_repo r st = false →
  license r = Some l →
  language r = Some lang →
  check args = false →
  keys st = "q" :: ks →
  let st' := run (review args fn cmd) st in
  result (review args fn cmd) st = Ok (cmd, Quit)
  ∧ (∀ rest, review_all args (fn :: rest) cmd st = (Ok Quit, st'))
  ∧ updated (cache st') = false ∧ updated (repos st') = false
  ∧ data (cache st') = data (cache st) ∧ data (repos st') = data (repos st)
  ∧ keys st' = ks
  ∧ trace st'
    = trace st ++ [EPrintRepo (full_name r); EPrompt fn]
      ++ (if updated (cache st) then [ESave (JSON (cache st))] else [])
      ++ (if updated (repos st) then [ESave (JSON (repos st))] else [])
  ∧ (updated (repos st) = true →
     files st' !! JSON (repos st) = Some (data (repos st)))
  ∧ (updated (cache st) = true → JSON (repos st) ≠ JSON (cache st) →
     files st' !! JSON (cache st) = Some (data (cache st))).
Proof.
  intros Hm Hr Hf Hl Hlang Hcheck Hkeys st'.
  set (st2 := set_keys ks
                (log_event (EPrompt fn)
                   (log_event (EPrintRepo (full_name r)) st))).
  destruct (two_saves st2)
    as (st3 & Hsave & Hc3 & Hr3 & Hdc & Hdr & Hk3 & _ & _ & Ht3 & Hfr & Hfc).
  assert (review args fn cmd st = (Ok (cmd, Quit), st3)) as Hrun.
  { rewrite (review_shown _ _ _ _ _ _ _ Hm Hr Hf Hl).
    erewrite bind_ok; [|by eapply print_repo_eq]. rewrite Hcheck.
    erewrite bind_ok; [|reflexivity].
    set (st1 := log_event (EPrintRepo (full_name r)) st).
    destruct (prompt_getch (length (keys st1)) fn r cmd st1 "q" ks Hkeys)
      as (body & -> & ->).
    rewrite !decide_False by done.
    rewrite (bool_decide_eq_false_2 ("q" = "h")) by done. cbn [andb].
    rewrite decide_True by done.
    change (set_keys ks (log_event (EPrompt fn) st1)) with st2.
    clear -Hsave. unfold mbind, M_bind, bind in *.
    destruct (save Cache st2) as [[[]|?|] sA]; try done.
    destruct (save Repos sA) as [[[]|?|] sB]; try done.
    by injection Hsave as ->. }
  subst st'. unfold result, run. rewrite Hrun. cbn [fst snd].
  split_and!; try done.
  - intros rest. cbn [review_all]. erewrite bind_ok; [|exact Hrun]. done.
  - rewrite Ht3. subst st2. unfold_st. cbn. by rewrite <- !app_assoc.
Qed.

Lemma review_quit_witness :
  trace (run (review interactive "octo/tool" None) (st_prompt ["q"; "z"]))
  = [EPrintRepo "octo/tool"; EPrompt "octo/tool"; ESave (JSON (fresh Cache))]
  ∧ keys (run (review interactive "octo/tool" None) (st_prompt ["q"; "z"]))
    = ["z"].
Proof.
  destruct (review_quit interactive "octo/tool" None (st_prompt ["q"; "z"])
              {[ "octo/tool" := licensed_repo ]} licensed_repo (Some true)
              "Python" ["z"])
    as (_ & _ & _ & _ & _ & _ & H1 & H2 & _); try reflexivity.
  split; [exact H2|exact H1].
Defined.

(** X22: the answer [h].  The command it runs is the local variable [cmd]
    of [main], which only the answers [r] and [c] assign.  On a shown
    record with a homepage, [h] pressed before any [r] or [c] of this run
    raises [NameError]: the key is consumed, nothing is opened and nothing
    is saved.  Once [cmd] is assigned, for this record or an earlier one,
    [h] runs that command on the homepage and the prompt is shown again. *)
Theorem review_homepage (args : Args) (fn : string) (st : St)
    (m : gmap string Repo) (r : Repo) (l : option bool) (lang hp : string)
    (ks : list string) :
  data (cache st) !! "repos" = Some (VRepos m) →
  m !! fn = Some r →
  filter_repo r st = false →
  license r = Some l →
  language r = Some lang →
  homepage r = Some hp →
  hp ≠ EmptyString →
  check args = false →
  keys st = "h" :: ks →
  let shown := log_event (EPrintRepo (full_name r)) st in
  let asked := set_keys ks (log_event (EPrompt fn) shown) in
  review args fn None st = (Raise NameError, asked)
  ∧ cache asked = cache st ∧ repos asked = repos st ∧ files asked = files st
  ∧ ∀ c,
      review args fn (Some c) st
      = prompt (S (length ks)) fn r (Some c) (log_event (EPopen c hp) asked).
Proof.
  intros Hm Hr Hf Hl Hlang Hhp Hne Hcheck Hkeys shown asked.
  assert (∀ cmd,
    review args fn cmd st
    = (c ← match cmd with
           | Some c => ret c
           | None => raise NameError
           end;
       modify (log_event (EPopen c (default EmptyString (homepage r))));;
       prompt (S (length ks)) fn r cmd) asked) as Hrun.
  { intros cmd.
    rewrite (review_shown _ _ _ _ _ _ _ Hm Hr Hf Hl).
    erewrite bind_ok; [|by eapply print_repo_eq]. rewrite Hcheck.
    erewrite bind_ok; [|reflexivity].
    fold shown.
    destruct (prompt_getch (length (keys shown)) fn r cmd shown "h" ks Hkeys)
      as (body & -> & ->).
    rewrite !decide_False by done.
    rewrite (bool_decide_eq_true_2 ("h" = "h")) by done.
    unfold truthy. rewrite Hhp.
    rewrite (bool_decide_eq_false_2 (hp = EmptyString)) by done.
    cbn [negb andb].
    replace (length (keys shown)) with (S (length ks)); [done|].
    subst shown. cbn [keys log_event]. by rewrite Hkeys. }
  split_and!; [by rewrite Hrun|done..|].
  intros c. rewrite Hrun.
  erewrite bind_ok; [|reflexivity].
  erewrite bind_ok; [|reflexivity]. by rewrite Hhp.
Qed.

Lemma review_homepage_witness :
  result (review interactive "octo/tool" None)
    (set_keys ["h"] (with_pending {[ "octo/tool" := with_homepage ]} st_fresh))
  = Raise NameError.
Proof.
  destruct (review_homepage interactive "octo/tool"
              (set_keys ["h"]
                 (with_pending {[ "octo/tool" := with_homepage ]} st_fresh))
              {[ "octo/tool" := with_homepage ]} with_homepage (Some true)
              "Python" "https://octo.example" [])
    as (H & _); [done..|].
  unfold result. by rewrite H.
Defined.

(** ** main: how it ends *)








#[global] Instance no_prompt_refl : Reflexive no_prompt.
Proof. intros st. split; [done|]. exists []. by rewrite app_nil_r. Qed.

#[global] Instance no_prompt_trans : Transitive no_prompt.
Proof.
  intros st1 st2 st3 (Hk1 & evs1 & Ht1 & He1) (Hk2 & evs2 & Ht2 & He2).
  split; [congruence|]. exists (evs1 ++ evs2).
  rewrite Ht2, Ht1, <- app_assoc. split; [done|]. by apply Forall_app.
Qed.

Lemma no_prompt_same st st' :
  keys st' = keys st → trace st' = trace st → no_prompt st st'.
Proof. intros Hk Ht. split; [done|]. exists []. by rewrite app_nil_r. Qed.

Lemma no_prompt_event st st' e :
  keys st' = keys st → trace st' = trace st ++ [e] → (∀ fn, e ≠ EPrompt fn) →
  no_prompt st st'.
Proof.
  intros Hk Ht He. split; [done|]. exists [e]. split; [done|].
  by apply Forall_singleton.
Qed.

Lemma no_prompt_set_obj o d st : no_prompt st (set_obj o d st).
Proof. apply no_prompt_same; by destruct o. Qed.

Lemma sleep_no_prompt s : preserved no_prompt (sleep s).
Proof.
  unfold sleep. destruct (bool_decide _); [apply preserved_raise; exact _|].
  apply preserved_modify. intros st. by eapply no_prompt_event.
Qed.

Lemma requests_get_no_prompt URL query :
  preserved no_prompt (requests_get URL query).
Proof.
  intros st. unfold run, requests_get.
  destruct (net st) as [|[]]; by eapply no_prompt_event.
Qed.

Lemma fp_parse_no_prompt URL : preserved no_prompt (fp_parse URL).
Proof.
  intros st. unfold run, fp_parse.
  destruct (feeds st); by eapply no_prompt_event.
Qed.

Lemma save_no_prompt o : preserved no_prompt (save o).
Proof.
  intros st. unfold run. destruct (updated (obj o st)) eqn:Hu.
  - rewrite (save_dirty _ _ Hu). cbn [snd].
    eapply no_prompt_event; [by destruct o|by destruct o|done].
  - by rewrite (save_clean _ _ Hu).
Qed.

Ltac no_prompt_step :=
  first
    [ apply sleep_no_prompt | apply requests_get_no_prompt
    | apply fp_parse_no_prompt | apply save_no_prompt
    | preserve_step | progress unfold_ops
    | apply no_prompt_set_obj ].

Lemma gh_req_no_prompt URL raise_error query :
  preserved no_prompt (gh_req URL raise_error query).
Proof. unfold gh_req, wait_for_reset. repeat no_prompt_step. Qed.

Ltac no_prompt_auto :=
  repeat first [ apply gh_req_no_prompt | no_prompt_step | progress unfold_fetch ].

Lemma fetch_search_no_prompt f : preserved no_prompt (fetch_search f).
Proof. unfold fetch_search. no_prompt_auto. Qed.

Lemma fetch_trend_no_prompt f : preserved no_prompt (fetch_trend f).
Proof. unfold fetch_trend, fetch_trend_lang. no_prompt_auto. Qed.

Lemma cghp_poll_no_prompt n : preserved no_prompt (cghp_poll n).
Proof.
  induction n as [|n IH]; cbn [cghp_poll].
  - apply preserved_blocked. exact _.
  - unfold cghp_attempt. repeat first [exact IH | no_prompt_step].
Qed.

Lemma fetch_cghp_no_prompt f : preserved no_prompt (fetch_cghp f).
Proof.
  unfold fetch_cghp.
  repeat first [apply cghp_poll_no_prompt | no_prompt_step
               | progress unfold_fetch].
Qed.

Lemma fetch_no_prompt : preserved no_prompt fetch.
Proof.
  unfold fetch, fetch_source.
  repeat first
    [ apply fetch_search_no_prompt | apply fetch_trend_no_prompt
    | apply fetch_cghp_no_prompt | no_prompt_step | progress unfold_fetch
    | case_decide ].
Qed.

Lemma license_poll_no_prompt n fn : preserved no_prompt (license_poll n fn).
Proof.
  induction n as [|n IH]; cbn [license_poll].
  - apply preserved_blocked. exact _.
  - unfold cached, check_license, set_license.
    repeat first [exact IH | apply gh_req_no_prompt | no_prompt_step].
Qed.

Lemma license_step_no_prompt fn : preserved no_prompt (license_step fn).
Proof.
  unfold license_step, cached, set_license, snooze, del_cached.
  repeat first [apply license_poll_no_prompt | no_prompt_step].
Qed.

Lemma review_check_no_prompt args fn cmd :
  check args = true → preserved no_prompt (review args fn cmd).
Proof.
  intros Hcheck. unfold review. rewrite Hcheck.
  unfold cached, del_cached, print_repo.
  repeat first [apply license_step_no_prompt | no_prompt_step].
  all: by eapply no_prompt_event.
Qed.

Lemma review_all_check_no_prompt args fns :
  check args = true → ∀ cmd, preserved no_prompt (review_all args fns cmd).
Proof.
  intros Hcheck. induction fns as [|fn fns IH]; intros cmd; cbn [review_all].
  - apply preserved_ret'. exact _.
  - apply preserved_bind; try exact _.
    + by apply review_check_no_prompt.
    + intros [cmd' []]; [apply IH|apply preserved_ret'; exact _].
Qed.

(** X24: with [--check] the program is not interactive.  Whatever the
    stores and the outside world do, and however [main] ends, it shows no
    prompt and reads no key: the keys still to come are those there were at
    the start. *)
Theorem main_check_reads_no_key (args : Args) (st : St) :
  check args = true →
  keys (run (main args) st) = keys st
  ∧ ∃ evs, trace (run (main args) st) = trace st ++ evs
           ∧ ∀ fn, EPrompt fn ∉ evs.
Proof.
  intros Hcheck.
  assert (preserved no_prompt (main args)) as Hmain.
  { unfold main.
    repeat first
      [ apply fetch_no_prompt | by apply review_all_check_no_prompt
      | no_prompt_step ]. }
  destruct (Hmain st) as (Hk & evs & Ht & He).
  split; [exact Hk|]. exists evs. split; [exact Ht|].
  intros fn Hin. rewrite Forall_forall in He. by apply (He _ Hin fn).
Qed.

Lemma main_check_reads_no_key_witness :
  keys (run (main checking) (st_prompt ["z"])) = ["z"].
Proof.
  apply (main_check_reads_no_key checking (st_prompt ["z"])). reflexivity.
Defined.

(** ** main: the license check, interrupted and retried *)

Lemma gh_req_fails st URL raise_error query rl e rest :
  rate_limit_state st URL = Some rl →
  net st = Fails e :: rest →
  gh_req URL raise_error query st
  = (Raise e, requested st URL query rl rest).
Proof.
  intros Hrl Hn.
  destruct (gh_req_request st URL raise_error query rl Hrl)
    as (st1 & k & -> & Hreq & Hnet & _).
  rewrite Hreq. apply bind_raise. unfold requests_get. by rewrite Hnet, Hn.
Qed.

Lemma try_except_uncaught {A} (c : M A) h st e st' :
  c st = (Raise e, st') → caught e = false →
  try_except c h st = (Raise e, st').
Proof. intros H He. unfold try_except. by rewrite H, He. Qed.

Lemma try_except_caught {A} (c : M A) h st e st' :
  c st = (Raise e, st') → caught e = true →
  try_except c h st = h e st'.
Proof. intros H He. unfold try_except. by rewrite H, He. Qed.

(** X25: a license check that is interrupted.  The record has no [license]
    entry and the request of its check fails with an exception the retry
    loop does not catch (a connection error, say).  The exception leaves
    [main]; the record is still pending, and it now has a [license] entry
    that holds [None], written in place without marking the cache dirty.
    A record in that state is not checked again: with [--check] its turn
    prints it and goes on, without any request. *)
Theorem license_step_interrupted (fn : string) (st : St)
    (m : gmap string Repo) (r : Repo) (rl : RateLimit) (e : exn)
    (rest : list Reply) :
  data (cache st) !! "repos" = Some (VRepos m) →
  m !! fn = Some r →
  rate_limit_state st SEARCH_CODE_URL = Some rl →
  net st = Fails e :: rest →
  caught e = false →
  let st' := run (license_step fn) st in
  result (license_step fn) st = Raise e
  ∧ pending st' = <[fn := with_license r None]> m
  ∧ updated (cache st') = updated (cache st)
  ∧ repos st' = repos st
  ∧ files st' = files st
  ∧ ∀ args cmd st2 m2,
      check args = true →
      data (cache st2) !! "repos" = Some (VRepos m2) →
      m2 !! fn = Some (with_license r None) →
      filter_repo r st2 = false →
      is_Some (language r) →
      review args fn cmd st2
      = (Ok (cmd, Next), log_event (EPrintRepo (full_name r)) st2).
Proof.
  intros Hm Hr Hrl Hnet He st'.
  set (m1 := <[fn := with_license r None]> m).
  set (st1 := poke_pending m1 st).
  assert (license_step fn st
          = (Raise e,
             requested st1 SEARCH_CODE_URL (license_query r) rl rest)) as Hrun.
  { unfold license_step.
    erewrite bind_ok; [|by eapply set_license_eq].
    erewrite bind_ok; [|reflexivity].
    apply bind_raise. cbn [license_poll].
    apply try_except_uncaught; [|done].
    erewrite bind_ok.
    2:{ eapply cached_eq; [apply repos_poke_pending|].
        subst m1. apply lookup_insert_eq. }
    apply bind_raise. unfold check_license.
    apply bind_raise. apply gh_req_fails; [|done].
    unfold st1. by rewrite rate_limit_state_poke_pending. }
  subst st'. unfold result, run. rewrite Hrun. cbn [fst snd].
  split_and!; try done.
  - apply pending_poke_pending.
  - intros args cmd st2 m2 Hcheck Hm2 Hr2 Hf [lang Hlang].
    rewrite (review_shown _ _ _ _ _ _ _ Hm2 Hr2 Hf eq_refl).
    erewrite bind_ok; [|by eapply print_repo_eq].
    by rewrite Hcheck.
Qed.

Lemma license_step_interrupted_witness :
  result (license_step "octo/tool")
    (set_net [Fails ConnectionError] st_unlicensed)
  = Raise ConnectionError
  ∧ pending (run (license_step "octo/tool")
               (set_net [Fails ConnectionError] st_unlicensed))
    = <["octo/tool" := with_license example_repo None]>
        {[ "octo/tool" := example_repo ]}.
Proof.
  destruct (license_step_interrupted "octo/tool"
              (set_net [Fails ConnectionError] st_unlicensed)
              {[ "octo/tool" := example_repo ]} example_repo
              (mkRateLimit 1 0) ConnectionError [])
    as (H1 & H2 & _); [done..|].
  split; [exact H1|exact H2].
Defined.

Lemma clock_requested st URL query rl rest :
  clock st ≤ clock (requested st URL query rl rest).
Proof. unfold requested. cbn [clock]. case_bool_decide; lia. Qed.

Lemma clock_answered st URL query rl rest remaining reset_at :
  clock st ≤ clock (answered st URL query rl rest remaining reset_at).
Proof. unfold answered. cbn [clock]. case_bool_decide; lia. Qed.

Lemma license_attempt_retried st fn m r rl x rest :
  data (cache st) !! "repos" = Some (VRepos m) →
  m !! fn = Some r →
  rate_limit_state st SEARCH_CODE_URL = Some rl →
  net st = x :: rest →
  license_retried x = true →
  ∃ st1 rl1 e,
    (r ← cached fn;
     b ← check_license r;
     set_license fn (Some b);;
     set_updated Cache) st = (Raise e, st1)
    ∧ caught e = true
    ∧ retry_frame st st1
    ∧ rate_limit_state st1 SEARCH_CODE_URL = Some rl1
    ∧ net st1 = rest
    ∧ clock st ≤ clock st1.
Proof.
  intros Hm Hr Hrl Hnet Hx.
  destruct x as [resp|e]; cbn [license_retried] in Hx.
  - apply andb_true_iff in Hx as [Hx Herr].
    apply andb_true_iff in Hx as [Hrem Hrst].
    apply bool_decide_eq_true in Hrem as [remaining Hrem].
    apply bool_decide_eq_true in Hrst as [reset_at Hrst].
    exists (answered st SEARCH_CODE_URL (license_query r) rl rest remaining
              reset_at), (mkRateLimit remaining reset_at),
           (HTTPError (status_code resp)).
    split_and!; try done.
    + erewrite bind_ok; [|by eapply cached_eq].
      apply bind_raise. unfold check_license. apply bind_raise.
      rewrite (gh_req_answered _ _ _ _ _ _ _ _ _ Hrl Hnet Hrem Hrst).
      by rewrite Herr.
    + unfold retry_frame, answered. cbn. split_and!; try done.
      rewrite lookup_insert_ne; [done|]. apply rl_type_not_repos.
    + rewrite rate_limit_state_answered. by rewrite decide_True.
    + apply clock_answered.
  - exists (requested st SEARCH_CODE_URL (license_query r) rl rest), rl, e.
    split_and!; try done.
    + erewrite bind_ok; [|by eapply cached_eq].
      apply bind_raise. unfold check_license. apply bind_raise.
      by apply gh_req_fails.
    + apply clock_requested.
Qed.

Lemma license_poll_retries fn m r resp rest remaining reset_at total items
    failures : ∀ st n rl,
  data (cache st) !! "repos" = Some (VRepos m) →
  m !! fn = Some r →
  rate_limit_state st SEARCH_CODE_URL = Some rl →
  net st = failures ++ Answer resp :: rest →
  forallb license_retried failures = true →
  x_ratelimit_remaining resp = Some remaining →
  x_ratelimit_reset resp = Some reset_at →
  is_http_error (status_code resp) = false →
  body resp = SearchResult total items →
  (length failures < n)%nat →
  ∃ st',
    license_poll n fn st = (Ok tt, st')
    ∧ data (cache st') !! "repos"
      = Some (VRepos (<[fn := with_license r (Some (bool_decide (total > 0)))]>
                        m))
    ∧ updated (cache st') = true
    ∧ repos st' = repos st ∧ config st' = config st
    ∧ filters_repo st' = filters_repo st
    ∧ filters_description st' = filters_description st
    ∧ keys st' = keys st ∧ files st' = files st
    ∧ net st' = rest
    ∧ clock st + RETRY * Z.of_nat (length failures) ≤ clock st'.
Proof.
  induction failures as [|x failures IH];
    intros st n rl Hm Hr Hrl Hnet Hall Hrem Hrst Herr Hbody Hn.
  - destruct n as [|n]; [cbn in Hn; lia|].
    eexists. split.
    { eapply license_poll_eq; eassumption. }
    split_and!; try done.
    + cbn. apply lookup_insert_eq.
    + pose proof (clock_answered st SEARCH_CODE_URL (license_query r) rl rest
                    remaining reset_at) as Hc.
      cbn [length set_cache clock]. cbn [set_cache clock] in Hc.
      change (Z.of_nat 0) with 0. rewrite Z.mul_0_r, Z.add_0_r. exact Hc.
  - destruct n as [|n]; [cbn in Hn; lia|].
    cbn [forallb] in Hall. apply andb_true_iff in Hall as [Hx Hall].
    destruct (license_attempt_retried st fn m r rl x
                (failures ++ Answer resp :: rest) Hm Hr Hrl Hnet Hx)
      as (st1 & rl1 & e & Hat & He & Hframe & Hrl1 & Hnet1 & Hc1).
    destruct Hframe as (Hm1 & Hr1 & Hcf1 & Hfr1 & Hfd1 & Hk1 & Hf1).
    set (st2 := set_clock (clock st1 + RETRY) (log_event (ESleep RETRY) st1)).
    destruct (IH st2 n rl1) as (st' & Hrun & Hp & Hu & Hr' & Hcf' & Hfr' & Hfd'
                                & Hk' & Hf' & Hn' & Hc'); try done.
    { change (data (cache st1) !! "repos" = Some (VRepos m)). congruence. }
    { cbn in Hn. lia. }
    exists st'. split.
    { cbn [license_poll].
      erewrite try_except_caught; [|exact Hat|exact He].
      erewrite bind_ok; [|apply sleep_RETRY]. exact Hrun. }
    change (repos st2) with (repos st1) in Hr'.
    change (config st2) with (config st1) in Hcf'.
    change (filters_repo st2) with (filters_repo st1) in Hfr'.
    change (filters_description st2) with (filters_description st1) in Hfd'.
    change (keys st2) with (keys st1) in Hk'.
    change (files st2) with (files st1) in Hf'.
    change (clock st2) with (clock st1 + RETRY) in Hc'.
    split_and!; try congruence.
    cbn [length]. unfold RETRY in *. lia.
Qed.

(** X26: the retry loop of the license check.  The code search fails [k]
    times in a way the loop retries on (a time-out, an error status) and
    then answers with a result.  The license step returns all the same,
    with every reply up to that answer consumed and at least [RETRY]
    seconds slept after each failure; the record is kept with its license
    found when the result has a match, and is snoozed at the clock of the
    end and dropped from the cache when it has none. *)
Theorem license_step_retries (fn : string) (st : St) (m : gmap string Repo)
    (r : Repo) (s : gmap string Z) (rl : RateLimit) (failures : list Reply)
    (resp : Response) (rest : list Reply) (remaining reset_at total : Z)
    (items : list SearchItem) :
  data (cache st) !! "repos" = Some (VRepos m) →
  m !! fn = Some r →
  data (repos st) !! "snooze" = Some (VTimes s) →
  rate_limit_state st SEARCH_CODE_URL = Some rl →
  net st = failures ++ Answer resp :: rest →
  forallb license_retried failures = true →
  x_ratelimit_remaining resp = Some remaining →
  x_ratelimit_reset resp = Some reset_at →
  is_http_error (status_code resp) = false →
  body resp = SearchResult total items →
  let st' := run (license_step fn) st in
  result (license_step fn) st = Ok (bool_decide (total > 0))
  ∧ net st' = rest
  ∧ clock st + RETRY * Z.of_nat (length failures) ≤ clock st'
  ∧ pending st'
    = (if bool_decide (total > 0) then <[fn := with_license r (Some true)]> m
       else delete fn m)
  ∧ snoozed st'
    = (if bool_decide (total > 0) then s else <[fn := clock st']> s)
  ∧ updated (cache st') = true
  ∧ keys st' = keys st ∧ files st' = files st.
Proof.
  intros Hm Hr Hs Hrl Hnet Hall Hrem Hrst Herr Hbody st'.
  set (m1 := <[fn := with_license r None]> m).
  set (st1 := poke_pending m1 st).
  set (b := bool_decide (total > 0)).
  destruct (license_poll_retries fn m1 (with_license r None) resp rest
              remaining reset_at total items failures st1
              (S (length (net st1))) rl)
    as (st2 & Hpoll & Hm2 & Hu2 & Hr2 & _ & _ & _ & Hk2 & Hf2 & Hn2 & Hc2);
    try done.
  { apply repos_poke_pending. }
  { subst m1. apply lookup_insert_eq. }
  { unfold st1. by rewrite rate_limit_state_poke_pending. }
  { change (net st1) with (net st). rewrite Hnet, length_app. lia. }
  rewrite with_license_twice in Hm2. subst m1. rewrite insert_insert_eq in Hm2.
  fold b in Hm2.
  change (repos st1) with (repos st) in Hr2.
  change (keys st1) with (keys st) in Hk2.
  change (files st1) with (files st) in Hf2.
  change (clock st1) with (clock st) in Hc2.
  assert (∃ st3,
    license_step fn st = (Ok b, st3)
    ∧ net st3 = net st2 ∧ clock st3 = clock st2 ∧ keys st3 = keys st2
    ∧ files st3 = files st2 ∧ updated (cache st3) = true
    ∧ pending st3 = (if b then <[fn := with_license r (Some true)]> m
                     else delete fn m)
    ∧ snoozed st3 = (if b then s else <[fn := clock st2]> s))
    as (st3 & Hrun & Hn3 & Hc3 & Hk3 & Hf3 & Hu3 & Hp3 & Hs3).
  { unfold license_step.
    erewrite bind_ok; [|by eapply set_license_eq].
    erewrite bind_ok; [|reflexivity].
    erewrite bind_ok; [|exact Hpoll].
    erewrite bind_ok; [|eapply cached_eq; [exact Hm2|apply lookup_insert_eq]].
    cbn [license with_license].
    destruct b eqn:Hb.
    - exists st2. split_and!; try done.
      + by apply pending_eq.
      + apply snoozed_eq. by rewrite Hr2.
    - erewrite bind_ok; [|apply snooze_eq; by rewrite Hr2].
      set (st4 := with_snooze _ _ _).
      assert ((del_cached fn;; set_updated Cache;; ret false) st4
              = (Ok false,
                 with_pending
                   (delete fn (<[fn := with_license r (Some false)]> m)) st4))
        as ->.
      { pose proof (drop_cached_eq st4 fn _ _ Hm2 (lookup_insert_eq _ _ _))
          as Hd.
        unfold mbind, M_bind, bind in *.
        destruct (del_cached fn st4) as [[[]|?|] ?]; try done.
        by rewrite Hd. }
      eexists. split; [reflexivity|].
      split_and!; try done.
      + rewrite pending_with_pending. apply delete_insert_eq.
      + change (snoozed st4 = <[fn := clock st2]> s).
        apply snoozed_with_snooze. }
  subst st'. unfold result, run. rewrite Hrun. cbn [fst snd].
  rewrite Hc3 in *. split_and!; congruence.
Qed.

Lemma license_step_retries_witness :
  result (license_step "octo/tool") st_throttled = Ok false
  ∧ snoozed (run (license_step "octo/tool") st_throttled)
    = {[ "octo/tool" := 1200 ]}.
Proof.
  destruct (license_step_retries "octo/tool" st_throttled
              {[ "octo/tool" := example_repo ]} example_repo ∅
              (mkRateLimit 1 0) [Fails RequestTimeout; Answer quota_exhausted]
              no_match_reply [] 29 1060 0 [])
    as (H1 & _ & _ & _ & H2 & _); [done..|].
  split; [exact H1|]. rewrite H2. vm_compute. reflexivity.
Defined.

(** ** main: the answers c and r *)

(** X27: the answer [c].  The command it runs is [config['cmd_url']], for
    which [Config] has no default.  On a shown record, with no such entry
    in the configuration, [c] raises [KeyError]: the key is consumed,
    nothing is opened and nothing is saved.  With the entry, the command is
    run on the URL of the record, the prompt is shown again, and the
    command is what a later [h] will run. *)
Theorem review_check_url (args : Args) (fn : string) (cmd : option string)
    (st : St) (m : gmap string Repo) (r : Repo) (l : option bool)
    (lang : string) (ks : list string) :
  data (cache st) !! "repos" = Some (VRepos m) →
  m !! fn = Some r →
  filter_repo r st = false →
  license r = Some l →
  language r = Some lang →
  check args = false →
  keys st = "c" :: ks →
  let shown := log_event (EPrintRepo (full_name r)) st in
  let asked := set_keys ks (log_event (EPrompt fn) shown) in
  (data (config st) !! "cmd_url" = None →
   review args fn cmd st = (Raise KeyError, asked))
  ∧ (∀ c, data (config st) !! "cmd_url" = Some (VStr c) →
       review args fn cmd st
       = prompt (S (length ks)) fn r (Some c)
           (log_event (EPopen c (html_url r)) asked))
  ∧ cache asked = cache st ∧ repos asked = repos st ∧ files asked = files st
  ∧ DICT Config !! "cmd_url" = None.
Proof.
  intros Hm Hr Hf Hl Hlang Hcheck Hkeys shown asked.
  assert (review args fn cmd st
    = (v ← getitem Config "cmd_url";
       c ← as_str v;
       modify (log_event (EPopen c (html_url r)));;
       prompt (S (length ks)) fn r (Some c)) asked) as Hrun.
  { rewrite (review_shown _ _ _ _ _ _ _ Hm Hr Hf Hl).
    erewrite bind_ok; [|by eapply print_repo_eq]. rewrite Hcheck.
    erewrite bind_ok; [|reflexivity].
    fold shown.
    destruct (prompt_getch (length (keys shown)) fn r cmd shown "c" ks Hkeys)
      as (body & -> & ->).
    rewrite !decide_False by done. rewrite decide_True by done.
    replace (length (keys shown)) with (S (length ks)); [done|].
    subst shown. cbn [keys log_event]. by rewrite Hkeys. }
  split_and!; try done.
  - intros Hcfg. rewrite Hrun. apply bind_raise.
    assert (data (obj Config asked) !! "cmd_url" = None) as Hc by exact Hcfg.
    unfold getitem. unfold_m. by rewrite Hc.
  - intros c Hcfg. rewrite Hrun.
    erewrite bind_ok; [|by apply getitem_eq].
    erewrite bind_ok; [|reflexivity].
    erewrite bind_ok; [|reflexivity]. done.
Qed.

Lemma review_check_url_witness :
  result (review interactive "octo/tool" None) (st_prompt ["c"])
  = Raise KeyError.
Proof.
  destruct (review_check_url interactive "octo/tool" None (st_prompt ["c"])
              {[ "octo/tool" := licensed_repo ]} licensed_repo (Some true)
              "Python" [])
    as (H & _); [done..|].
  unfold result. by rewrite H.
Defined.

(** X28: the answer [r], when the server answers the request for the
    README with both rate-limit headers.  An error status other than 404
    raises [HTTPError] out of [main].  A README whose encoding is not
    [base64] is not shown and [cmd] stays as it was.  Otherwise the content
    is piped to [config['cmd_readme']], or to [config['cmd_readme_md']]
    when that entry exists and the file name is [readme.md] in any case of
    letters; the command becomes the value of [cmd]. *)
Theorem readme_answer (r : Repo) (cmd : option string) (st : St)
    (rl : RateLimit) (resp : Response) (rest : list Reply)
    (remaining reset_at : Z) :
  rate_limit_state st (README_URL r) = Some rl →
  net st = Answer resp :: rest →
  x_ratelimit_remaining resp = Some remaining →
  x_ratelimit_reset resp = Some reset_at →
  let st1 := answered st (README_URL r) None rl rest remaining reset_at in
  (400 ≤ status_code resp < 600 → status_code resp ≠ 404 →
   readme r cmd st = (Raise (HTTPError (status_code resp)), st1))
  ∧ (∀ encoding content name,
       is_http_error (status_code resp) = false →
       body resp = Readme encoding content name →
       encoding ≠ "base64" →
       readme r cmd st = (Ok cmd, st1))
  ∧ (∀ content name c,
       is_http_error (status_code resp) = false →
       body resp = Readme "base64" content name →
       data (config st) !! "cmd_readme" = Some (VStr c) →
       Str.lower name ≠ "readme.md"
       ∨ data (config st) !! "cmd_readme_md" = None →
       readme r cmd st = (Ok (Some c), log_event (EPopen c content) st1))
  ∧ (∀ content name c c2,
       is_http_error (status_code resp) = false →
       body resp = Readme "base64" content name →
       data (config st) !! "cmd_readme" = Some (VStr c) →
       Str.lower name = "readme.md" →
       data (config st) !! "cmd_readme_md" = Some (VStr c2) →
       readme r cmd st = (Ok (Some c2), log_event (EPopen c2 content) st1)).
Proof.
  intros Hrl Hnet Hrem Hrst st1.
  assert (gh_req (README_URL r) false None st = (Ok resp, st1)) as Hreq.
  { by rewrite (gh_req_answered _ _ _ _ _ _ _ _ _ Hrl Hnet Hrem Hrst). }
  assert (is_http_error (status_code resp) = false →
          bool_decide (status_code resp = 404) = false) as H404.
  { intros Herr. apply bool_decide_eq_false_2. intros H.
    rewrite H in Herr. done. }
  assert (∀ content name c,
    is_http_error (status_code resp) = false →
    body resp = Readme "base64" content name →
    data (config st) !! "cmd_readme" = Some (VStr c) →
    readme r cmd st
    = (c ← (if decide (Str.lower name = "readme.md")
            then get Config "cmd_readme_md" (VStr c)
            else ret (VStr c));
       c ← as_str c;
       modify (log_event (EPopen c content));;
       ret (Some c)) st1) as Hbase.
  { intros content name c Herr Hbody Hc. unfold readme.
    erewrite bind_ok; [|exact Hreq]. rewrite (H404 Herr).
    erewrite bind_ok; [|unfold raise_for_status; by rewrite Herr].
    erewrite bind_ok; [|unfold json; by rewrite Hbody].
    cbv beta iota. rewrite decide_True by done.
    erewrite bind_ok; [|by apply getitem_eq]. done. }
  split_and!.
  - intros Hstatus Hne. unfold readme.
    erewrite bind_ok; [|exact Hreq].
    rewrite bool_decide_eq_false_2 by done.
    apply bind_raise. unfold raise_for_status.
    by rewrite (proj2 (is_http_error_spec _) Hstatus).
  - intros encoding content name Herr Hbody Henc. unfold readme.
    erewrite bind_ok; [|exact Hreq]. rewrite (H404 Herr).
    erewrite bind_ok; [|unfold raise_for_status; by rewrite Herr].
    erewrite bind_ok; [|unfold json; by rewrite Hbody].
    cbv beta iota. by rewrite decide_False.
  - intros content name c Herr Hbody Hc Hor.
    rewrite (Hbase _ _ _ Herr Hbody Hc).
    erewrite (bind_ok _ _ _ (VStr c)).
    2:{ destruct Hor as [Hname|Hmd].
        - rewrite decide_False by done. reflexivity.
        - destruct (decide (Str.lower name = "readme.md")); [|reflexivity].
          unfold get. unfold_m.
          change (obj Config st1) with (config st). by rewrite Hmd. }
    erewrite bind_ok; [|reflexivity].
    erewrite bind_ok; [|reflexivity]. done.
  - intros content name c c2 Herr Hbody Hc Hname Hmd.
    rewrite (Hbase _ _ _ Herr Hbody Hc).
    erewrite (bind_ok _ _ _ (VStr c2)).
    2:{ rewrite decide_True by done.
        unfold get. unfold_m.
        change (obj Config st1) with (config st). by rewrite Hmd. }
    erewrite bind_ok; [|reflexivity].
    erewrite bind_ok; [|reflexivity]. done.
Qed.

Lemma readme_answer_witness :
  result (readme example_repo None) (set_net [Answer readme_reply] st_fresh)
  = Ok (Some "less").
Proof.
  destruct (readme_answer example_repo None
              (set_net [Answer readme_reply] st_fresh) (mkRateLimit 1 0)
              readme_reply [] 29 1060 eq_refl eq_refl eq_refl eq_refl)
    as (_ & _ & H & _).
  unfold result. rewrite (H "IyB0b29sCg==" "README.md" "less"); try done.
  by right.
Defined.

(** ** main: the order of the review *)

Lemma insert_sorted_perm x l : insert_sorted x l ≡ₚ x :: l.
Proof.
  induction l as [|y l IH]; [done|]. cbn [insert_sorted].
  destruct (String.leb x y); [done|].
  rewrite IH. apply perm_swap.
Qed.

Lemma sorted_perm l : sorted l ≡ₚ l.
Proof.
  induction l as [|x l IH]; [done|].
  unfold sorted in *. cbn [foldr]. rewrite insert_sorted_perm. by rewrite IH.
Qed.

Lemma insert_sorted_Sorted x l :
  Sorted str_le l → Sorted str_le (insert_sorted x l).
Proof.
  induction l as [|y l IH]; intros Hl; cbn [insert_sorted].
  - by repeat constructor.
  - destruct (String.leb x y) eqn:Hxy.
    + constructor; [done|]. by constructor.
    + apply Sorted_inv in Hl as [Hl Hhd].
      constructor; [by apply IH|].
      assert (str_le y x) as Hyx.
      { destruct (String.leb_total x y) as [H|H]; [congruence|done]. }
      destruct l as [|z l]; cbn [insert_sorted].
      * by constructor.
      * destruct (String.leb x z); constructor; [done|].
        by apply HdRel_inv in Hhd.
Qed.

Lemma sorted_Sorted l : Sorted str_le (sorted l).
Proof.
  induction l as [|x l IH]; [constructor|].
  unfold sorted in *. cbn [foldr]. by apply insert_sorted_Sorted.
Qed.

Lemma printed_frame l : ∀ st,
  trace (printed l st) = trace st ++ (EPrintRepo <$> l)
  ∧ cache (printed l st) = cache st ∧ repos (printed l st) = repos st
  ∧ keys (printed l st) = keys st ∧ net (printed l st) = net st
  ∧ files (printed l st) = files st
  ∧ filters_repo (printed l st) = filters_repo st
  ∧ filters_description (printed l st) = filters_description st.
Proof.
  induction l as [|fn l IH]; intros st.
  - cbn. by rewrite app_nil_r.
  - cbn [printed foldl fmap list_fmap].
    destruct (IH (log_event (EPrintRepo fn) st))
      as (Ht & Hc & Hr & Hk & Hn & Hf & Hfr & Hfd).
    unfold printed in *. rewrite Ht, Hc, Hr, Hk, Hn, Hf, Hfr, Hfd.
    cbn. by rewrite <- app_assoc.
Qed.

Lemma review_all_settled args m l : ∀ cmd st,
  check args = true →
  data (cache st) !! "repos" = Some (VRepos m) →
  (∀ fn, fn ∈ l → ∃ r, m !! fn = Some r ∧ settled st fn r) →
  review_all args l cmd st = (Ok Next, printed l st).
Proof.
  induction l as [|fn l IH]; intros cmd st Hcheck Hm Hall; [done|].
  destruct (Hall fn) as (r & Hr & Hfn & Hf & [lic Hl] & [lang Hlang]);
    [by left|].
  cbn [review_all].
  erewrite bind_ok.
  2:{ rewrite (review_shown _ _ _ _ _ _ _ Hm Hr Hf Hl).
      erewrite bind_ok; [|by eapply print_repo_eq].
      rewrite Hcheck, Hfn. reflexivity. }
  cbv beta iota. apply IH; try done.
  intros fn' Hin. destruct (Hall fn') as (r' & Hr' & Hs'); [by right|].
  by exists r'.
Qed.

(** X29: a run with [--check] over a cache that needs no work.  The cache
    is not empty, every pending record is settled and no fetch is forced.
    Then [main] requests nothing and reads no key: it prints every pending
    record once, in ascending order of the names, saves the stores that are
    dirty and returns; the pending cache is as it was. *)
Theorem main_check_prints_in_order (args : Args) (st : St)
    (m : gmap string Repo) :
  check args = true →
  force args = false →
  force_all args = false →
  data (cache st) !! "repos" = Some (VRepos m) →
  m ≠ ∅ →
  (∀ fn r, m !! fn = Some r → settled st fn r) →
  let st' := run (main args) st in
  let fns := sorted (map_to_list m).*1 in
  result (main args) st = Ok tt
  ∧ trace st'
    = trace st ++ (EPrintRepo <$> fns)
      ++ (if updated (cache st) then [ESave (JSON (cache st))] else [])
      ++ (if updated (repos st) then [ESave (JSON (repos st))] else [])
  ∧ Sorted str_le fns
  ∧ NoDup fns
  ∧ (∀ fn, fn ∈ fns ↔ is_Some (m !! fn))
  ∧ pending st' = m
  ∧ net st' = net st ∧ keys st' = keys st.
Proof.
  intros Hcheck Hforce Hall Hm Hne Hsettled st' fns.
  assert (∀ fn, fn ∈ fns ↔ is_Some (m !! fn)) as Hin.
  { intros fn. subst fns. rewrite sorted_perm.
    rewrite list_elem_of_fmap. split.
    - intros ([k r] & -> & Hkr). apply elem_of_map_to_list in Hkr. by exists r.
    - intros [r Hr]. exists (fn, r). split; [done|].
      by apply elem_of_map_to_list. }
  destruct (printed_frame fns st)
    as (Ht & Hc & Hr & Hk & Hn & Hf & _ & _).
  destruct (two_saves (printed fns st))
    as (st3 & Hsave & _ & _ & Hdc & _ & Hk3 & Hn3 & _ & Ht3 & _).
  assert (main args st = (Ok tt, st3)) as Hrun.
  { unfold main. rewrite Hforce, Hall.
    erewrite bind_ok.
    2:{ erewrite bind_ok; [|by apply cache_repos_eq].
        by rewrite bool_decide_eq_false_2. }
    erewrite bind_ok; [|by apply cache_repos_eq].
    erewrite bind_ok.
    2:{ apply (review_all_settled args m); try done.
        intros fn [r Hfn]%Hin. exists r. split; [done|]. by apply Hsettled. }
    exact Hsave. }
  subst st'. unfold result, run. rewrite Hrun. cbn [fst snd].
  split_and!; try done.
  - rewrite Ht3, Ht, Hc, Hr. by rewrite <- !app_assoc.
  - apply sorted_Sorted.
  - subst fns. rewrite sorted_perm. apply NoDup_fst_map_to_list.
  - apply pending_eq. unfold printed in *. by rewrite Hdc, Hc.
  - congruence.
  - congruence.
Qed.

Lemma main_check_prints_in_order_witness :
  trace (run (main checking) st_two_settled)
  = [EPrintRepo "abe/lib"; EPrintRepo "octo/tool"; ESave (JSON (fresh Cache))].
Proof.
  destruct (main_check_prints_in_order checking st_two_settled
              (<["octo/tool" := licensed_repo]> {[ "abe/lib" := abe_lib ]}))
    as (_ & H & _); [done..| |].
  - intros fn r [[<- <-]|[_ [<- <-]%lookup_singleton_Some]]%lookup_insert_Some;
      repeat split; by eexists.
  - rewrite H. vm_compute. reflexivity.
Defined.

(** ** Repos.__init__: when the store is left dirty *)

Lemma for_expire_flag th l : ∀ st m,
  NoDup l →
  data (repos st) !! "snooze" = Some (VTimes m) →
  (∀ r, r ∈ l → is_Some (m !! r)) →
  updated (repos (run (for_ l (expire th)) st))
  = updated (repos st) || existsb (expired th m) l.
Proof.
  induction l as [|r l IH]; intros st m Hnd Hs Hin.
  - cbn. by rewrite orb_false_r.
  - apply NoDup_cons in Hnd as [Hr Hnd].
    destruct (Hin r) as [t Ht]; [left|].
    cbn [for_ existsb]. erewrite run_bind_ok; [|by eapply expire_eq].
    unfold expired at 1. rewrite Ht.
    destruct (bool_decide (th >= t)).
    + rewrite (IH _ (delete r m) Hnd).
      * cbn. by rewrite orb_true_r.
      * apply with_snooze_lookup.
      * intros r' Hr'. rewrite lookup_delete_ne by (intros ->; done).
        apply Hin. by right.
    + rewrite (IH st m Hnd Hs); [done|].
      intros r' Hr'. apply Hin. by right.
Qed.

Lemma Repos_init_flag st S m :
  data (config st) !! "snooze_seconds" = Some (VInt S) →
  loaded Repos st !! "snooze" = Some (VTimes m) →
  updated (repos (run Repos_init st)) = true
  ↔ ∃ fn t, m !! fn = Some t ∧ clock st - t >= S.
Proof.
  intros HS Hm. unfold Repos_init.
  erewrite run_bind_ok; [|reflexivity].
  change ((modify _ st).2) with (run (Data_init Repos) st).
  set (st0 := run (Data_init Repos) st).
  erewrite run_bind_ok; [|reflexivity].
  erewrite run_bind_ok; [|by apply getitem_eq].
  erewrite run_bind_ok; [|reflexivity].
  erewrite run_bind_ok; [|by apply snooze_dict_eq].
  match goal with
  | |- context [expire ?th] => assert (th = clock st - S) as -> by reflexivity
  end.
  rewrite (for_expire_flag _ _ st0 m); [|apply NoDup_fst_map_to_list|exact Hm|].
  2:{ intros r [[r' t] [-> Hr]]%list_elem_of_fmap.
      apply elem_of_map_to_list in Hr. by exists t. }
  assert (updated (repos st0) = false) as -> by done.
  cbn [orb]. rewrite existsb_exists. split.
  - intros (fn & _ & Hexp). unfold expired in Hexp.
    destruct (m !! fn) as [t|] eqn:Hfn; [|done].
    apply bool_decide_eq_true in Hexp. exists fn, t. split; [done|lia].
  - intros (fn & t & Hfn & Hage). exists fn. split.
    + apply list_elem_of_In, list_elem_of_fmap. exists (fn, t).
      split; [done|]. by apply elem_of_map_to_list.
    + unfold expired. rewrite Hfn. apply bool_decide_eq_true. lia.
Qed.

(** X30: the start of a run rewrites the watchlist file only to drop
    expired snoozes.  [Repos.__init__] leaves the store dirty exactly when
    a loaded snooze entry had reached the age [snooze_seconds]; a [save]
    right after it then writes the file, which holds the store without the
    expired entries, and writes nothing when no entry had expired. *)
Theorem Repos_init_dirty (st : St) (S : Z) (m : gmap string Z) :
  data (config st) !! "snooze_seconds" = Some (VInt S) →
  loaded Repos st !! "snooze" = Some (VTimes m) →
  let st' := run Repos_init st in
  let st'' := run (Repos_init;; save Repos) st in
  (updated (repos st') = true ↔ ∃ fn t, m !! fn = Some t ∧ clock st - t >= S)
  ∧ ((∃ fn t, m !! fn = Some t ∧ clock st - t >= S) →
     trace st'' = trace st ++ [ESave (JSON (fresh Repos))]
     ∧ files st'' = <[JSON (fresh Repos) := data (repos st')]> (files st)
     ∧ ∀ fn t, m !! fn = Some t → clock st - t >= S →
               snoozed st' !! fn = None)
  ∧ ((∀ fn t, m !! fn = Some t → clock st - t < S) →
     trace st'' = trace st ∧ files st'' = files st ∧ snoozed st' = m).
Proof.
  intros HS Hm st' st''.
  pose proof (Repos_init_flag st S m HS Hm) as Hflag. fold st' in Hflag.
  destruct (Repos_init_eq st S m HS Hm) as (m' & flag & Hinit & Hm').
  assert (st' = with_snooze m' flag (run (Data_init Repos) st)) as Hst'.
  { subst st'. unfold run at 1. by rewrite Hinit. }
  assert (JSON (repos st') = JSON (fresh Repos)
          ∧ files st' = files st ∧ trace st' = trace st) as (Hj & Hf & Ht).
  { rewrite Hst'. done. }
  assert (st'' = run (save Repos) st') as Hst''.
  { subst st'' st'. erewrite run_bind_ok; [done|].
    rewrite Hinit. unfold run. by rewrite Hinit. }
  split_and!.
  - exact Hflag.
  - intros Hex. apply Hflag in Hex as Hu.
    rewrite Hst''. unfold run at 1 2. rewrite (save_dirty Repos _ Hu).
    cbn [snd obj set_obj]. cbn [trace files set_repos log_event set_files].
    rewrite Hj, Hf, Ht. split_and!; try done.
    intros fn t Hfn Hage. rewrite Hst', snoozed_with_snooze, Hm', Hfn.
    rewrite bool_decide_eq_true_2; [done|lia].
  - intros Hall.
    assert (updated (repos st') = false) as Hu.
    { destruct (updated (repos st')); [|done].
      destruct (proj1 Hflag eq_refl) as (fn & t & Hfn & Hage).
      specialize (Hall fn t Hfn). lia. }
    rewrite Hst''. unfold run at 1 2. rewrite (save_clean Repos _ Hu).
    cbn [snd]. split_and!; try done.
    rewrite Hst', snoozed_with_snooze. apply map_eq. intros fn.
    rewrite Hm'. destruct (m !! fn) as [t|] eqn:Hfn; [|done].
    rewrite bool_decide_eq_false_2; [done|]. specialize (Hall fn t Hfn). lia.
Qed.

Lemma Repos_init_dirty_witness :
  trace (run (Repos_init;; save Repos) st_snoozed)
  = [ESave (JSON (fresh Repos))]
  ∧ snoozed (run Repos_init st_snoozed) !! "old/x" = None.
Proof.
  destruct (Repos_init_dirty st_snoozed (7 * 86400)
              (<["old/x" := 100]> (<["new/y" := 900000]> ∅))
              eq_refl eq_refl) as (_ & H & _).
  destruct H as (H1 & _ & H2).
  - exists "old/x", 100. split; [reflexivity|cbn; lia].
  - split; [exact H1|]. apply (H2 "old/x" 100); [reflexivity|cbn; lia].
Defined.
